(** * Verification of the opensolar investment / payback contract

    A shallow embedding of [core/contract.go] (package [core] of
    opensolar) and the theorems that settle the claims made about it by
    the specification.

    Conventions of the embedding.

    - Go's [float64] is IEEE 754 binary64; it is modelled by Rocq's
      primitive [float], which is binary64 with the same rounding
      (nearest, ties to even).  Every arithmetic operation of the source
      is written with the corresponding float operation, in the order in
      which the source groups it, and [==], [<], [<=] on floats are
      [PrimFloat.eqb], [PrimFloat.ltb], [PrimFloat.leb] (all [false] on NaN).
    - Go's [int]/[int64] values that are only stored, compared or used as
      keys are [Z]; the two places where the source does 64-bit
      arithmetic on them are written with [wrap64].
    - A Go function returning [error] is a computation in the monad [M]
      below: it threads the [World] (the project store, the clock and the
      trace of outbound calls) and returns [Ok] or [Err] with the message.
    - Collaborators that live outside [core/contract.go] (the chain
      service, wallets, notifications, the investor / recipient / entity
      stores, package-level constants) are fields of the records [Consts]
      and [Env]; nothing is assumed about them. *)

From Stdlib Require Import Floats ZArith.
From stdpp Require Import gmap strings list fin_maps.

Local Open Scope string_scope.
Local Open Scope list_scope.
Local Open Scope Z_scope.

(** ** Numbers *)

(** Two's complement wrap-around of a 64-bit signed integer. *)
Definition wrap64 (z : Z) : Z := (z + 2 ^ 63) mod 2 ^ 64 - 2 ^ 63.

(** The conversion [float64(n)] of an integer: the nearest binary64 value,
    ties to even. *)
Definition float64_of_Z (z : Z) : float :=
  SF2Prim (binary_normalize prec emax z 0 false).

(** ** Errors (package [github.com/pkg/errors]) *)

Definition error : Type := string.

(** [errors.New(msg)]. *)
Definition errors_New (msg : string) : error := msg.

(** [errors.Wrap(err, msg)]: [nil] when [err] is [nil], otherwise the
    message followed by the cause. *)
Definition errors_Wrap (err : option error) (msg : string) : option error :=
  match err with
  | None => None
  | Some e => Some (msg +:+ ": " +:+ e)
  end.

(** ** Data model *)

Record StellarWallet : Type := mkStellarWallet {
  PublicKey : string;
  EncryptedSeed : string
}.

Record User : Type := mkUser {
  U_Index : Z;
  Email : string;
  Notification : bool;
  Wallet : StellarWallet
}.

Record Investor : Type := mkInvestor { inv_U : User }.

Record Recipient : Type := mkRecipient { recp_U : User }.

Record Entity : Type := mkEntity {
  ent_U : User;
  FirstLossGuarantee : string;
  FirstLossGuaranteeAmt : float
}.

Record Project : Type := mkProject {
  Index : Z;
  Stage : Z;
  Metadata : string;
  Chain : string;
  InvestmentType : string;
  TotalValue : float;
  MoneyRaised : float;
  SeedMoneyRaised : float;
  SeedInvestmentCap : float;
  SeedInvestmentFactor : float;
  InterestRate : float;
  BalLeft : float;
  AmountOwed : float;
  OwnershipShift : float;
  DateLastPaid : Z;
  PaybackPeriod : Z;
  EstimatedAcquisition : Z;
  InvestorIndices : list Z;
  InvestorMap : gmap string float;
  SeedAssetCode : string;
  InvestorAssetCode : string;
  DebtAssetCode : string;
  PaybackAssetCode : string;
  Lock : bool;
  LockPwd : string;
  EscrowPubkey : string;
  EscrowLock : bool;
  RecipientIndex : Z;
  GuarantorIndex : Z
}.

Definition set_Stage (v : Z) (p : Project) : Project :=
  mkProject (Index p) v (Metadata p) (Chain p) (InvestmentType p)
    (TotalValue p) (MoneyRaised p) (SeedMoneyRaised p) (SeedInvestmentCap p)
    (SeedInvestmentFactor p) (InterestRate p) (BalLeft p) (AmountOwed p)
    (OwnershipShift p) (DateLastPaid p) (PaybackPeriod p)
    (EstimatedAcquisition p) (InvestorIndices p) (InvestorMap p)
    (SeedAssetCode p) (InvestorAssetCode p) (DebtAssetCode p)
    (PaybackAssetCode p) (Lock p) (LockPwd p) (EscrowPubkey p) (EscrowLock p)
    (RecipientIndex p) (GuarantorIndex p).

Definition set_MoneyRaised (v : float) (p : Project) : Project :=
  mkProject (Index p) (Stage p) (Metadata p) (Chain p) (InvestmentType p)
    (TotalValue p) v (SeedMoneyRaised p) (SeedInvestmentCap p)
    (SeedInvestmentFactor p) (InterestRate p) (BalLeft p) (AmountOwed p)
    (OwnershipShift p) (DateLastPaid p) (PaybackPeriod p)
    (EstimatedAcquisition p) (InvestorIndices p) (InvestorMap p)
    (SeedAssetCode p) (InvestorAssetCode p) (DebtAssetCode p)
    (PaybackAssetCode p) (Lock p) (LockPwd p) (EscrowPubkey p) (EscrowLock p)
    (RecipientIndex p) (GuarantorIndex p).

Definition set_SeedMoneyRaised (v : float) (p : Project) : Project :=
  mkProject (Index p) (Stage p) (Metadata p) (Chain p) (InvestmentType p)
    (TotalValue p) (MoneyRaised p) v (SeedInvestmentCap p)
    (SeedInvestmentFactor p) (InterestRate p) (BalLeft p) (AmountOwed p)
    (OwnershipShift p) (DateLastPaid p) (PaybackPeriod p)
    (EstimatedAcquisition p) (InvestorIndices p) (InvestorMap p)
    (SeedAssetCode p) (InvestorAssetCode p) (DebtAssetCode p)
    (PaybackAssetCode p) (Lock p) (LockPwd p) (EscrowPubkey p) (EscrowLock p)
    (RecipientIndex p) (GuarantorIndex p).

Definition set_BalLeft (v : float) (p : Project) : Project :=
  mkProject (Index p) (Stage p) (Metadata p) (Chain p) (InvestmentType p)
    (TotalValue p) (MoneyRaised p) (SeedMoneyRaised p) (SeedInvestmentCap p)
    (SeedInvestmentFactor p) (InterestRate p) v (AmountOwed p)
    (OwnershipShift p) (DateLastPaid p) (PaybackPeriod p)
    (EstimatedAcquisition p) (InvestorIndices p) (InvestorMap p)
    (SeedAssetCode p) (InvestorAssetCode p) (DebtAssetCode p)
    (PaybackAssetCode p) (Lock p) (LockPwd p) (EscrowPubkey p) (EscrowLock p)
    (RecipientIndex p) (GuarantorIndex p).

Definition set_AmountOwed (v : float) (p : Project) : Project :=
  mkProject (Index p) (Stage p) (Metadata p) (Chain p) (InvestmentType p)
    (TotalValue p) (MoneyRaised p) (SeedMoneyRaised p) (SeedInvestmentCap p)
    (SeedInvestmentFactor p) (InterestRate p) (BalLeft p) v (OwnershipShift p)
    (DateLastPaid p) (PaybackPeriod p) (EstimatedAcquisition p)
    (InvestorIndices p) (InvestorMap p) (SeedAssetCode p)
    (InvestorAssetCode p) (DebtAssetCode p) (PaybackAssetCode p) (Lock p)
    (LockPwd p) (EscrowPubkey p) (EscrowLock p) (RecipientIndex p)
    (GuarantorIndex p).

Definition set_OwnershipShift (v : float) (p : Project) : Project :=
  mkProject (Index p) (Stage p) (Metadata p) (Chain p) (InvestmentType p)
    (TotalValue p) (MoneyRaised p) (SeedMoneyRaised p) (SeedInvestmentCap p)
    (SeedInvestmentFactor p) (InterestRate p) (BalLeft p) (AmountOwed p) v
    (DateLastPaid p) (PaybackPeriod p) (EstimatedAcquisition p)
    (InvestorIndices p) (InvestorMap p) (SeedAssetCode p)
    (InvestorAssetCode p) (DebtAssetCode p) (PaybackAssetCode p) (Lock p)
    (LockPwd p) (EscrowPubkey p) (EscrowLock p) (RecipientIndex p)
    (GuarantorIndex p).

Definition set_DateLastPaid (v : Z) (p : Project) : Project :=
  mkProject (Index p) (Stage p) (Metadata p) (Chain p) (InvestmentType p)
    (TotalValue p) (MoneyRaised p) (SeedMoneyRaised p) (SeedInvestmentCap p)
    (SeedInvestmentFactor p) (InterestRate p) (BalLeft p) (AmountOwed p)
    (OwnershipShift p) v (PaybackPeriod p) (EstimatedAcquisition p)
    (InvestorIndices p) (InvestorMap p) (SeedAssetCode p)
    (InvestorAssetCode p) (DebtAssetCode p) (PaybackAssetCode p) (Lock p)
    (LockPwd p) (EscrowPubkey p) (EscrowLock p) (RecipientIndex p)
    (GuarantorIndex p).

Definition set_InvestorIndices (v : list Z) (p : Project) : Project :=
  mkProject (Index p) (Stage p) (Metadata p) (Chain p) (InvestmentType p)
    (TotalValue p) (MoneyRaised p) (SeedMoneyRaised p) (SeedInvestmentCap p)
    (SeedInvestmentFactor p) (InterestRate p) (BalLeft p) (AmountOwed p)
    (OwnershipShift p) (DateLastPaid p) (PaybackPeriod p)
    (EstimatedAcquisition p) v (InvestorMap p) (SeedAssetCode p)
    (InvestorAssetCode p) (DebtAssetCode p) (PaybackAssetCode p) (Lock p)
    (LockPwd p) (EscrowPubkey p) (EscrowLock p) (RecipientIndex p)
    (GuarantorIndex p).

Definition set_InvestorMap (v : gmap string float) (p : Project) : Project :=
  mkProject (Index p) (Stage p) (Metadata p) (Chain p) (InvestmentType p)
    (TotalValue p) (MoneyRaised p) (SeedMoneyRaised p) (SeedInvestmentCap p)
    (SeedInvestmentFactor p) (InterestRate p) (BalLeft p) (AmountOwed p)
    (OwnershipShift p) (DateLastPaid p) (PaybackPeriod p)
    (EstimatedAcquisition p) (InvestorIndices p) v (SeedAssetCode p)
    (InvestorAssetCode p) (DebtAssetCode p) (PaybackAssetCode p) (Lock p)
    (LockPwd p) (EscrowPubkey p) (EscrowLock p) (RecipientIndex p)
    (GuarantorIndex p).

Definition set_SeedAssetCode (v : string) (p : Project) : Project :=
  mkProject (Index p) (Stage p) (Metadata p) (Chain p) (InvestmentType p)
    (TotalValue p) (MoneyRaised p) (SeedMoneyRaised p) (SeedInvestmentCap p)
    (SeedInvestmentFactor p) (InterestRate p) (BalLeft p) (AmountOwed p)
    (OwnershipShift p) (DateLastPaid p) (PaybackPeriod p)
    (EstimatedAcquisition p) (InvestorIndices p) (InvestorMap p) v
    (InvestorAssetCode p) (DebtAssetCode p) (PaybackAssetCode p) (Lock p)
    (LockPwd p) (EscrowPubkey p) (EscrowLock p) (RecipientIndex p)
    (GuarantorIndex p).

Definition set_InvestorAssetCode (v : string) (p : Project) : Project :=
  mkProject (Index p) (Stage p) (Metadata p) (Chain p) (InvestmentType p)
    (TotalValue p) (MoneyRaised p) (SeedMoneyRaised p) (SeedInvestmentCap p)
    (SeedInvestmentFactor p) (InterestRate p) (BalLeft p) (AmountOwed p)
    (OwnershipShift p) (DateLastPaid p) (PaybackPeriod p)
    (EstimatedAcquisition p) (InvestorIndices p) (InvestorMap p)
    (SeedAssetCode p) v (DebtAssetCode p) (PaybackAssetCode p) (Lock p)
    (LockPwd p) (EscrowPubkey p) (EscrowLock p) (RecipientIndex p)
    (GuarantorIndex p).

Definition set_DebtAssetCode (v : string) (p : Project) : Project :=
  mkProject (Index p) (Stage p) (Metadata p) (Chain p) (InvestmentType p)
    (TotalValue p) (MoneyRaised p) (SeedMoneyRaised p) (SeedInvestmentCap p)
    (SeedInvestmentFactor p) (InterestRate p) (BalLeft p) (AmountOwed p)
    (OwnershipShift p) (DateLastPaid p) (PaybackPeriod p)
    (EstimatedAcquisition p) (InvestorIndices p) (InvestorMap p)
    (SeedAssetCode p) (InvestorAssetCode p) v (PaybackAssetCode p) (Lock p)
    (LockPwd p) (EscrowPubkey p) (EscrowLock p) (RecipientIndex p)
    (GuarantorIndex p).

Definition set_PaybackAssetCode (v : string) (p : Project) : Project :=
  mkProject (Index p) (Stage p) (Metadata p) (Chain p) (InvestmentType p)
    (TotalValue p) (MoneyRaised p) (SeedMoneyRaised p) (SeedInvestmentCap p)
    (SeedInvestmentFactor p) (InterestRate p) (BalLeft p) (AmountOwed p)
    (OwnershipShift p) (DateLastPaid p) (PaybackPeriod p)
    (EstimatedAcquisition p) (InvestorIndices p) (InvestorMap p)
    (SeedAssetCode p) (InvestorAssetCode p) (DebtAssetCode p) v (Lock p)
    (LockPwd p) (EscrowPubkey p) (EscrowLock p) (RecipientIndex p)
    (GuarantorIndex p).

Definition set_Lock (v : bool) (p : Project) : Project :=
  mkProject (Index p) (Stage p) (Metadata p) (Chain p) (InvestmentType p)
    (TotalValue p) (MoneyRaised p) (SeedMoneyRaised p) (SeedInvestmentCap p)
    (SeedInvestmentFactor p) (InterestRate p) (BalLeft p) (AmountOwed p)
    (OwnershipShift p) (DateLastPaid p) (PaybackPeriod p)
    (EstimatedAcquisition p) (InvestorIndices p) (InvestorMap p)
    (SeedAssetCode p) (InvestorAssetCode p) (DebtAssetCode p)
    (PaybackAssetCode p) v (LockPwd p) (EscrowPubkey p) (EscrowLock p)
    (RecipientIndex p) (GuarantorIndex p).

Definition set_LockPwd (v : string) (p : Project) : Project :=
  mkProject (Index p) (Stage p) (Metadata p) (Chain p) (InvestmentType p)
    (TotalValue p) (MoneyRaised p) (SeedMoneyRaised p) (SeedInvestmentCap p)
    (SeedInvestmentFactor p) (InterestRate p) (BalLeft p) (AmountOwed p)
    (OwnershipShift p) (DateLastPaid p) (PaybackPeriod p)
    (EstimatedAcquisition p) (InvestorIndices p) (InvestorMap p)
    (SeedAssetCode p) (InvestorAssetCode p) (DebtAssetCode p)
    (PaybackAssetCode p) (Lock p) v (EscrowPubkey p) (EscrowLock p)
    (RecipientIndex p) (GuarantorIndex p).

Definition set_EscrowPubkey (v : string) (p : Project) : Project :=
  mkProject (Index p) (Stage p) (Metadata p) (Chain p) (InvestmentType p)
    (TotalValue p) (MoneyRaised p) (SeedMoneyRaised p) (SeedInvestmentCap p)
    (SeedInvestmentFactor p) (InterestRate p) (BalLeft p) (AmountOwed p)
    (OwnershipShift p) (DateLastPaid p) (PaybackPeriod p)
    (EstimatedAcquisition p) (InvestorIndices p) (InvestorMap p)
    (SeedAssetCode p) (InvestorAssetCode p) (DebtAssetCode p)
    (PaybackAssetCode p) (Lock p) (LockPwd p) v (EscrowLock p)
    (RecipientIndex p) (GuarantorIndex p).

(** The zero value of [Project] ([var project Project]). *)
Definition zeroProject : Project :=
  mkProject 0 0 "" "" "" 0 0 0 0 0 0 0 0 0 0 0 0 [] ∅ "" "" "" "" false ""
    "" false 0 0.

(** ** Outbound calls, the world and the collaborators *)

(** Background tasks started with [go]. *)
Inductive Task : Type :=
| Task_sendRecipientAssets (projIndex : Z)
| Task_monitorPaybacks (recpIndex projIndex : Z).

(** One entry of the trace per outbound call the contract makes: calls on
    the chain service, notifications, [time.Sleep] and [go].  A call is
    recorded when it is attempted, whatever its outcome.  Arguments that
    are package constants (issuer directory, passwords, platform seed) are
    not recorded. *)
Inductive Event : Type :=
| issuer_InitIssuer (projIndex : Z)
| issuer_FundIssuer (projIndex : Z)
| Call_MunibondInvest (invIndex : Z) (invSeed : string) (invAmount : float)
    (projIndex : Z) (assetCode : string) (totalValue factor : float)
    (seed : bool)
| Call_MunibondReceive (recpIndex projIndex : Z)
    (debtAssetCode paybackAssetCode : string) (years : Z) (recpSeed : string)
    (totalValue : float) (paybackPeriod : Z)
| Call_MunibondPayback (recpIndex : Z) (amount : float)
    (recipientSeed : string) (projIndex : Z) (assetName : string)
    (investors : list Z) (totalValue : float) (escrowPubkey : string)
| escrow_InitEscrow (projIndex : Z) (recpPubkey recpSeed : string)
| escrow_TransferFundsToEscrow (amount : float) (projIndex : Z)
    (escrowPubkey : string)
| escrow_SendFundsFromEscrow (escrowPubkey destination recipientSeed : string)
    (amount : float) (memo : string)
| assets_SendAsset (assetCode issuerPubkey destination : string)
    (amount : float) (seed memo : string)
| notif_SendRecpNotFoundEmail (projIndex recpIndex : Z)
| notif_SendUnlockNotifToRecipient (projIndex : Z) (email : string)
| notif_SendNicePaybackAlertEmail (projIndex : Z) (email : string)
| notif_SendSternPaybackAlertEmail (projIndex : Z) (email : string)
| notif_SendSternPaybackAlertEmailI (projIndex : Z) (email : string)
| notif_SendSternPaybackAlertEmailG (projIndex : Z) (email : string)
| notif_SendDisconnectionEmailI (projIndex : Z) (email : string)
| notif_SendDisconnectionEmailG (projIndex : Z) (email : string)
| time_Sleep (d : Z)
| Go (t : Task).

(** The state the contract runs in: the project bucket of the database,
    the wall clock in nanoseconds, and the outbound calls made so far
    (oldest first). *)
Record World : Type := mkWorld {
  projects : gmap Z Project;
  clock : Z;
  trace : list Event
}.

(** Package-level constants of [consts] and [core] that are declared
    outside [core/contract.go]. *)
Record Consts : Type := mkConsts {
  InvestorAssetPrefix : string;
  DebtAssetPrefix : string;
  PaybackAssetPrefix : string;
  LockInterval : Z;
  OneHour : Z;
  OneWeekInSecond : Z;
  Mainnet : bool;
  StablecoinCode : string;
  StablecoinPublicKey : string;
  AnchorUSDCode : string;
  AnchorUSDAddress : string;
  NormalThreshold : float;
  AlertThreshold : float;
  SternAlertThreshold : float;
  DisconnectionThreshold : float
}.

(** The collaborators.  A Go result [(v, err)] is the pair of the value
    and [None] for [nil]; queries may depend on the whole world, so their
    answers may change as time passes and calls are made. *)
Record Env : Type := mkEnv {
  wallet_ReturnPubkey : string → string * option error;
  wallet_DecryptSeed : string → string → string * option error;
  xlm_AccountExists : World → string → bool;
  xlm_GetAssetBalance : World → string → string → float * option error;
  assets_AssetID : string → string;
  CanInvest : World → Investor → float → bool;
  RetrieveInvestor : World → Z → Investor * option error;
  RetrieveRecipient : World → Z → Recipient * option error;
  RetrieveEntity : World → Z → Entity * option error;
  (** the error of [project.Save()], [None] when the record is stored *)
  Save_error : World → Project → option error;
  (** the error an outbound call returns *)
  call_error : World → Event → option error;
  (** the escrow public key an [escrow.InitEscrow] call returns *)
  InitEscrow_pubkey : World → Event → string;
  (** the ownership fraction a [MunibondPayback] call returns *)
  MunibondPayback_pct : World → Event → float;
  oracle_MonthlyBill : World → float;
  (** the order in which [range] visits a map, unspecified in Go *)
  map_range : World → gmap string float → list (string * float)
}.

(** Modelled from the spec: [Stage5.Number], declared with the stages of
    package [core]; the spec's stage 5, funds raised and awaiting
    construction. *)
Definition Stage5_Number : Z := 5.

(** [time.Second], in nanoseconds. *)
Definition time_Second : Z := 1000000000.

(** ** The error and state monad *)

Inductive result (A : Type) : Type :=
| Ok (a : A)
| Err (e : error).
Arguments Ok {A} a.
Arguments Err {A} e.

Definition M (A : Type) : Type := World → result A * World.

Definition ret {A} (a : A) : M A := fun w => (Ok a, w).

Definition fail {A} (e : error) : M A := fun w => (Err e, w).

Definition bind {A B} (c : M A) (k : A → M B) : M B :=
  fun w =>
    match c w with
    | (Ok a, w') => k a w'
    | (Err e, w') => (Err e, w')
    end.

Notation "'let*' x ':=' c 'in' k" := (bind c (fun x => k))
  (at level 10, x pattern, c at level 100, k at level 200).

(** Reads something off the current world. *)
Definition ask {A} (f : World → A) : M A := fun w => (Ok (f w), w).

(** [x, err := f(...); if err != nil { return errors.Wrap(err, msg) }]. *)
Definition check {A} (c : M (A * option error)) (msg : string) : M A :=
  let* r := c in
  match errors_Wrap (snd r) msg with
  | None => ret (fst r)
  | Some e => fail e
  end.

(** [err := f(...); if err != nil { return errors.Wrap(err, msg) }] for a
    function [f] of the contract itself. *)
Definition wrapped {A} (c : M A) (msg : string) : M A :=
  fun w =>
    match c w with
    | (Ok a, w') => (Ok a, w')
    | (Err e, w') => (Err (msg +:+ ": " +:+ e), w')
    end.

(** [err := f(...)] where the caller goes on after an error. *)
Definition catch {A} (c : M A) : M (option error) :=
  fun w =>
    match c w with
    | (Ok _, w') => (Ok None, w')
    | (Err e, w') => (Ok (Some e), w')
    end.

(** [return v, err] for a function returning [(A, error)]. *)
Definition returning {A} (v : A) (err : option error) : M A :=
  match err with
  | None => ret v
  | Some e => fail e
  end.

Definition log_event (ev : Event) (w : World) : World :=
  mkWorld (projects w) (clock w) (trace w ++ [ev]).

(** A call with no result (notifications, [go]). *)
Definition emit (ev : Event) : M unit := fun w => (Ok tt, log_event ev w).

(** [time.Sleep(d)]: returns at once when [d] is not positive. *)
Definition Sleep (d : Z) : M unit :=
  fun w => (Ok tt, mkWorld (projects w) (clock w + Z.max 0 d)
                     (trace w ++ [time_Sleep d])).

(** [utils.Unix()]: the wall clock in seconds. *)
Definition utils_Unix (w : World) : Z := clock w / time_Second.

(** Modelled from the spec: [RetrieveProject], the ledger accessor's load
    by integer index, declared in the database file of package [core].
    A missing record is an error, returned with the zero-valued project
    the accessor declared for its result. *)
Definition RetrieveProject (w : World) (key : Z) : Project * option error :=
  match projects w !! key with
  | Some p => (p, None)
  | None => (zeroProject, Some (errors_New "error while retrieving key from bucket"))
  end.

(** ** The contract ([core/contract.go]) *)

Section Contract.

Variable C : Consts.
Variable E : Env.

(** [project.Save()]: the ledger accessor's store by index; on success
    the record replaces the one stored under its [Index]. *)
Definition Save (p : Project) : M (unit * option error) :=
  fun w =>
    match Save_error E w p with
    | None =>
        (Ok (tt, None),
         mkWorld (<[Index p := p]> (projects w)) (clock w) (trace w))
    | Some e => (Ok (tt, Some e), w)
    end.

(** An outbound call that returns an error. *)
Definition call (ev : Event) : M (unit * option error) :=
  fun w => (Ok (tt, call_error E w ev), log_event ev w).

(** [preInvestmentCheck]: the checks an investment bid goes through.  In
    the two last branches the source returns [errors.Wrap(err, ...)] with
    [err] equal to [nil], which is [nil]. *)
Definition preInvestmentCheck (projIndex invIndex : Z) (invAmount : float)
    (seed : string) : M Project :=
  let* project := check (ask (fun w => RetrieveProject w projIndex))
                    "couldn't retrieve project" in
  let* investor := check (ask (fun w => RetrieveInvestor E w invIndex))
                     "couldn't retrieve investor" in
  let* can := ask (fun w => CanInvest E w investor invAmount) in
  if negb can then
    fail (errors_New "Investor has less balance than what is required to invest in this project")
  else
  let* pubkey := check (ret (wallet_ReturnPubkey E seed))
                   "could not get pubkey from seed" in
  let* acc := ask (fun w => xlm_AccountExists E w pubkey) in
  if negb acc then fail (errors_New "account doesn't exist yet, quitting")
  else
  if (TotalValue project - MoneyRaised project <? invAmount)%float then
    fail (errors_New "Investment amount greater than what is required! Adjust your investment")
  else
  if (Chain project =? "stellar")%string || (Chain project =? "")%string then
    if (SeedAssetCode project =? "")%string
       && (InvestorAssetCode project =? "")%string then
      let project :=
        set_InvestorAssetCode
          (assets_AssetID E (InvestorAssetPrefix C +:+ Metadata project))
          project in
      let* _ := check (Save project) "couldn't save project" in
      let* _ := check (call (issuer_InitIssuer projIndex))
                  "error while initializing issuer" in
      let* _ := check (call (issuer_FundIssuer projIndex))
                  "error while funding issuer" in
      ret project
    else ret project
  else if (Chain project =? "algorand")%string then
    returning project
      (errors_Wrap None "algorand investments not supported yet, quitting")
  else
    returning project (errors_Wrap None "chain not supported, quitting").

(** [sendRecipientNotification]: asks the recipient to unlock the project;
    when the recipient is not found, mails the platform admin, sleeps
    [consts.OneHour] and looks the recipient up once more. *)
Definition sendRecipientNotification (project : Project) : M unit :=
  let* r := ask (fun w => RetrieveRecipient E w (RecipientIndex project)) in
  let* recipient :=
    match snd r with
    | Some _ =>
        let* _ := emit (notif_SendRecpNotFoundEmail (Index project)
                          (RecipientIndex project)) in
        let* _ := Sleep (OneHour C) in
        check (ask (fun w => RetrieveRecipient E w (RecipientIndex project)))
          "couldn't retrieve recipient"
    | None => ret (fst r)
    end in
  emit (notif_SendUnlockNotifToRecipient (Index project)
          (Email (recp_U recipient))).

(** [balance, err = xlm.GetAssetBalance(...); if err != nil { balance = 0 }]:
    the balance a failed query counts for. *)
Definition balance_or_zero (r : float * option error) : float :=
  match snd r with
  | Some _ => 0%float
  | None => fst r
  end.

(** The [for i := range project.InvestorIndices] loop of
    [updateAfterInvestment]: recomputes the share of every investor of
    [indices], in order, from the balances the chain reports. *)
Fixpoint updateAfterInvestment_loop (indices : list Z) (project : Project)
    : M Project :=
  match indices with
  | [] => ret project
  | i :: rest =>
      let* investor := check (ask (fun w => RetrieveInvestor E w i))
                         "error while retrieving investors, quitting" in
      let pubkey := PublicKey (Wallet (inv_U investor)) in
      let* balance1 :=
        ask (fun w => balance_or_zero
                        (xlm_GetAssetBalance E w pubkey
                           (InvestorAssetCode project))) in
      let* balance2 :=
        ask (fun w => balance_or_zero
                        (xlm_GetAssetBalance E w pubkey
                           (SeedAssetCode project))) in
      let balance := (balance1 + balance2)%float in
      let percentageInvestment := (balance / TotalValue project)%float in
      updateAfterInvestment_loop rest
        (set_InvestorMap
           (<[pubkey := percentageInvestment]> (InvestorMap project)) project)
  end.

(** The assignments [updateAfterInvestment] starts with: the amount is
    added to [MoneyRaised], the seed surplus to [SeedMoneyRaised] for a
    seed investment, and the investor is appended to [InvestorIndices]. *)
Definition record_investment (project : Project) (invAmount : float)
    (invIndex : Z) (seed : bool) : Project :=
  let project :=
    set_MoneyRaised (MoneyRaised project + invAmount)%float project in
  let project :=
    if seed then
      set_SeedMoneyRaised
        (SeedMoneyRaised project
         + invAmount * (SeedInvestmentFactor project - 1))%float project
    else project in
  set_InvestorIndices (InvestorIndices project ++ [invIndex]) project.

(** [updateAfterInvestment]: updates the project after an investment.
    The source replaces an empty [InvestorMap] by a fresh empty map before
    the loop; both are the empty map here. *)
Definition updateAfterInvestment (project : Project) (invAmount : float)
    (invIndex : Z) (seed : bool) : M unit :=
  let project := record_investment project invAmount invIndex seed in
  let* _ := check (Save project) "couldn't save project" in
  let* project :=
    if (MoneyRaised project =? TotalValue project)%float then
      let project := set_Lock true project in
      let* _ := check (Save project) "couldn't save project" in
      let* _ := wrapped (sendRecipientNotification project)
                  "error while sending notifications to recipient" in
      let* _ := emit (Go (Task_sendRecipientAssets (Index project))) in
      ret project
    else ret project in
  let* project :=
    updateAfterInvestment_loop (InvestorIndices project) project in
  let* _ := check (Save project) "error while saving project, quitting" in
  ret tt.

(** [SeedInvest]: the seed investment function. *)
Definition SeedInvest (projIndex invIndex : Z) (invAmount : float)
    (invSeed : string) : M unit :=
  let* project := wrapped (preInvestmentCheck projIndex invIndex invAmount invSeed)
                    "error while performing pre investment check" in
  if negb (Stage project =? 1)%Z && negb (Stage project =? 2)%Z then
    fail (errors_New "project stage not at 1, you either have passed the seed stage or project is not at seed stage yet")
  else
  if negb (InvestmentType project =? "munibond")%string then
    fail (errors_New "investment models other than munibonds are not supported right now, quitting")
  else
  if (SeedInvestmentCap project <? invAmount)%float then
    fail (errors_New "you can't invest more than what the seed investment cap permits you to, quitting")
  else
  if (Chain project =? "stellar")%string || (Chain project =? "")%string then
    let project :=
      if (SeedAssetCode project =? "")%string
      then set_SeedAssetCode "SEEDASSET" project else project in
    let* _ := check (call (Call_MunibondInvest invIndex invSeed invAmount
                             projIndex (SeedAssetCode project)
                             (TotalValue project)
                             (SeedInvestmentFactor project) true))
                "error while investing" in
    wrapped (updateAfterInvestment project invAmount invIndex true)
      "couldn't update project after investment"
  else fail (errors_New "other chain investments not supported  yet").

(** [Invest]: the main investment function. *)
Definition Invest (projIndex invIndex : Z) (invAmount : float)
    (invSeed : string) : M unit :=
  let* project := wrapped (preInvestmentCheck projIndex invIndex invAmount invSeed)
                    "pre investment check failed" in
  if negb (InvestmentType project =? "munibond")%string then
    fail (errors_New "other investment models are not supported right now, quitting")
  else
  if (Chain project =? "stellar")%string || (Chain project =? "")%string then
    if negb (Stage project =? 4)%Z then
      if (Stage project =? 1)%Z || (Stage project =? 2)%Z then
        SeedInvest projIndex invIndex invAmount invSeed
      else
        fail (errors_New "project not at stage where it can solicit investment, quitting")
    else
    let* _ := check (call (Call_MunibondInvest invIndex invSeed invAmount
                             projIndex (InvestorAssetCode project)
                             (TotalValue project) 1 false))
                "error while investing" in
    wrapped (updateAfterInvestment project invAmount invIndex false)
      "failed to update project after investment"
  else fail (errors_New "other chain investments not supported right now").

(** [updateProjectAfterAcceptance]: the project once the recipient has
    accepted the investment. *)
Definition updateProjectAfterAcceptance (project : Project) : M unit :=
  let project :=
    set_BalLeft (TotalValue project + SeedMoneyRaised project)%float project in
  let project := set_Stage Stage5_Number project in
  let* _ := check (Save project) "couldn't save project" in
  emit (Go (Task_monitorPaybacks (RecipientIndex project) (Index project))).

(** The waiting loop of [sendRecipientAssets]:
    [for utils.Unix()-startTime < consts.LockInterval { ... }], polling
    the lock every ten seconds.  [None] when [fuel] rounds did not end
    it. *)
Fixpoint sendRecipientAssets_wait (fuel : nat) (startTime projIndex : Z)
    : M (option unit) :=
  match fuel with
  | O => ret None
  | S fuel' =>
      let* now := ask utils_Unix in
      if now - startTime <? LockInterval C then
        let* project := check (ask (fun w => RetrieveProject w projIndex))
                          "Couldn't retrieve project" in
        if negb (Lock project) then ret (Some tt)
        else
          let* _ := Sleep (10 * time_Second) in
          sendRecipientAssets_wait fuel' startTime projIndex
      else ret (Some tt)
  end.

(** [sendRecipientAssets]: waits for the recipient to unlock the project,
    then sets up the escrow, moves the funds and has the debt and payback
    assets issued to the recipient.  [None] when the wait did not end
    within [fuel] rounds. *)
Definition sendRecipientAssets (fuel : nat) (projIndex : Z) : M (option unit) :=
  let* startTime := ask utils_Unix in
  let* _ := check (ask (fun w => RetrieveProject w projIndex))
              "Couldn't retrieve project" in
  let* waited := sendRecipientAssets_wait fuel startTime projIndex in
  match waited with
  | None => ret None
  | Some _ =>
      let* project := check (ask (fun w => RetrieveProject w projIndex))
                        "Couldn't retrieve project" in
      let* recipient :=
        check (ask (fun w => RetrieveRecipient E w (RecipientIndex project)))
          "couldn't retrieve recipienrt" in
      let* recpSeed :=
        check (ret (wallet_DecryptSeed E
                      (EncryptedSeed (Wallet (recp_U recipient)))
                      (LockPwd project)))
          "couldn't decrypt seed" in
      let initEscrow :=
        escrow_InitEscrow (Index project)
          (PublicKey (Wallet (recp_U recipient))) recpSeed in
      let* escrowPubkey :=
        check (fun w => (Ok (InitEscrow_pubkey E w initEscrow,
                             call_error E w initEscrow),
                         log_event initEscrow w))
          "error while initializing issuer" in
      let project := set_EscrowPubkey escrowPubkey project in
      let* _ := check (call (escrow_TransferFundsToEscrow (TotalValue project)
                               (Index project) (EscrowPubkey project)))
                  "could not transfer funds to the escrow, quitting!" in
      let project := set_LockPwd "" project in
      let project :=
        set_DebtAssetCode
          (assets_AssetID E (DebtAssetPrefix C +:+ Metadata project)) project in
      let project :=
        set_PaybackAssetCode
          (assets_AssetID E (PaybackAssetPrefix C +:+ Metadata project))
          project in
      let* _ := check (call (Call_MunibondReceive (RecipientIndex project)
                               projIndex (DebtAssetCode project)
                               (PaybackAssetCode project)
                               (EstimatedAcquisition project) recpSeed
                               (TotalValue project + SeedMoneyRaised project)%float
                               (PaybackPeriod project)))
                  "error while receiving assets from issuer on recipient's end" in
      let* _ := wrapped (updateProjectAfterAcceptance project)
                  "failed to update project after acceptance of asset" in
      ret (Some tt)
  end.

(** The [for pubkey, percentage := range project.InvestorMap] loop of
    [DistributePayments] over the entries in the order [range] gives
    them; the error of a transfer is logged and the loop goes on. *)
Fixpoint DistributePayments_loop (entries : list (string * float))
    (project : Project) (recipientSeed : string) (amountGivenBack : float)
    : M unit :=
  match entries with
  | [] => ret tt
  | (pubkey, percentage) :: rest =>
      let txAmount := (percentage * amountGivenBack)%float in
      let* _ := call (escrow_SendFundsFromEscrow (EscrowPubkey project) pubkey
                        recipientSeed txAmount "returns") in
      DistributePayments_loop rest project recipientSeed amountGivenBack
  end.

(** [DistributePayments]: pays the investors their return out of the
    escrow.  The source builds [errors.Wrap(err, ...)] when the project is
    not found and drops it. *)
Definition DistributePayments (recipientSeed escrowPubkey : string)
    (projIndex : Z) (amount : float) : M unit :=
  let* r := ask (fun w => RetrieveProject w projIndex) in
  let project := fst r in
  if EscrowLock project then
    fail (errors_New "project escrow locked, can't send funds")
  else
  let fixedRate :=
    if negb (InterestRate project =? 0)%float then InterestRate project
    else 0x1.999999999999ap-5%float in
  let amountGivenBack := (fixedRate * amount)%float in
  let* entries := ask (fun w => map_range E w (InvestorMap project)) in
  DistributePayments_loop entries project recipientSeed amountGivenBack.

(** The assignments [Payback] makes to the project it loaded, from
    [project.BalLeft -= (1 - pct) * amount] to the two tests that follow
    them; [now] is [utils.Unix()]. *)
Definition Payback_update (project : Project) (pct amount : float) (now : Z)
    : Project :=
  let project := set_BalLeft (BalLeft project - (1 - pct) * amount)%float project in
  let project := set_AmountOwed (AmountOwed project - amount)%float project in
  let project := set_OwnershipShift (OwnershipShift project + pct)%float project in
  let project := set_DateLastPaid now project in
  let project :=
    if (BalLeft project =? 0)%float then set_Stage 9 project else project in
  if (OwnershipShift project =? 1)%float
  then set_AmountOwed 0%float (set_BalLeft 0%float project) else project.

(** [Payback]: the recipient pays towards the project. *)
Definition Payback (recpIndex projIndex : Z) (assetName : string)
    (amount : float) (recipientSeed : string) : M unit :=
  let* project := check (ask (fun w => RetrieveProject w projIndex))
                    "Couldn't retrieve project" in
  if negb (InvestmentType project =? "munibond")%string then
    fail (errors_New "other investment models are not supported right now, quitting")
  else
  let payback :=
    Call_MunibondPayback recpIndex amount recipientSeed projIndex assetName
      (InvestorIndices project) (TotalValue project) (EscrowPubkey project) in
  let* pct :=
    check (fun w => (Ok (MunibondPayback_pct E w payback,
                         call_error E w payback),
                     log_event payback w))
      "Error while paying back the issuer" in
  let* now := ask utils_Unix in
  let project := Payback_update project pct amount now in
  let* _ := check (Save project) "coudln't save project" in
  wrapped (DistributePayments recipientSeed (EscrowPubkey project) projIndex amount)
    "error while distributing payments".

(** [CoverFirstLoss]: covers the investors' first loss out of the
    guarantor's account. *)
Definition CoverFirstLoss (projIndex entityIndex : Z) (amount : float) : M unit :=
  let* project := check (ask (fun w => RetrieveProject w projIndex))
                    "could not retrieve projects from database, quitting" in
  let* entity := check (ask (fun w => RetrieveEntity E w entityIndex))
                   "could not retrieve entity from database, quitting" in
  if negb (GuarantorIndex project =? U_Index (ent_U entity))%Z then
    fail (errors_New "guarantor index does not match with entity's index in database")
  else
  let amount :=
    if (FirstLossGuaranteeAmt entity <? amount)%float
    then FirstLossGuaranteeAmt entity else amount in
  let* seed :=
    check (ret (wallet_DecryptSeed E (EncryptedSeed (Wallet (ent_U entity)))
                  (FirstLossGuarantee entity)))
      "could not decrypt seed, quitting!" in
  if negb (Mainnet C) then
    let* _ := check (call (assets_SendAsset (StablecoinCode C)
                             (StablecoinPublicKey C) (EscrowPubkey project)
                             amount seed "first loss guarantee"))
                "could not transfer asset to escrow, quitting" in
    ret tt
  else
    let* _ := check (call (assets_SendAsset (AnchorUSDCode C)
                             (AnchorUSDAddress C) (EscrowPubkey project)
                             amount seed "first loss guarantee"))
                "could not transfer asset to escrow, quitting" in
    ret tt.

(** The branch of the escalation chain of [monitorPaybacks] a cycle
    takes. *)
Inductive Band : Type :=
| OnTrack
| GentleReminder
| SternReminder
| Disconnection
| NoBand.

(** The conditions of the [if] / [else if] chain of [monitorPaybacks], in
    the order of the source. *)
Definition on_track (factor : float) : bool := (factor <=? 1)%float.

Definition gentle_band (factor : float) : bool :=
  (NormalThreshold C <? factor)%float && (factor <? AlertThreshold C)%float.

Definition stern_band (factor : float) : bool :=
  (SternAlertThreshold C <=? factor)%float
  && (factor <? DisconnectionThreshold C)%float.

Definition disconnection_band (factor : float) : bool :=
  (DisconnectionThreshold C <=? factor)%float.

(** The chain itself: the first condition that holds decides; [NoBand]
    when none does (the chain has no final [else]). *)
Definition escalation_band (factor : float) : Band :=
  if on_track factor then OnTrack
  else if gentle_band factor then GentleReminder
  else if stern_band factor then SternReminder
  else if disconnection_band factor then Disconnection
  else NoBand.

(** The investors' loop of the stern branch: an investor that cannot be
    retrieved is skipped. *)
Fixpoint monitorPaybacks_stern_loop (indices : list Z) (projIndex : Z)
    : M unit :=
  match indices with
  | [] => ret tt
  | i :: rest =>
      let* r := ask (fun w => RetrieveInvestor E w i) in
      let* _ :=
        match snd r with
        | Some _ => ret tt
        | None =>
            if Notification (inv_U (fst r)) then
              emit (notif_SendSternPaybackAlertEmailI projIndex
                      (Email (inv_U (fst r))))
            else ret tt
        end in
      monitorPaybacks_stern_loop rest projIndex
  end.

(** The investors' loop of the disconnection branch: an investor that
    cannot be retrieved costs a sleep and is skipped. *)
Fixpoint monitorPaybacks_disconnection_loop (indices : list Z) (projIndex : Z)
    : M unit :=
  match indices with
  | [] => ret tt
  | i :: rest =>
      let* r := ask (fun w => RetrieveInvestor E w i) in
      let* _ :=
        match snd r with
        | Some _ => Sleep (OneWeekInSecond C)
        | None =>
            if Notification (inv_U (fst r)) then
              emit (notif_SendDisconnectionEmailI projIndex
                      (Email (inv_U (fst r))))
            else ret tt
        end in
      monitorPaybacks_disconnection_loop rest projIndex
  end.

(** The time since the last payment in payback periods, as one round of
    [monitorPaybacks] computes it from the project it loaded. *)
Definition payback_factor (project : Project) (now : Z) : float :=
  let period :=
    float64_of_Z (wrap64 (PaybackPeriod project * OneWeekInSecond C)) in
  let period := if (period =? 0)%float then 1%float else period in
  let timeElapsed := wrap64 (now - DateLastPaid project) in
  (float64_of_Z timeElapsed / period)%float.

(** The escalation chain of one round, on the records the round loaded
    and the factor it computed.  The result is [true] when the round ends
    by [continue], without the sleep that otherwise closes it. *)
Definition monitorPaybacks_escalate (project : Project) (recipient : Recipient)
    (guarantor : Entity) (factor : float) (projIndex : Z) : M bool :=
  match escalation_band factor with
  | OnTrack => ret false
  | GentleReminder =>
      let* _ := emit (notif_SendNicePaybackAlertEmail projIndex
                        (Email (recp_U recipient))) in
      let* _ := Sleep (OneWeekInSecond C) in
      ret false
  | SternReminder =>
      let* _ := emit (notif_SendSternPaybackAlertEmail projIndex
                        (Email (recp_U recipient))) in
      let* _ := monitorPaybacks_stern_loop (InvestorIndices project)
                  projIndex in
      let* _ := emit (notif_SendSternPaybackAlertEmailG projIndex
                        (Email (ent_U guarantor))) in
      let* _ := Sleep (OneWeekInSecond C) in
      ret false
  | Disconnection =>
      let* _ := monitorPaybacks_disconnection_loop (InvestorIndices project)
                  projIndex in
      let* _ := emit (notif_SendDisconnectionEmailG projIndex
                        (Email (ent_U guarantor))) in
      let* err := catch (CoverFirstLoss (Index project)
                           (U_Index (ent_U guarantor))
                           (AmountOwed project)) in
      match err with
      | Some _ =>
          let* _ := Sleep (OneWeekInSecond C) in
          ret true
      | None => ret false
      end
  | NoBand => ret false
  end.

(** One round of the [for { ... }] loop of [monitorPaybacks].  A record
    that cannot be retrieved costs a sleep and the round goes on with what
    the accessor returned.  The amount owed is accrued on the loaded copy
    of the project only. *)
Definition monitorPaybacks_cycle (recpIndex projIndex : Z) : M unit :=
  let* rp := ask (fun w => RetrieveProject w projIndex) in
  let* _ := match snd rp with
            | Some _ => Sleep (OneWeekInSecond C)
            | None => ret tt
            end in
  let project := fst rp in
  let* rr := ask (fun w => RetrieveRecipient E w recpIndex) in
  let* _ := match snd rr with
            | Some _ => Sleep (OneWeekInSecond C)
            | None => ret tt
            end in
  let recipient := fst rr in
  let* rg := ask (fun w => RetrieveEntity E w (GuarantorIndex project)) in
  let* _ := match snd rg with
            | Some _ => Sleep (OneWeekInSecond C)
            | None => ret tt
            end in
  let guarantor := fst rg in
  let* now := ask utils_Unix in
  let factor := payback_factor project now in
  let* bill := ask (oracle_MonthlyBill E) in
  let project :=
    set_AmountOwed (AmountOwed project + factor * bill)%float project in
  let* skip_sleep :=
    monitorPaybacks_escalate project recipient guarantor factor projIndex in
  if skip_sleep : bool then ret tt else Sleep (OneWeekInSecond C).

(** [monitorPaybacks] run for [n] rounds of its endless loop. *)
Fixpoint monitorPaybacks (n : nat) (recpIndex projIndex : Z) : M unit :=
  match n with
  | O => ret tt
  | S n' =>
      let* _ := monitorPaybacks_cycle recpIndex projIndex in
      monitorPaybacks n' recpIndex projIndex
  end.

End Contract.

(** ** Sequences of calls and what the claims count *)

(** One call of [Invest]. *)
Record Investment : Type := mkInvestment {
  inv_projIndex : Z;
  inv_invIndex : Z;
  inv_invAmount : float;
  inv_invSeed : string
}.

(** The world after a sequence of [Invest] calls, made one after the
    other, whatever each returns. *)
Fixpoint invest_all (C : Consts) (E : Env) (calls : list Investment)
    (w : World) : World :=
  match calls with
  | [] => w
  | c :: rest =>
      invest_all C E rest
        (snd (Invest C E (inv_projIndex c) (inv_invIndex c) (inv_invAmount c)
                (inv_invSeed c) w))
  end.

(** One call of [Payback]. *)
Record Repayment : Type := mkRepayment {
  pay_recpIndex : Z;
  pay_projIndex : Z;
  pay_assetName : string;
  pay_amount : float;
  pay_recipientSeed : string
}.

(** The world after a sequence of [Payback] calls, made one after the
    other, whatever each returns. *)
Fixpoint payback_all (E : Env) (calls : list Repayment) (w : World) : World :=
  match calls with
  | [] => w
  | c :: rest =>
      payback_all E rest
        (snd (Payback E (pay_recpIndex c) (pay_projIndex c) (pay_assetName c)
                (pay_amount c) (pay_recipientSeed c) w))
  end.

(** The fraction [MunibondPayback] reports for a payback towards the
    project [p], as [Payback] calls it. *)
Definition payback_pct (E : Env) (w : World) (p : Project)
    (recpIndex projIndex : Z) (assetName : string) (amount : float)
    (recipientSeed : string) : float :=
  MunibondPayback_pct E w
    (Call_MunibondPayback recpIndex amount recipientSeed projIndex assetName
       (InvestorIndices p) (TotalValue p) (EscrowPubkey p)).

Definition is_pipeline_start (projIndex : Z) (ev : Event) : bool :=
  match ev with
  | Go (Task_sendRecipientAssets i) => (i =? projIndex)%Z
  | _ => false
  end.

(** How many times the escrow-release pipeline of a project was started. *)
Definition pipeline_starts (projIndex : Z) (l : list Event) : nat :=
  length (List.filter (is_pipeline_start projIndex) l).

(** The amounts of the transfers into escrow among some calls. *)
Fixpoint escrow_transfers (l : list Event) : list float :=
  match l with
  | [] => []
  | escrow_TransferFundsToEscrow amount _ _ :: rest =>
      amount :: escrow_transfers rest
  | _ :: rest => escrow_transfers rest
  end.

(** The band a notification or transfer of the payback monitor belongs
    to; [None] for the calls every round may make. *)
Definition event_band (ev : Event) : option Band :=
  match ev with
  | notif_SendNicePaybackAlertEmail _ _ => Some GentleReminder
  | notif_SendSternPaybackAlertEmail _ _
  | notif_SendSternPaybackAlertEmailI _ _
  | notif_SendSternPaybackAlertEmailG _ _ => Some SternReminder
  | notif_SendDisconnectionEmailI _ _
  | notif_SendDisconnectionEmailG _ _
  | assets_SendAsset _ _ _ _ _ _ => Some Disconnection
  | _ => None
  end.

(** The public key of the investor stored under an index. *)
Definition investor_pubkey (E : Env) (w : World) (i : Z) : string :=
  PublicKey (Wallet (inv_U (fst (RetrieveInvestor E w i)))).

(** The share the recomputation records for a public key: the two
    balances the chain reports, 0 for a failed query, over [TotalValue]. *)
Definition recorded_share (E : Env) (w : World) (project : Project)
    (pubkey : string) : float :=
  ((balance_or_zero (xlm_GetAssetBalance E w pubkey (InvestorAssetCode project))
    + balance_or_zero (xlm_GetAssetBalance E w pubkey (SeedAssetCode project)))
   / TotalValue project)%float.

(** The error of the first investor of [indices] that cannot be
    retrieved. *)
Fixpoint retrieval_error (E : Env) (w : World) (indices : list Z)
    : option error :=
  match indices with
  | [] => None
  | i :: rest =>
      match snd (RetrieveInvestor E w i) with
      | Some e => Some e
      | None => retrieval_error E w rest
      end
  end.

(** The investor map after the shares of [indices] were recorded in
    order. *)
Definition recomputed_map (E : Env) (w : World) (project : Project)
    (indices : list Z) (m : gmap string float) : gmap string float :=
  foldl (fun m i => <[investor_pubkey E w i
                      := recorded_share E w project (investor_pubkey E w i)]> m)
    m indices.

(** The collaborators [E] with the balance queries answered by [g]. *)
Definition with_balance (E : Env)
    (g : World → string → string → float * option error) : Env :=
  mkEnv (wallet_ReturnPubkey E) (wallet_DecryptSeed E) (xlm_AccountExists E)
    g (assets_AssetID E) (CanInvest E) (RetrieveInvestor E)
    (RetrieveRecipient E) (RetrieveEntity E) (Save_error E) (call_error E)
    (InitEscrow_pubkey E) (MunibondPayback_pct E) (oracle_MonthlyBill E)
    (map_range E).

(** The transfer [DistributePayments] attempts for one entry of the
    investor map. *)
Definition investor_return (p : Project) (recipientSeed : string)
    (amount : float) (entry : string * float) : Event :=
  let rate :=
    if negb (InterestRate p =? 0)%float then InterestRate p
    else 0x1.999999999999ap-5%float in
  escrow_SendFundsFromEscrow (EscrowPubkey p) (fst entry) recipientSeed
    (snd entry * (rate * amount))%float "returns".

(** A call that may be made in a round of band [b]. *)
Definition in_band (b : Band) (ev : Event) : Prop :=
  event_band ev = None ∨ event_band ev = Some b.

(** [c] only adds calls that satisfy [P] to the trace. *)
Definition emits {A} (P : Event → Prop) (c : M A) : Prop :=
  ∀ w r w', c w = (r, w') → ∃ new, trace w' = trace w ++ new ∧ Forall P new.

(** Neither infinite nor NaN. *)
Definition finite64 (x : float) : bool :=
  match Prim2SF x with
  | S754_zero _ | S754_finite _ _ _ => true
  | _ => false
  end.

(** Not NaN. *)
Definition number64 (x : float) : bool :=
  match Prim2SF x with
  | S754_nan => false
  | _ => true
  end.

(** Every index stores the project of that index. *)
Definition indexed (w : World) : Prop :=
  ∀ k p, projects w !! k = Some p → Index p = k.

(** Every project is stored under its own index and is worth a finite
    amount. *)
Definition well_formed (w : World) : Prop :=
  ∀ k p, projects w !! k = Some p →
         Index p = k ∧ finite64 (TotalValue p) = true.

(** The project stored under [projIndex] has raised its whole value. *)
Definition funded (projIndex : Z) (w : World) : Prop :=
  ∃ p, projects w !! projIndex = Some p
       ∧ (MoneyRaised p =? TotalValue p)%float = true.

Definition is_go (ev : Event) : bool :=
  match ev with
  | Go _ => true
  | _ => false
  end.

Definition no_go (ev : Event) : Prop := is_go ev = false.

(** What is stored under [j], if anything, has index [j] and total value
    [T]. *)
Definition project_slot (j : Z) (T : float) (w : World) : Prop :=
  ∀ p, projects w !! j = Some p → Index p = j ∧ TotalValue p = T.

(** The projects stored under other indices than [j] are the same in [w]
    and [w']. *)
Definition touches_only (j : Z) (w w' : World) : Prop :=
  ∀ k, k ≠ j → projects w' !! k = projects w !! k.

(** [c] stores nothing but under [j], keeps index and total value of
    what is stored there, and only adds calls that satisfy [P]. *)
Definition confined {A} (j : Z) (T : float) (P : Event → Prop) (c : M A)
    : Prop :=
  ∀ w r w', project_slot j T w → c w = (r, w') →
    project_slot j T w' ∧ touches_only j w w'
    ∧ ∃ new, trace w' = trace w ++ new ∧ Forall P new.

(** The values [c] returns from a world in which the slot [j] holds. *)
Definition returns {A} (j : Z) (T : float) (Q : A → Prop) (c : M A) : Prop :=
  ∀ w a w', project_slot j T w → c w = (Ok a, w') → Q a.

(** [c] stays in the slot [j] and starts the pipeline of project [i] at
    most once, and then only for [i = j] and with the project funded when
    it ends. *)
Definition starts_once {A} (i j : Z) (T : float) (c : M A) : Prop :=
  ∀ w r w', project_slot j T w → c w = (r, w') →
    project_slot j T w' ∧ touches_only j w w'
    ∧ ∃ new, trace w' = trace w ++ new
             ∧ (pipeline_starts i new = 0%nat
                ∨ (i = j ∧ pipeline_starts i new = 1%nat ∧ funded j w')).

(** What a sequence of investments keeps true of the starts of the
    pipeline of project [i]. *)
Definition started_at_most_once (i : Z) (w : World) : Prop :=
  well_formed w
  ∧ (pipeline_starts i (trace w) = 0%nat
     ∨ (pipeline_starts i (trace w) = 1%nat ∧ funded i w)).

(** ** A concrete platform for the examples *)

Definition example_consts : Consts :=
  mkConsts "InvestorAssets_" "DebtAssets_" "PaybackAssets_"
    259200 3600000000000 604800000000000 false
    "STABLEUSD" "GSTABLECOIN" "USD" "GANCHOR" 1 2 4 6.

Definition example_user (i : Z) (pubkey : string) : User :=
  mkUser i "user@example.com" true (mkStellarWallet pubkey "ENCRYPTED").

(** Investors 1 and 2 have wallets of their own. *)
Definition example_investor (i : Z) : Investor :=
  mkInvestor
    (example_user i (if (i =? 1)%Z then "GINV1"
                     else if (i =? 2)%Z then "GINV2" else "GINV")).

(** Collaborators that always succeed: every record is found, every call
    goes through; [balance] answers the balance queries, [pct] is the
    ownership fraction the chain reports for a payback, and [range]
    visits a map in the order of [map_to_list]. *)
Definition example_env
    (balance : string → string → float * option error) (pct : float) : Env :=
  mkEnv
    (fun seed => ("G" +:+ seed, None))
    (fun encrypted pwd => ("S" +:+ pwd, None))
    (fun _ _ => true)
    (fun _ => balance)
    (fun s => s)
    (fun _ _ _ => true)
    (fun _ i => (example_investor i, None))
    (fun _ i => (mkRecipient (example_user i "GRECP"), None))
    (fun _ i => (mkEntity (example_user i "GGUAR") "" 500, None))
    (fun _ _ => None)
    (fun _ _ => None)
    (fun _ _ => "GESCROW")
    (fun _ _ => pct)
    (fun _ => 120%float)
    (fun _ m => map_to_list m).

Definition no_balance (pubkey asset : string) : float * option error :=
  (0%float, None).

(** A munibond project on stellar, index 1, worth 1000, at stage 4,
    nothing raised yet. *)
Definition example_project : Project :=
  mkProject 1 4 "metadata" "stellar" "munibond" 1000 0 0 0 0 0 0 0 0 0 0 0
    [] ∅ "" "INVESTORASSET" "" "" false "" "" false 7 9.

Definition world_of (p : Project) : World :=
  mkWorld {[ Index p := p ]} 0 [].

(** A project whose seed round brought a surplus of 100. *)
Definition seeded_project : Project :=
  set_SeedMoneyRaised 100 (set_SeedAssetCode "SEEDASSET" example_project).

(** A project half owned by its recipient, with 1000 left to pay. *)
Definition repaid_project : Project :=
  set_OwnershipShift 0.5 (set_AmountOwed 300 (set_BalLeft 1000
    (set_InvestorMap {[ "GINV1" := 0.75%float; "GINV2" := 0.25%float ]}
       (set_InvestorIndices [1; 2] (set_Stage 5 example_project))))).

(** Balance answers in which the investor-asset query of investor 1
    fails while its seed-asset balance is 100. *)
Definition flaky_balance (pubkey asset : string) : float * option error :=
  if (pubkey =? "GINV1")%string then
    if (asset =? "INVESTORASSET")%string
    then (0%float, Some "horizon: request timed out")
    else (100%float, None)
  else (250%float, None).

(** ** The claims that do not hold, as the specification states them *)

(** The funding-complete trigger fires at most once per project. *)
Definition trigger_fires_once_claim : Prop :=
  ∀ (C : Consts) (E : Env) (i : Z) (calls : list Investment) (w : World),
    well_formed w →
    pipeline_starts i (trace w) = 0%nat →
    (pipeline_starts i (trace (invest_all C E calls w)) ≤ 1)%nat.

(** [Payback] never takes [OwnershipShift] above 1. *)
Definition ownership_saturates_claim : Prop :=
  ∀ (E : Env) (recpIndex projIndex : Z) (assetName : string) (amount : float)
    (recipientSeed : string) (w w' : World) (p p' : Project),
    projects w !! projIndex = Some p →
    (OwnershipShift p <=? 1)%float = true →
    Payback E recpIndex projIndex assetName amount recipientSeed w = (Ok tt, w') →
    projects w' !! projIndex = Some p' →
    (OwnershipShift p' <=? 1)%float = true.

(** After a successful [Payback] the stored project has [OwnershipShift]
    increased by [pct] and [DateLastPaid] set to the current time; it is
    at stage 9 if its [BalLeft] is exactly 0; and if its [OwnershipShift]
    is exactly 1 its [BalLeft] and [AmountOwed] are both 0, and otherwise
    they are decreased by [(1 - pct) * amount] and by [amount]. *)
Definition payback_post_state_claim : Prop :=
  ∀ (E : Env) (recpIndex projIndex : Z) (assetName : string) (amount : float)
    (recipientSeed : string) (w w' : World) (p p' : Project),
    projects w !! projIndex = Some p →
    Payback E recpIndex projIndex assetName amount recipientSeed w = (Ok tt, w') →
    projects w' !! projIndex = Some p' →
    let pct :=
      payback_pct E w p recpIndex projIndex assetName amount recipientSeed in
    OwnershipShift p' = (OwnershipShift p + pct)%float
    ∧ DateLastPaid p' = utils_Unix w
    ∧ ((BalLeft p' =? 0)%float = true → Stage p' = 9)
    ∧ if (OwnershipShift p' =? 1)%float
      then BalLeft p' = 0%float ∧ AmountOwed p' = 0%float
      else BalLeft p' = (BalLeft p - (1 - pct) * amount)%float
           ∧ AmountOwed p' = (AmountOwed p - amount)%float.

(** The pipeline moves [TotalValue + SeedMoneyRaised] into escrow. *)
Definition escrow_gets_seed_surplus_claim : Prop :=
  ∀ (C : Consts) (E : Env) (fuel : nat) (projIndex : Z) (w w' : World)
    (p : Project) (r : result (option unit)) (new : list Event),
    projects w !! projIndex = Some p →
    Lock p = false →
    sendRecipientAssets C E fuel projIndex w = (r, w') →
    trace w' = trace w ++ new →
    Forall (fun amount => amount = (TotalValue p + SeedMoneyRaised p)%float)
      (escrow_transfers new).

(** An investor one of whose balance queries fails is recorded with a
    share of zero. *)
Definition failed_query_zero_share_claim : Prop :=
  ∀ (E : Env) (indices : list Z) (project p' : Project) (w : World) (i : Z),
    updateAfterInvestment_loop E indices project w = (Ok p', w) →
    i ∈ indices →
    snd (xlm_GetAssetBalance E w (investor_pubkey E w i)
           (InvestorAssetCode project)) ≠ None
    ∨ snd (xlm_GetAssetBalance E w (investor_pubkey E w i)
             (SeedAssetCode project)) ≠ None →
    ∃ share, InvestorMap p' !! investor_pubkey E w i = Some share
             ∧ (share =? 0)%float = true.

(** With the thresholds in increasing order, every factor above 1 is in a
    band. *)
Definition bands_cover_claim : Prop :=
  ∀ (C : Consts) (factor : float),
    (NormalThreshold C <=? AlertThreshold C)%float = true →
    (AlertThreshold C <=? SternAlertThreshold C)%float = true →
    (SternAlertThreshold C <=? DisconnectionThreshold C)%float = true →
    (1 <? factor)%float = true →
    escalation_band C factor ≠ NoBand.

(** ** Measuring binary64 numbers

    Finite binary64 numbers are measured in units of [2^-1074], the
    smallest positive one, so that their values are integers. *)

(** The value [m * 2^e] in units of [2^-1074], for [e >= -1074]. *)
Definition scaled (m e : Z) : Z := m * 2 ^ (e + 1074).

(** The value of a zero or finite number in units of [2^-1074]. *)
Definition SFval (x : spec_float) : Z :=
  match x with
  | S754_finite s m e => cond_Zopp s (scaled (Zpos m) e)
  | _ => 0
  end.

(** Zero or finite. *)
Definition SFfinite (x : spec_float) : bool :=
  match x with
  | S754_zero _ | S754_finite _ _ _ => true
  | _ => false
  end.

(** The round or the sticky bit of a shifted mantissa is set. *)
Definition inexact (mrs : shr_record) : bool := shr_r mrs || shr_s mrs.

(** [b] is [a] shifted right by [k] bits: the mantissa is halved [k]
    times, and the bits record whether anything was shifted out. *)
Definition halved (k : Z) (a b : shr_record) : Prop :=
  0 ≤ shr_m a →
  shr_m b = shr_m a / 2 ^ k
  ∧ (inexact b = true → inexact a = true ∨ shr_m a mod 2 ^ k ≠ 0).

(** The shift that brings [m * 2^e] to the exponent of its format. *)
Definition fexp_shift (m e : Z) : Z :=
  Z.max 0 (fexp prec emax (Zdigits2 m + e) - e).

(** The result of [binary_round_aux] for a mantissa [m2] and an exponent
    [e2] it ends with. *)
Definition pack (sx : bool) (m2 e2 : Z) : spec_float :=
  match m2 with
  | Z0 => S754_zero sx
  | Zpos p =>
      if e2 <=? emax - prec then S754_finite sx p e2 else S754_infinity sx
  | Zneg _ => S754_nan
  end.

(** Not NaN. *)
Definition SFnumber (x : spec_float) : bool :=
  match x with
  | S754_nan => false
  | _ => true
  end.

(** Zero, positive or [+inf]. *)
Definition SFnonneg (x : spec_float) : bool :=
  match x with
  | S754_zero _ | S754_finite false _ _ | S754_infinity false => true
  | _ => false
  end.

(** ** The rest of [core/contract.go]: unlocking and payback assets *)

Section Unlock.

Variable E : Env.

(** [ValidateRecipient], declared with the recipients of package [core]:
    the recipient a user name and a password hash belong to. *)
Variable ValidateRecipient : World → string → string → Recipient * option error.

(** [UnlockProject]: the recipient accepts the investment; the password
    of the recipient's seed is left in [LockPwd] for the pipeline that
    waits on the lock. *)
Definition UnlockProject (username pwhash : string) (projIndex : Z)
    (seedpwd : string) : M unit :=
  let* project := check (ask (fun w => RetrieveProject w projIndex))
                    "couldn't retrieve project" in
  let* recipient := check (ask (fun w => ValidateRecipient w username pwhash))
                      "couldn't validate recipient" in
  if negb (U_Index (recp_U recipient) =? RecipientIndex project)%Z then
    fail (errors_New "Recipient Indices don't match, quitting!")
  else
  let* recpSeed :=
    check (ret (wallet_DecryptSeed E
                  (EncryptedSeed (Wallet (recp_U recipient))) seedpwd))
      "error while decrpyting seed" in
  let* checkPubkey := check (ret (wallet_ReturnPubkey E recpSeed))
                        "couldn't get public key from seed" in
  if negb (checkPubkey =? PublicKey (Wallet (recp_U recipient)))%string then
    fail (errors_New "Failed to unlock project")
  else
  if negb (Lock project) then fail (errors_New "Project not locked")
  else
  let project := set_LockPwd seedpwd project in
  let project := set_Lock false project in
  let* _ := check (Save E project) "couldn't save project" in
  ret tt.

End Unlock.

(** [CalculatePayback]: the payback assets to issue for an amount, in
    proportion to the value of the project, over the months of
    [EstimatedAcquisition] years. *)
Definition CalculatePayback (project : Project) (amount : float) : float :=
  (amount / TotalValue project
   * float64_of_Z (wrap64 (EstimatedAcquisition project * 12)))%float.

(** ** What the further properties speak of *)

Definition is_MunibondInvest (ev : Event) : bool :=
  match ev with
  | Call_MunibondInvest _ _ _ _ _ _ _ _ => true
  | _ => false
  end.

Definition is_payout (ev : Event) : bool :=
  match ev with
  | escrow_SendFundsFromEscrow _ _ _ _ _ => true
  | _ => false
  end.

(** The polls of the lock that [sendRecipientAssets] makes on a project
    that stays locked: one every ten seconds while less than
    [LockInterval] seconds have passed. *)
Definition lock_polls (C : Consts) : nat :=
  Z.to_nat ((LockInterval C + 9) / 10).

(** The project [sendRecipientAssets] stores for the project [p] it
    loaded, once the escrow [escrowPubkey] is set up. *)
Definition accepted_project (C : Consts) (E : Env) (p : Project)
    (escrowPubkey : string) : Project :=
  set_Stage Stage5_Number
    (set_BalLeft (TotalValue p + SeedMoneyRaised p)%float
       (set_PaybackAssetCode
          (assets_AssetID E (PaybackAssetPrefix C +:+ Metadata p))
          (set_DebtAssetCode
             (assets_AssetID E (DebtAssetPrefix C +:+ Metadata p))
             (set_LockPwd "" (set_EscrowPubkey escrowPubkey p))))).

(** The seed of the recipient a call of the pipeline carries. *)
Definition recipient_seed_of (ev : Event) : option string :=
  match ev with
  | escrow_InitEscrow _ _ recpSeed => Some recpSeed
  | Call_MunibondReceive _ _ _ _ _ recpSeed _ _ => Some recpSeed
  | _ => None
  end.

Definition is_Sleep (ev : Event) : bool :=
  match ev with
  | time_Sleep _ => true
  | _ => false
  end.

(** The world after [n] polls of the lock, ten seconds apart. *)
Definition after_polls (n : nat) (w : World) : World :=
  mkWorld (projects w) (clock w + Z.of_nat n * (10 * time_Second))
    (trace w ++ replicate n (time_Sleep (10 * time_Second))).

(** What [preInvestmentCheck] has verified of an investment into the
    stored project [p] when it passes: the investor is found and can
    invest the amount, the account of the seed exists, and the amount is
    not above what the project still needs. *)
Definition checked_investment (E : Env) (w : World) (p : Project)
    (invIndex : Z) (invAmount : float) (seed : string) : Prop :=
  snd (RetrieveInvestor E w invIndex) = None
  ∧ CanInvest E w (fst (RetrieveInvestor E w invIndex)) invAmount = true
  ∧ snd (wallet_ReturnPubkey E seed) = None
  ∧ xlm_AccountExists E w (fst (wallet_ReturnPubkey E seed)) = true
  ∧ (TotalValue p - MoneyRaised p <? invAmount)%float = false.

(** [q] is [p] but for its asset codes. *)
Definition same_accounts (p q : Project) : Prop :=
  Index q = Index p ∧ Stage q = Stage p
  ∧ InvestmentType q = InvestmentType p ∧ Chain q = Chain p
  ∧ TotalValue q = TotalValue p ∧ MoneyRaised q = MoneyRaised p
  ∧ SeedMoneyRaised q = SeedMoneyRaised p
  ∧ SeedInvestmentFactor q = SeedInvestmentFactor p
  ∧ SeedInvestmentCap q = SeedInvestmentCap p
  ∧ InvestorIndices q = InvestorIndices p
  ∧ Lock q = Lock p.

(** The accounts of [p'] are those of [p] after an investment of
    [invAmount] by [invIndex]: the amount is added to [MoneyRaised], the
    seed surplus to [SeedMoneyRaised] for a seed investment, the investor
    is appended to [InvestorIndices] (once more if already there), and
    the project is locked when the amount completes the funding. *)
Definition investment_recorded (p p' : Project) (invIndex : Z)
    (invAmount : float) (seed : bool) : Prop :=
  MoneyRaised p' = (MoneyRaised p + invAmount)%float
  ∧ InvestorIndices p' = InvestorIndices p ++ [invIndex]
  ∧ SeedMoneyRaised p'
    = (if seed
       then SeedMoneyRaised p + invAmount * (SeedInvestmentFactor p - 1)
       else SeedMoneyRaised p)%float
  ∧ Lock p'
    = (if ((MoneyRaised p + invAmount)%float =? TotalValue p)%float
       then true else Lock p)
  ∧ Index p' = Index p ∧ Stage p' = Stage p ∧ TotalValue p' = TotalValue p.

(** A recipient store for the examples: every user name and hash belong
    to the recipient 7, whose wallet is the one the seed password
    [RECPSEED] opens. *)
Definition example_validate (w : World) (username pwhash : string)
    : Recipient * option error :=
  (mkRecipient (example_user 7 "GSRECPSEED"), None).

(** The example project fully funded and waiting for its recipient. *)
Definition locked_project : Project :=
  set_Lock true (set_MoneyRaised 1000 example_project).

(** ** Authorisation, votes and waterfall accounts

    [RecipientAuthorize], [VoteTowardsProposedProject] and
    [addWaterfallAccount] read and write fields of the stored records
    that the functions above leave alone.  Here a record is the record
    above together with those fields, and the state is the project bucket
    with the calls made on the rest of package [core]. *)

(** A project with [Votes], [WaterfallMap] ([None] for a [nil] map) and
    [OriginatorIndex]. *)
Record FullProject : Type := mkFullProject {
  base : Project;
  Votes : float;
  WaterfallMap : option (gmap string float);
  OriginatorIndex : Z
}.

(** An entity with the [Kyc] and [Banned] flags of its user. *)
Record FullEntity : Type := mkFullEntity {
  ent_base : Entity;
  Kyc : bool;
  Banned : bool
}.

(** An investor with its [VotingBalance]. *)
Record FullInvestor : Type := mkFullInvestor {
  inv_base : Investor;
  VotingBalance : float
}.

(** The calls on methods and functions of package [core] that are
    declared outside [core/contract.go], with the record a method is
    called on. *)
Inductive CoreCall : Type :=
| project_SetStage (project : FullProject) (stage : Z)
| Call_RepOriginatedProject (origIndex projIndex : Z)
| investor_ChangeVotingBalance (inv : FullInvestor) (votes : float).

Record Ledger : Type := mkLedger {
  full_projects : gmap Z FullProject;
  core_calls : list CoreCall
}.

(** The collaborators of the three functions. *)
Record Registry : Type := mkRegistry {
  reg_RetrieveEntity : Ledger → Z → FullEntity * option error;
  reg_RetrieveRecipient : Ledger → Z → Recipient * option error;
  reg_RetrieveInvestor : Ledger → Z → FullInvestor * option error;
  (** the error of [project.Save()] *)
  reg_Save_error : Ledger → FullProject → option error;
  (** [project.SetStage(n)], a method with a pointer receiver: the
      project as the method leaves it, the bucket as it leaves it, and
      its error *)
  reg_SetStage : Ledger → FullProject → Z
                 → FullProject * gmap Z FullProject * option error;
  (** the error of the other calls *)
  reg_call_error : Ledger → CoreCall → option error
}.

Definition zeroFullProject : FullProject :=
  mkFullProject zeroProject 0 None 0.

(** [RetrieveProject] on the full records: as [RetrieveProject] above. *)
Definition RetrieveFullProject (l : Ledger) (key : Z)
    : FullProject * option error :=
  match full_projects l !! key with
  | Some p => (p, None)
  | None => (zeroFullProject,
             Some (errors_New "error while retrieving key from bucket"))
  end.

Section Registry.

Variable R : Registry.

(** [project.Save()] on the full records: as [Save] above. *)
Definition SaveFull (p : FullProject) (l : Ledger) : option error * Ledger :=
  match reg_Save_error R l p with
  | None => (None, mkLedger (<[Index (base p) := p]> (full_projects l))
                     (core_calls l))
  | Some e => (Some e, l)
  end.

(** [VerifyBeforeAuthorizing]: is the originator of the project known
    and in good standing. *)
Definition VerifyBeforeAuthorizing (projIndex : Z) (l : Ledger) : bool :=
  match RetrieveFullProject l projIndex with
  | (_, Some _) => false
  | (project, None) =>
      match reg_RetrieveEntity R l (OriginatorIndex project) with
      | (_, Some _) => false
      | (originator, None) =>
          if Kyc originator && negb (Banned originator) then true else false
      end
  end.

(** [RecipientAuthorize]: the recipient authorises a proposed project. *)
Definition RecipientAuthorize (projIndex recpIndex : Z) (l : Ledger)
    : option error * Ledger :=
  match RetrieveFullProject l projIndex with
  | (_, Some e) => (errors_Wrap (Some e) "couldn't retrieve project", l)
  | (project, None) =>
      if negb (Stage (base project) =? 0)%Z then
        (Some (errors_New "Project stage not zero"), l)
      else if negb (VerifyBeforeAuthorizing projIndex l) then
        (Some (errors_New "Originator not verified"), l)
      else
        match reg_RetrieveRecipient R l recpIndex with
        | (_, Some e) => (errors_Wrap (Some e) "couldn't retrieve recipient", l)
        | (recipient, None) =>
            if negb (RecipientIndex (base project)
                     =? U_Index (recp_U recipient))%Z then
              (Some (errors_New
                       "You can't authorize a project which is not assigned to you!"),
               l)
            else
              let setStage := project_SetStage project 1 in
              let '(project, bucket, err) := reg_SetStage R l project 1 in
              let l := mkLedger bucket (core_calls l ++ [setStage]) in
              match err with
              | Some e =>
                  (errors_Wrap (Some e) "Error while setting origin project", l)
              | None =>
                  let rep :=
                    Call_RepOriginatedProject (OriginatorIndex project)
                      (Index (base project)) in
                  (errors_Wrap (reg_call_error R l rep)
                     "error while increasing reputation of originator",
                   mkLedger (full_projects l) (core_calls l ++ [rep]))
              end
        end
  end.

(** [VoteTowardsProposedProject]: an investor votes for a project that
    is open for voting. *)
Definition VoteTowardsProposedProject (invIndex : Z) (votes : float)
    (projectIndex : Z) (l : Ledger) : option error * Ledger :=
  match reg_RetrieveInvestor R l invIndex with
  | (_, Some e) => (errors_Wrap (Some e) "couldn't retrieve investor", l)
  | (inv, None) =>
      if (VotingBalance inv <? votes)%float then
        (Some (errors_New
                 "Can't vote with an amount greater than available balance"),
         l)
      else
        match RetrieveFullProject l projectIndex with
        | (_, Some e) => (errors_Wrap (Some e) "couldn't retrieve project", l)
        | (project, None) =>
            if negb (Stage (base project) =? 2)%Z then
              (Some (errors_New
                       "You can't vote for a project with stage not equal to 2"),
               l)
            else
              let project :=
                mkFullProject (base project) (Votes project + votes)%float
                  (WaterfallMap project) (OriginatorIndex project) in
              match SaveFull project l with
              | (Some e, l) => (errors_Wrap (Some e) "couldn't save project", l)
              | (None, l) =>
                  let change :=
                    investor_ChangeVotingBalance inv votes in
                  (errors_Wrap (reg_call_error R l change)
                     "error while deducitng voting balance of investor",
                   mkLedger (full_projects l) (core_calls l ++ [change]))
              end
        end
  end.

(** [addWaterfallAccount]: adds an account the recipient must pay back
    towards.  A [nil] map is replaced by an empty one first. *)
Definition addWaterfallAccount (projIndex : Z) (pubkey : string)
    (amount : float) (l : Ledger) : option error * Ledger :=
  match RetrieveFullProject l projIndex with
  | (_, Some e) =>
      (errors_Wrap (Some e) "could not retrieve project, quitting", l)
  | (project, None) =>
      let accounts :=
        match WaterfallMap project with
        | None => ∅
        | Some m => m
        end in
      SaveFull
        (mkFullProject (base project) (Votes project)
           (Some (<[pubkey := amount]> accounts)) (OriginatorIndex project))
        l
  end.

End Registry.

(** ** The RPC layer (package [rpc]): the callers of the contract

    The handlers of [/recipient/payback] and [/investor/invest], with the
    helpers that validate their requests.  What a handler does with the
    response writer is the list of the [erpc] calls it makes on it. *)

(** [url.Values], the result of [r.URL.Query()]: the values of every
    parameter of the request; [None] stands for a [nil] map. *)
Definition Values : Type := option (gmap string (list string)).

(** [r.URL.Query()[key]]: [None] for the [nil] slice of a missing key. *)
Definition query (q : Values) (key : string) : option (list string) :=
  match q with
  | None => None
  | Some m => m !! key
  end.

(** [r.URL.Query()[key] == nil]. *)
Definition missing (q : Values) (key : string) : bool :=
  match query q key with
  | None => true
  | Some _ => false
  end.

(** How a Go function ends: it returns, or it panics. *)
Inductive outcome (A : Type) : Type :=
| Returned (a : A)
| Panicked.
Arguments Returned {A} a.
Arguments Panicked {A}.

Definition obind {A B} (o : outcome A) (k : A → outcome B) : outcome B :=
  match o with
  | Returned a => k a
  | Panicked => Panicked
  end.

Notation "'let!' x ':=' o 'in' k" := (obind o (fun x => k))
  (at level 10, x pattern, o at level 100, k at level 200).

(** [r.URL.Query()[key][0]]: panics on an index out of range. *)
Definition first_value (q : Values) (key : string) : outcome string :=
  match query q key with
  | Some (v :: _) => Returned v
  | _ => Panicked
  end.

Definition zeroUser : User := mkUser 0 "" false (mkStellarWallet "" "").

(** The body that [RecpValidateHelper] and [InvValidateHelper] share:
    they differ in the record they return ([zero] is its zero value) and
    in the function of package [core] that validates the credentials. *)
Definition ValidateHelper {A} (zero : A)
    (validate : World → string → string → A * option error)
    (q : Values) (options : list string) (w : World)
    : outcome (A * option error) :=
  match q with
  | None => Returned (zero, Some (errors_New "url query can't be empty"))
  | Some _ =>
      let options := options ++ ["username"; "pwhash"] in
      match find (missing q) options with
      | Some option =>
          Returned (zero,
                    Some (errors_New ("required param: " +:+ option
                                      +:+ "not specified, quitting")))
      | None =>
          let! pwhash := first_value q "pwhash" in
          if negb (Z.of_nat (String.length pwhash) =? 128)%Z then
            Returned (zero, Some (errors_New "pwhash length not 128, quitting"))
          else
            let! username := first_value q "username" in
            let! pwhash := first_value q "pwhash" in
            Returned (validate w username pwhash)
      end
  end.

(** [RecpValidateHelper]: validates the recipient behind a request. *)
Definition RecpValidateHelper
    (ValidateRecipient : World → string → string → Recipient * option error)
    : Values → list string → World → outcome (Recipient * option error) :=
  ValidateHelper (mkRecipient zeroUser) ValidateRecipient.

(** [InvValidateHelper]: validates the investor behind a request. *)
Definition InvValidateHelper
    (ValidateInvestor : World → string → string → Investor * option error)
    : Values → list string → World → outcome (Investor * option error) :=
  ValidateHelper (mkInvestor zeroUser) ValidateInvestor.

(** The status a handler answers with. *)
Inductive Status : Type :=
| StatusOK
| StatusBadRequest
| StatusUnauthorized
| StatusNotFound
| StatusInternalServerError.

(** The calls of a handler on package [erpc]. *)
Inductive RpcCall : Type :=
| erpc_CheckGet
| erpc_CheckOrigin
| erpc_ResponseHandler (status : Status).

(** The collaborators of the handlers besides those of the contract. *)
Record Server : Type := mkServer {
  core_ValidateRecipient : World → string → string → Recipient * option error;
  core_ValidateInvestor : World → string → string → Investor * option error;
  utils_ToInt : string → Z * option error;
  utils_ToFloat : string → float * option error
}.

Section Handlers.

Variable C : Consts.
Variable E : Env.
Variable S : Server.

(** The handler of [RecpRPC[4]], [/recipient/payback], for a request
    with the parameters [q]: the calls on the response and the world it
    leaves. *)
Definition payback (q : Values) (w : World)
    : outcome (list RpcCall * World) :=
  let checks := [erpc_CheckGet; erpc_CheckOrigin] in
  let respond status w :=
    Returned (checks ++ [erpc_ResponseHandler status], w) in
  let! validated :=
    RecpValidateHelper (core_ValidateRecipient S) q
      ["assetName"; "amount"; "seedpwd"; "projIndex"] w in
  match validated with
  | (_, Some _) => respond StatusUnauthorized w
  | (prepRecipient, None) =>
      let recpIndex := U_Index (recp_U prepRecipient) in
      let! projIndexText := first_value q "projIndex" in
      match utils_ToInt S projIndexText with
      | (_, Some _) => respond StatusBadRequest w
      | (projIndex, None) =>
          let! assetName := first_value q "assetName" in
          let! seedpwd := first_value q "seedpwd" in
          let! amountText := first_value q "amount" in
          match utils_ToFloat S amountText with
          | (_, Some _) => respond StatusBadRequest w
          | (amount, None) =>
              match wallet_DecryptSeed E
                      (EncryptedSeed (Wallet (recp_U prepRecipient))) seedpwd
              with
              | (_, Some _) => respond StatusBadRequest w
              | (recipientSeed, None) =>
                  match Payback E recpIndex projIndex assetName amount
                          recipientSeed w with
                  | (Err _, w') => respond StatusInternalServerError w'
                  | (Ok _, w') => respond StatusOK w'
                  end
              end
          end
      end
  end.

(** The handler of [InvRPC[4]], [/investor/invest]. *)
Definition invest (q : Values) (w : World)
    : outcome (list RpcCall * World) :=
  let respond status w :=
    Returned ([erpc_CheckGet; erpc_ResponseHandler status], w) in
  let! validated :=
    InvValidateHelper (core_ValidateInvestor S) q
      ["seedpwd"; "projIndex"; "amount"] w in
  match validated with
  | (_, Some _) => respond StatusBadRequest w
  | (investor, None) =>
      let! seedpwd := first_value q "seedpwd" in
      match wallet_DecryptSeed E
              (EncryptedSeed (Wallet (inv_U investor))) seedpwd with
      | (_, Some _) => respond StatusBadRequest w
      | (investorSeed, None) =>
          let! projIndexText := first_value q "projIndex" in
          match utils_ToInt S projIndexText with
          | (_, Some _) => respond StatusBadRequest w
          | (projIndex, None) =>
              let! amountText := first_value q "amount" in
              match utils_ToFloat S amountText with
              | (_, Some _) => respond StatusBadRequest w
              | (amount, None) =>
                  match wallet_ReturnPubkey E investorSeed with
                  | (_, Some _) => respond StatusBadRequest w
                  | (investorPubkey, None) =>
                      if negb (xlm_AccountExists E w investorPubkey) then
                        respond StatusNotFound w
                      else
                        match Invest C E projIndex (U_Index (inv_U investor))
                                amount investorSeed w with
                        | (Err _, w') => respond StatusNotFound w'
                        | (Ok _, w') => respond StatusOK w'
                        end
                  end
              end
          end
      end
  end.

End Handlers.

(** ** Further examples *)

(** The example project before its first investment: no asset code
    yet. *)
Definition fresh_project : Project := set_InvestorAssetCode "" example_project.

(** The example project on a chain that is not supported. *)
Definition algorand_project : Project :=
  mkProject 1 4 "metadata" "algorand" "munibond" 1000 0 0 0 0 0 0 0 0 0 0 0
    [] ∅ "" "INVESTORASSET" "" "" false "" "" false 7 9.

(** The project half owned by its recipient, with its escrow locked. *)
Definition escrow_locked_project : Project :=
  mkProject 1 5 "metadata" "stellar" "munibond" 1000 1000 0 0 0 0 1000 300
    0.5 0 0 0 [1; 2] {[ "GINV1" := 0.75%float; "GINV2" := 0.25%float ]}
    "" "INVESTORASSET" "" "" false "" "GESCROW" true 7 9.

(** The example constants with a lock interval of 25 seconds. *)
Definition short_lock_consts : Consts :=
  mkConsts "InvestorAssets_" "DebtAssets_" "PaybackAssets_"
    25 3600000000000 604800000000000 false
    "STABLEUSD" "GSTABLECOIN" "USD" "GANCHOR" 1 2 4 6.

(** A proposed project, open for voting, with its originator 3. *)
Definition proposed_project : FullProject :=
  mkFullProject (set_Stage 0 example_project) 10 None 3.

Definition voting_project : FullProject :=
  mkFullProject (set_Stage 2 example_project) 10 None 3.

Definition ledger_of (p : FullProject) : Ledger :=
  mkLedger {[ Index (base p) := p ]} [].

(** A registry in which every record is found and every call succeeds;
    entities have passed KYC, investors hold 100 votes, and [SetStage]
    stores the project at the new stage. *)
Definition example_registry : Registry :=
  mkRegistry
    (fun _ i => (mkFullEntity (mkEntity (example_user i "GORIG") "" 0)
                   true false, None))
    (fun _ i => (mkRecipient (example_user i "GRECP"), None))
    (fun _ i => (mkFullInvestor (example_investor i) 100, None))
    (fun _ _ => None)
    (fun l p n =>
       let p' := mkFullProject (set_Stage n (base p)) (Votes p)
                   (WaterfallMap p) (OriginatorIndex p) in
       (p', <[Index (base p) := p']> (full_projects l), None))
    (fun _ _ => None).

(** A password hash of 128 bytes. *)
Definition example_pwhash : string :=
  String.concat "" (repeat "a" 128).

(** A server that knows the recipient 7 and the investor 1, and parses
    the numbers of the example requests. *)
Definition example_server : Server :=
  mkServer
    example_validate
    (fun _ _ _ => (example_investor 1, None))
    (fun s => if (s =? "1")%string then (1, None)
              else (0, Some "strconv.Atoi: invalid syntax"))
    (fun s => if (s =? "100")%string then (100%float, None)
              else (0%float, Some "strconv.ParseFloat: invalid syntax")).

(** A payback request of the recipient for 100 towards project 1. *)
Definition payback_request : Values :=
  Some {[ "username" := ["recipient"]; "pwhash" := [example_pwhash];
          "assetName" := ["PAYBACKASSET"]; "amount" := ["100"];
          "seedpwd" := ["RECPSEED"]; "projIndex" := ["1"] ]}.

(** An investment request for 100 into project 1. *)
Definition invest_request : Values :=
  Some {[ "username" := ["investor"]; "pwhash" := [example_pwhash];
          "amount" := ["100"]; "seedpwd" := ["INVSEED"];
          "projIndex" := ["1"] ]}.

(** The example project with an acquisition period of five years. *)
Definition five_year_project : Project :=
  mkProject 1 4 "metadata" "stellar" "munibond" 1000 0 0 0 0 0 0 0 0 0 0 5
    [] ∅ "" "INVESTORASSET" "" "" false "" "" false 7 9.

(** A payback request that does not say how much is paid. *)
Definition payback_request_without_amount : Values :=
  Some {[ "username" := ["recipient"]; "pwhash" := [example_pwhash];
          "assetName" := ["PAYBACKASSET"];
          "seedpwd" := ["RECPSEED"]; "projIndex" := ["1"] ]}.

(** * Facts about binary64 comparisons *)

(** Swapping the arguments of a comparison swaps its outcome. *)
Lemma SFcompare_swap x y :
  SFcompare y x = option_map CompOpp (SFcompare x y).
Proof.
  destruct x as [sx|sx| |sx mx ex], y as [sy|sy| |sy my ey]; simpl;
    try (destruct sx; try destruct sy; reflexivity);
    try (destruct sy; reflexivity); try reflexivity.
  pose proof (Pos.compare_cont_antisym mx my Eq) as Hm. simpl in Hm.
  destruct sx, sy; simpl; try reflexivity.
  - rewrite (Z.compare_antisym ex ey).
    destruct (ex ?= ey)%Z; simpl; try reflexivity.
    rewrite <- Hm. by destruct (Pos.compare_cont Eq mx my).
  - rewrite (Z.compare_antisym ex ey).
    destruct (ex ?= ey)%Z; simpl; try reflexivity.
    by rewrite <- Hm.
Qed.

Lemma float_ltb_irrefl x : (x <? x)%float = false.
Proof.
  rewrite FloatAxioms.ltb_spec. unfold SFltb.
  pose proof (SFcompare_swap (Prim2SF x) (Prim2SF x)) as H.
  destruct (SFcompare (Prim2SF x) (Prim2SF x)) as [[]|]; simpl in H; congruence.
Qed.

Lemma float_ltb_asym x y : (x <? y)%float = true → (y <? x)%float = false.
Proof.
  rewrite !FloatAxioms.ltb_spec. unfold SFltb.
  rewrite (SFcompare_swap (Prim2SF x) (Prim2SF y)).
  by destruct (SFcompare (Prim2SF x) (Prim2SF y)) as [[]|].
Qed.

Lemma float_ltb_not_leb x y : (x <? y)%float = true → (y <=? x)%float = false.
Proof.
  rewrite FloatAxioms.ltb_spec, FloatAxioms.leb_spec. unfold SFltb, SFleb.
  rewrite (SFcompare_swap (Prim2SF x) (Prim2SF y)).
  by destruct (SFcompare (Prim2SF x) (Prim2SF y)) as [[]|].
Qed.

Lemma float_leb_not_ltb x y : (x <=? y)%float = true → (y <? x)%float = false.
Proof.
  rewrite FloatAxioms.ltb_spec, FloatAxioms.leb_spec. unfold SFltb, SFleb.
  rewrite (SFcompare_swap (Prim2SF x) (Prim2SF y)).
  by destruct (SFcompare (Prim2SF x) (Prim2SF y)) as [[]|].
Qed.

(** A zero compares like any other zero. *)
Lemma SFltb_zero_sign s y : SFltb (S754_zero s) y = SFltb (S754_zero false) y.
Proof. by destruct y. Qed.

(** Finite values that compare equal are the same number. *)
Lemma SFeqb_finite s m e s0 m0 e0 :
  SFeqb (S754_finite s m e) (S754_finite s0 m0 e0) = true →
  s = s0 ∧ m = m0 ∧ e = e0.
Proof.
  unfold SFeqb, SFcompare.
  destruct s, s0; try discriminate;
    destruct (Z.compare_spec e e0) as [->| |]; try discriminate;
    destruct (Pos.compare_cont Eq m m0) eqn:Hm; try discriminate;
    apply Pos.compare_eq in Hm as ->; done.
Qed.

Lemma SFsub_self s m e :
  SF64sub (S754_finite s m e) (S754_finite s m e) = S754_zero false.
Proof. unfold SF64sub, SFsub. rewrite Z.sub_diag. reflexivity. Qed.

(** Once [M] equals a finite [T], the gap [T - M] is a zero, and every
    amount above 0 is above the gap. *)
Lemma float_funded_gap T M a :
  finite64 T = true → (M =? T)%float = true → (0 <? a)%float = true →
  (T - M <? a)%float = true.
Proof.
  unfold finite64.
  rewrite FloatAxioms.eqb_spec, !FloatAxioms.ltb_spec, FloatAxioms.sub_spec.
  change (Prim2SF 0) with (S754_zero false).
  destruct (Prim2SF T) as [s| | |s m e], (Prim2SF M) as [s0|s0| |s0 m0 e0];
    intros Hf Heq Ha; try discriminate Hf;
    try (destruct s0; discriminate Heq); try discriminate Heq.
  - destruct s, s0; simpl; by rewrite ?SFltb_zero_sign.
  - destruct s; discriminate Heq.
  - apply SFeqb_finite in Heq as (-> & -> & ->).
    by rewrite SFsub_self.
Qed.

(** * Rounding in binary64

    The sum and the difference of two finite binary64 numbers are their
    exact sum and difference rounded to the nearest binary64 number.
    What is needed of this here is that rounding keeps the order with
    the binary64 numbers themselves: the rounded value of [v] is not
    below a binary64 number that is not above [v], and not above one that
    is not below [v].  Finite values are measured in units of [2^-1074],
    the smallest positive binary64 number, so that they are integers. *)

Lemma scaled_pos m e : 0 < m → -1074 ≤ e → 0 < scaled m e.
Proof.
  intros Hm He. unfold scaled. apply Z.mul_pos_pos; [done|].
  apply Z.pow_pos_nonneg; lia.
Qed.

Lemma digits2_pos_bounds p :
  2 ^ (Zpos (digits2_pos p) - 1) ≤ Zpos p < 2 ^ Zpos (digits2_pos p).
Proof.
  induction p as [p IH|p IH|]; cbn [digits2_pos].
  - rewrite Pos2Z.inj_succ, Z.pow_succ_r by lia.
    replace (Z.succ (Zpos (digits2_pos p)) - 1)
      with (Z.succ (Zpos (digits2_pos p) - 1)) by lia.
    rewrite Z.pow_succ_r by lia. lia.
  - rewrite Pos2Z.inj_succ, Z.pow_succ_r by lia.
    replace (Z.succ (Zpos (digits2_pos p)) - 1)
      with (Z.succ (Zpos (digits2_pos p) - 1)) by lia.
    rewrite Z.pow_succ_r by lia. lia.
  - cbn. lia.
Qed.

(** What validity says of a finite number: its exponent is in range, its
    mantissa has at most 53 bits, and exactly 53 unless the exponent is
    the least one. *)
Lemma bounded_inv m e :
  bounded prec emax m e = true →
  -1074 ≤ e ≤ 971
  ∧ Zpos (digits2_pos m) ≤ 53
  ∧ (-1074 < e → Zpos (digits2_pos m) = 53).
Proof.
  unfold bounded, canonical_mantissa, fexp, emin, prec, emax.
  intros [H1 H2]%andb_true_iff.
  apply Z.eqb_eq in H1. apply Z.leb_le in H2. lia.
Qed.

(** Among valid numbers a smaller exponent is a smaller value. *)
Lemma scaled_lt_of_exponent_lt m1 e1 m2 e2 :
  bounded prec emax m1 e1 = true → bounded prec emax m2 e2 = true →
  e1 < e2 → scaled (Zpos m1) e1 < scaled (Zpos m2) e2.
Proof.
  intros (He1 & Hd1 & _)%bounded_inv (He2 & _ & Hd2)%bounded_inv Hlt.
  pose proof (digits2_pos_bounds m1) as [_ Hm1].
  pose proof (digits2_pos_bounds m2) as [Hm2 _].
  rewrite Hd2 in Hm2 by lia. change (2 ^ (53 - 1)) with (2 ^ 52) in Hm2.
  assert (Zpos m1 < 2 ^ 53).
  { eapply Z.lt_le_trans; [exact Hm1|]. apply Z.pow_le_mono_r; lia. }
  unfold scaled.
  apply Z.lt_le_trans with (2 ^ 53 * 2 ^ (e1 + 1074)).
  { apply Z.mul_lt_mono_pos_r; [apply Z.pow_pos_nonneg|]; lia. }
  apply Z.le_trans with (2 ^ 52 * 2 ^ (e2 + 1074)).
  { rewrite <- !Z.pow_add_r by lia. apply Z.pow_le_mono_r; lia. }
  apply Z.mul_le_mono_nonneg_r; [apply Z.pow_nonneg|]; lia.
Qed.

(** On valid zero or finite numbers the comparison of binary64 is the
    comparison of the values. *)
Lemma SFcompare_SFval x y :
  valid_binary x = true → valid_binary y = true →
  SFfinite x = true → SFfinite y = true →
  SFcompare x y = Some (SFval x ?= SFval y).
Proof.
  destruct x as [sx| | |sx mx ex], y as [sy| | |sy my ey]; try discriminate;
    cbn [valid_binary SFfinite SFcompare SFval]; intros Hx Hy _ _.
  - done.
  - pose proof (bounded_inv _ _ Hy) as (Hey & _).
    pose proof (scaled_pos (Zpos my) ey ltac:(lia) ltac:(lia)).
    destruct sy; cbn [cond_Zopp]; f_equal; symmetry;
      [apply Z.compare_gt_iff|apply Z.compare_lt_iff]; lia.
  - pose proof (bounded_inv _ _ Hx) as (Hex & _).
    pose proof (scaled_pos (Zpos mx) ex ltac:(lia) ltac:(lia)).
    destruct sx; cbn [cond_Zopp]; f_equal; symmetry;
      [apply Z.compare_lt_iff|apply Z.compare_gt_iff]; lia.
  - pose proof (bounded_inv _ _ Hx) as (Hex & _).
    pose proof (bounded_inv _ _ Hy) as (Hey & _).
    pose proof (scaled_pos (Zpos mx) ex ltac:(lia) ltac:(lia)).
    pose proof (scaled_pos (Zpos my) ey ltac:(lia) ltac:(lia)).
    assert (Hscale : 0 < 2 ^ (ex + 1074)).
    { apply Z.pow_pos_nonneg; lia. }
    f_equal. destruct sx, sy; cbn [cond_Zopp].
    + (* both negative *)
      rewrite Z.compare_opp.
      destruct (Z.compare_spec ex ey) as [->|Hlt|Hgt].
      * unfold scaled. rewrite <- Zmult_compare_compat_r by lia.
        symmetry. apply (Pos.compare_antisym mx my).
      * symmetry. apply Z.compare_gt_iff.
        by apply scaled_lt_of_exponent_lt.
      * symmetry. apply Z.compare_lt_iff.
        apply scaled_lt_of_exponent_lt; [done..|lia].
    + symmetry. apply Z.compare_lt_iff. lia.
    + symmetry. apply Z.compare_gt_iff. lia.
    + destruct (Z.compare_spec ex ey) as [->|Hlt|Hgt].
      * unfold scaled. rewrite <- Zmult_compare_compat_r by lia. reflexivity.
      * symmetry. apply Z.compare_lt_iff.
        by apply scaled_lt_of_exponent_lt.
      * symmetry. apply Z.compare_gt_iff.
        apply scaled_lt_of_exponent_lt; [done..|lia].
Qed.

(** ** Shifting a mantissa to the right *)

Lemma halved_shr_1 mrs : halved 1 mrs (shr_1 mrs).
Proof.
  destruct mrs as [m r s]. intros Hm. cbn [shr_m] in Hm.
  change (2 ^ 1) with 2.
  destruct m as [|[p|p|]|]; unfold inexact; cbn [shr_1 shr_m shr_r shr_s orb];
    [..|lia].
  - split; [done|]. auto.
  - split.
    + apply Z.div_unique with 1; lia.
    + intros _. right. rewrite <- (Z.mod_unique (Zpos p~1) 2 (Zpos p) 1); lia.
  - split.
    + apply Z.div_unique with 0; lia.
    + auto.
  - split; [done|]. intros _. right. done.
Qed.

Lemma halved_compose a b x y z :
  0 ≤ a → 0 ≤ b → halved a x y → halved b y z → halved (a + b) x z.
Proof.
  intros Ha Hb Hxy Hyz Hx.
  destruct (Hxy Hx) as [Hy Hiy].
  assert (H2a : 0 < 2 ^ a) by (apply Z.pow_pos_nonneg; lia).
  assert (H2b : 0 < 2 ^ b) by (apply Z.pow_pos_nonneg; lia).
  assert (Hy0 : 0 ≤ shr_m y) by (rewrite Hy; apply Z.div_pos; lia).
  destruct (Hyz Hy0) as [Hz Hiz].
  rewrite Z.pow_add_r by done. split.
  - rewrite Hz, Hy. rewrite Z.div_div by lia. reflexivity.
  - intros Hi. destruct (Hiz Hi) as [Hiy'|Hmod].
    + destruct (Hiy Hiy') as [?|Hmod]; [by left|]. right.
      intros Hzero. apply Hmod.
      apply Z.mod_divide in Hzero as [q Hq]; [|lia].
      apply Z.mod_divide; [lia|]. exists (q * 2 ^ b). lia.
    + right. intros Hzero. apply Hmod. rewrite Hy.
      apply Z.mod_divide in Hzero as [q Hq]; [|lia].
      apply Z.mod_divide; [lia|]. exists q.
      rewrite Hq. replace (q * (2 ^ a * 2 ^ b)) with (q * 2 ^ b * 2 ^ a) by lia.
      apply Z.div_mul. lia.
Qed.

Lemma halved_iter_pos n mrs : halved (Zpos n) mrs (SpecFloat.iter_pos shr_1 n mrs).
Proof.
  revert mrs. induction n as [n IH|n IH|]; intros mrs; cbn [SpecFloat.iter_pos].
  - replace (Zpos n~1) with (1 + (Zpos n + Zpos n)) by lia.
    apply halved_compose with (shr_1 mrs); [lia..|apply halved_shr_1|].
    eapply halved_compose; [lia..|apply IH|apply IH].
  - replace (Zpos n~0) with (Zpos n + Zpos n) by lia.
    eapply halved_compose; [lia..|apply IH|apply IH].
  - apply halved_shr_1.
Qed.

(** Rounding to nearest keeps the shifted mantissa or adds one to it,
    and adds one only when something was shifted out. *)
Lemma round_nearest_even_cases mrs :
  round_nearest_even (shr_m mrs) (loc_of_shr_record mrs) = shr_m mrs
  ∨ (round_nearest_even (shr_m mrs) (loc_of_shr_record mrs) = shr_m mrs + 1
     ∧ inexact mrs = true).
Proof.
  destruct mrs as [m [|] [|]];
    cbn [shr_m loc_of_shr_record round_nearest_even inexact shr_r shr_s orb];
    auto.
  destruct (Z.even m); auto.
Qed.

Lemma shr_fexp_exact m e :
  0 ≤ m →
  ∃ mrs,
    shr_fexp prec emax m e loc_Exact = (mrs, e + fexp_shift m e)
    ∧ shr_m mrs = m / 2 ^ fexp_shift m e
    ∧ (inexact mrs = true → m mod 2 ^ fexp_shift m e ≠ 0).
Proof.
  intros Hm. unfold shr_fexp, shr, fexp_shift.
  cbn [shr_record_of_loc].
  destruct (fexp prec emax (Zdigits2 m + e) - e) as [|n|n] eqn:Hn.
  - eexists. rewrite Z.add_0_r. split; [done|]. cbn.
    rewrite Z.div_1_r. done.
  - pose proof (halved_iter_pos n (Build_shr_record m false false) Hm)
      as [H1 H2].
    eexists. rewrite Z.max_r by lia. split; [done|]. split; [done|].
    intros Hi. by destruct (H2 Hi).
  - eexists. rewrite Z.max_l by lia. rewrite Z.add_0_r. split; [done|]. cbn.
    rewrite Z.div_1_r. done.
Qed.

(** ** Rounding against a binary64 number *)

Lemma pow2_pos k : 0 ≤ k → 0 < 2 ^ k.
Proof. intros. apply Z.pow_pos_nonneg; lia. Qed.

Lemma scaled_shift m e n :
  -1074 ≤ e → 0 ≤ n → scaled m (e + n) = m * 2 ^ n * 2 ^ (e + 1074).
Proof.
  intros He Hn. unfold scaled.
  replace (e + n + 1074) with (n + (e + 1074)) by lia.
  rewrite Z.pow_add_r by lia. lia.
Qed.

Lemma scaled_le_mono m1 m2 e : -1074 ≤ e → m1 ≤ m2 → scaled m1 e ≤ scaled m2 e.
Proof.
  intros He Hm. unfold scaled.
  apply Z.mul_le_mono_nonneg_r; [|done]. apply Z.pow_nonneg. lia.
Qed.

(** A shift by a positive number of bits happens only to a mantissa of
    more than 53 bits and leaves at least 53 of them. *)
Lemma fexp_shift_pos m e :
  0 ≤ m → -1074 ≤ e → 0 < fexp_shift m e →
  e + fexp_shift m e = Zdigits2 m + e - 53
  ∧ 2 ^ 52 ≤ m / 2 ^ fexp_shift m e.
Proof.
  unfold fexp_shift, fexp, emin, prec, emax. intros Hm He Hn.
  assert (Hd : Z.max 0 (Z.max (Zdigits2 m + e - 53) (3 - 1024 - 53) - e)
               = Zdigits2 m - 53) by lia.
  rewrite Hd in *. split; [lia|].
  destruct m as [|p|p]; cbn [Zdigits2] in *; [lia| |lia].
  pose proof (digits2_pos_bounds p) as [Hlow _].
  apply Z.div_le_lower_bound; [apply pow2_pos; lia|].
  rewrite <- Z.pow_add_r by lia.
  replace (Zpos (digits2_pos p) - 53 + 52) with (Zpos (digits2_pos p) - 1)
    by lia.
  done.
Qed.

(** A valid number either is a multiple of the unit of a given exponent
    or is below [2^52] of these units. *)
Lemma bounded_against_exponent mb eb e' :
  bounded prec emax mb eb = true → -1074 ≤ e' →
  (∃ k, scaled (Zpos mb) eb = k * 2 ^ (e' + 1074))
  ∨ scaled (Zpos mb) eb < 2 ^ 52 * 2 ^ (e' + 1074).
Proof.
  intros (Heb & Hdb & _)%bounded_inv He'.
  destruct (Z_le_gt_dec e' eb) as [Hle|Hgt].
  - left. exists (Zpos mb * 2 ^ (eb - e')). unfold scaled.
    rewrite <- Z.mul_assoc, <- Z.pow_add_r by lia.
    do 2 f_equal. lia.
  - right. unfold scaled.
    pose proof (digits2_pos_bounds mb) as [_ Hmb].
    assert (Zpos mb < 2 ^ 53).
    { eapply Z.lt_le_trans; [exact Hmb|]. apply Z.pow_le_mono_r; lia. }
    apply Z.lt_le_trans with (2 ^ 53 * 2 ^ (eb + 1074)).
    { apply Z.mul_lt_mono_pos_r; [apply pow2_pos|]; lia. }
    rewrite <- !Z.pow_add_r by lia. apply Z.pow_le_mono_r; lia.
Qed.

(** Truncation to the exponent of the format does not go below a valid
    number that is not above the value. *)
Lemma truncation_lower m e mb eb :
  0 ≤ m → -1074 ≤ e → bounded prec emax mb eb = true →
  scaled (Zpos mb) eb ≤ scaled m e →
  scaled (Zpos mb) eb ≤ scaled (m / 2 ^ fexp_shift m e) (e + fexp_shift m e).
Proof.
  intros Hm He Hb Hle.
  assert (Hn : 0 ≤ fexp_shift m e) by (unfold fexp_shift; lia).
  destruct (Z.eq_dec (fexp_shift m e) 0) as [->|Hn0].
  { by rewrite Z.add_0_r, Z.div_1_r. }
  destruct (fexp_shift_pos m e Hm He ltac:(lia)) as [_ Hbig].
  remember (fexp_shift m e) as n eqn:Heqn. clear Heqn.
  pose proof (pow2_pos n Hn) as H2n.
  pose proof (pow2_pos (e + 1074) ltac:(lia)) as H2e.
  rewrite scaled_shift by done.
  destruct (bounded_against_exponent mb eb (e + n) Hb ltac:(lia))
    as [[k Hk]|Hsmall].
  - rewrite Hk in *.
    replace (e + n + 1074) with (n + (e + 1074)) in * by lia.
    rewrite Z.pow_add_r in * by lia. unfold scaled in Hle.
    assert (k * 2 ^ n ≤ m).
    { apply Z.mul_le_mono_pos_r with (2 ^ (e + 1074)); [done|]. lia. }
    assert (k ≤ m / 2 ^ n) by (apply Z.div_le_lower_bound; lia).
    rewrite Z.mul_assoc.
    apply Z.mul_le_mono_nonneg_r; [lia|].
    apply Z.mul_le_mono_nonneg_r; lia.
  - apply Z.lt_le_incl. eapply Z.lt_le_trans; [exact Hsmall|].
    replace (e + n + 1074) with (n + (e + 1074)) by lia.
    rewrite Z.pow_add_r by lia. rewrite Z.mul_assoc.
    apply Z.mul_le_mono_nonneg_r; [lia|].
    apply Z.mul_le_mono_nonneg_r; lia.
Qed.

(** Rounding at the exponent of the format does not go above a valid
    number that is not below the value. *)
Lemma rounding_upper m e mb eb r :
  0 ≤ m → -1074 ≤ e → bounded prec emax mb eb = true →
  scaled m e ≤ scaled (Zpos mb) eb →
  r = m / 2 ^ fexp_shift m e
  ∨ (r = m / 2 ^ fexp_shift m e + 1 ∧ m mod 2 ^ fexp_shift m e ≠ 0) →
  scaled r (e + fexp_shift m e) ≤ scaled (Zpos mb) eb.
Proof.
  intros Hm He Hb Hle Hr.
  assert (Hn : 0 ≤ fexp_shift m e) by (unfold fexp_shift; lia).
  destruct (Z.eq_dec (fexp_shift m e) 0) as [Hn0|Hn0].
  { rewrite Hn0 in *. rewrite Z.add_0_r, Z.div_1_r, Z.mod_1_r in *.
    destruct Hr as [->|[_ ?]]; done. }
  destruct (fexp_shift_pos m e Hm He ltac:(lia)) as [_ Hbig].
  remember (fexp_shift m e) as n eqn:Heqn. clear Heqn.
  pose proof (pow2_pos n Hn) as H2n.
  pose proof (pow2_pos (e + 1074) ltac:(lia)) as H2e.
  pose proof (Z.mul_div_le m (2 ^ n) H2n) as Hfloor.
  rewrite scaled_shift by done.
  destruct (bounded_against_exponent mb eb (e + n) Hb ltac:(lia))
    as [[k Hk]|Hsmall].
  - rewrite Hk in *.
    replace (e + n + 1074) with (n + (e + 1074)) in * by lia.
    rewrite Z.pow_add_r in * by lia. unfold scaled in Hle.
    assert (Hmk : m ≤ k * 2 ^ n).
    { apply Z.mul_le_mono_pos_r with (2 ^ (e + 1074)); [done|]. lia. }
    assert (Hrk : r ≤ k).
    { destruct Hr as [->|[-> Hmod]].
      - apply Z.mul_le_mono_pos_l with (2 ^ n); [done|]. lia.
      - assert (m ≠ k * 2 ^ n).
        { intros ->. apply Hmod. apply Z.mod_mul. lia. }
        assert (m / 2 ^ n < k) by (apply Z.div_lt_upper_bound; lia).
        lia. }
    rewrite ?(Z.pow_add_r 2 n (e + 1074)) by lia. rewrite ?Z.mul_assoc.
    apply Z.mul_le_mono_nonneg_r; [lia|].
    apply Z.mul_le_mono_nonneg_r; lia.
  - exfalso. unfold scaled in Hle, Hsmall.
    replace (e + n + 1074) with (n + (e + 1074)) in Hsmall by lia.
    rewrite (Z.pow_add_r 2 n (e + 1074)) in Hsmall by lia.
    assert (2 ^ 52 * 2 ^ n ≤ m).
    { eapply Z.le_trans; [|exact Hfloor]. rewrite (Z.mul_comm (2 ^ n)).
      apply Z.mul_le_mono_nonneg_r; lia. }
    assert (2 ^ 52 * 2 ^ n * 2 ^ (e + 1074) ≤ m * 2 ^ (e + 1074)).
    { apply Z.mul_le_mono_nonneg_r; lia. }
    lia.
Qed.

(** ** The rounding of [binary_round]

    [binary_round_aux] shifts the mantissa to the exponent of the format,
    rounds it to nearest, and shifts once more in case the rounding
    carried into a 54th bit. *)

Lemma binary_round_aux_exact sx m e :
  0 ≤ m →
  ∃ r1,
    (r1 = m / 2 ^ fexp_shift m e
     ∨ (r1 = m / 2 ^ fexp_shift m e + 1 ∧ m mod 2 ^ fexp_shift m e ≠ 0))
    ∧ binary_round_aux prec emax sx m e loc_Exact
      = pack sx (r1 / 2 ^ fexp_shift r1 (e + fexp_shift m e))
          (e + fexp_shift m e + fexp_shift r1 (e + fexp_shift m e)).
Proof.
  intros Hm. unfold binary_round_aux.
  destruct (shr_fexp_exact m e Hm) as (mrs1 & -> & Hm1 & Hi1).
  set (r1 := round_nearest_even (shr_m mrs1) (loc_of_shr_record mrs1)).
  assert (H2 : 0 < 2 ^ fexp_shift m e)
    by (apply pow2_pos; unfold fexp_shift; lia).
  assert (Hr1 : r1 = m / 2 ^ fexp_shift m e
                ∨ (r1 = m / 2 ^ fexp_shift m e + 1
                   ∧ m mod 2 ^ fexp_shift m e ≠ 0)).
  { subst r1. rewrite <- Hm1.
    destruct (round_nearest_even_cases mrs1) as [->|[-> Hi]]; auto. }
  assert (Hr1pos : 0 ≤ r1).
  { pose proof (Z.div_pos m _ Hm H2). lia. }
  destruct (shr_fexp_exact r1 (e + fexp_shift m e) Hr1pos)
    as (mrs2 & -> & Hm2 & _).
  exists r1. split; [done|]. by rewrite Hm2.
Qed.

Lemma bounded_scaled_lt mb eb :
  bounded prec emax mb eb = true →
  0 < scaled (Zpos mb) eb < 2 ^ 53 * 2 ^ (971 + 1074).
Proof.
  intros Hb. pose proof (bounded_inv _ _ Hb) as (Heb & Hdb & _).
  split; [apply scaled_pos; lia|].
  pose proof (digits2_pos_bounds mb) as [_ Hmb].
  assert (Zpos mb < 2 ^ 53).
  { eapply Z.lt_le_trans; [exact Hmb|]. apply Z.pow_le_mono_r; lia. }
  unfold scaled.
  apply Z.lt_le_trans with (2 ^ 53 * 2 ^ (eb + 1074)).
  { apply Z.mul_lt_mono_pos_r; [apply pow2_pos|]; lia. }
  apply Z.mul_le_mono_nonneg_l; [lia|]. apply Z.pow_le_mono_r; lia.
Qed.

(** Rounding does not go below a valid number that is not above the
    value: the result is at least that number, or infinite. *)
Lemma binary_round_aux_lower m e mb eb :
  0 ≤ m → -1074 ≤ e → bounded prec emax mb eb = true →
  scaled (Zpos mb) eb ≤ scaled m e →
  binary_round_aux prec emax false m e loc_Exact = S754_infinity false
  ∨ ∃ p e2, binary_round_aux prec emax false m e loc_Exact
            = S754_finite false p e2
            ∧ scaled (Zpos mb) eb ≤ scaled (Zpos p) e2.
Proof.
  intros Hm He Hb Hle.
  destruct (binary_round_aux_exact false m e Hm) as (r1 & Hr1 & ->).
  pose proof (truncation_lower m e mb eb Hm He Hb Hle) as H1.
  assert (Hn1 : 0 ≤ fexp_shift m e) by (unfold fexp_shift; lia).
  assert (H2 : 0 < 2 ^ fexp_shift m e) by (by apply pow2_pos).
  pose proof (Z.div_pos m _ Hm H2) as Hq.
  assert (Hr1pos : 0 ≤ r1) by lia.
  assert (H1' : scaled (Zpos mb) eb ≤ scaled r1 (e + fexp_shift m e)).
  { eapply Z.le_trans; [exact H1|]. apply scaled_le_mono; lia. }
  pose proof (truncation_lower r1 (e + fexp_shift m e) mb eb Hr1pos
                ltac:(lia) Hb H1') as H3.
  pose proof (bounded_scaled_lt mb eb Hb) as [HB _].
  unfold pack.
  destruct (r1 / 2 ^ fexp_shift r1 (e + fexp_shift m e)) as [|p|p] eqn:Hm2.
  - unfold scaled in H3 at 2. lia.
  - destruct (_ <=? _); [right|by left]. eauto.
  - assert (0 ≤ Zneg p); [|lia]. rewrite <- Hm2.
    apply Z.div_pos; [done|]. apply pow2_pos. unfold fexp_shift. lia.
Qed.

(** Rounding does not go above a valid number that is not below the
    value, provided the mantissa does not call for a smaller exponent. *)
Lemma binary_round_aux_upper m e mb eb :
  0 ≤ m → -1074 ≤ e → e ≤ fexp prec emax (Zdigits2 m + e) →
  bounded prec emax mb eb = true →
  scaled m e ≤ scaled (Zpos mb) eb →
  binary_round_aux prec emax false m e loc_Exact = S754_zero false
  ∨ ∃ p e2, binary_round_aux prec emax false m e loc_Exact
            = S754_finite false p e2
            ∧ scaled (Zpos p) e2 ≤ scaled (Zpos mb) eb.
Proof.
  intros Hm He Hcanon Hb Hle.
  destruct (binary_round_aux_exact false m e Hm) as (r1 & Hr1 & ->).
  pose proof (rounding_upper m e mb eb r1 Hm He Hb Hle Hr1) as H1.
  assert (Hn1 : 0 ≤ fexp_shift m e) by (unfold fexp_shift; lia).
  assert (H2 : 0 < 2 ^ fexp_shift m e) by (by apply pow2_pos).
  pose proof (Z.div_pos m _ Hm H2) as Hq.
  assert (Hr1pos : 0 ≤ r1) by lia.
  set (e1 := e + fexp_shift m e) in *.
  assert (He1 : -1074 ≤ e1) by lia.
  assert (Hn2 : 0 ≤ fexp_shift r1 e1) by (unfold fexp_shift; lia).
  assert (H22 : 0 < 2 ^ fexp_shift r1 e1) by (by apply pow2_pos).
  set (m2 := r1 / 2 ^ fexp_shift r1 e1).
  set (e2 := e1 + fexp_shift r1 e1).
  assert (Hm2 : 0 ≤ m2) by (by apply Z.div_pos).
  assert (H3 : scaled m2 e2 ≤ scaled (Zpos mb) eb).
  { eapply Z.le_trans; [|exact H1]. unfold e2.
    rewrite scaled_shift by lia. unfold scaled.
    apply Z.mul_le_mono_nonneg_r; [apply Z.pow_nonneg; lia|].
    unfold m2. rewrite Z.mul_comm. by apply Z.mul_div_le. }
  (* a result above the least exponent has a mantissa of 53 bits *)
  assert (Hbig : -1074 < e2 → 2 ^ 52 ≤ m2).
  { intros He2.
    destruct (Z.eq_dec (fexp_shift r1 e1) 0) as [Hz2|Hnz2].
    - subst m2. rewrite Hz2, Z.div_1_r. subst e2. rewrite Hz2, Z.add_0_r in He2.
      destruct (Z.eq_dec (fexp_shift m e) 0) as [Hz1|Hnz1].
      + subst e1. rewrite Hz1, Z.div_1_r, Z.mod_1_r, Z.add_0_r in *.
        assert (r1 = m) as -> by (destruct Hr1 as [?|[_ ?]]; done).
        unfold fexp_shift, fexp, emin, prec, emax in *.
        destruct m as [|p|p]; cbn [Zdigits2] in *; [lia| |lia].
        pose proof (digits2_pos_bounds p) as [Hlow _].
        replace (Zpos (digits2_pos p)) with 53 in Hlow by lia. done.
      + destruct (fexp_shift_pos m e Hm He ltac:(lia)) as [_ ?]. lia.
    - by destruct (fexp_shift_pos r1 e1 Hr1pos He1 ltac:(lia)) as [_ ?]. }
  pose proof (bounded_scaled_lt mb eb Hb) as [_ HB].
  fold e1. fold m2 e2. unfold pack.
  destruct m2 as [|p|p] eqn:Hp; [by left| |lia].
  right. destruct (Z.leb_spec e2 (emax - prec)) as [_|Hover]; [eauto|].
  exfalso. unfold emax, prec in Hover.
  specialize (Hbig ltac:(lia)).
  assert (2 ^ 53 * 2 ^ (971 + 1074) ≤ scaled (Zpos p) e2); [|lia].
  unfold scaled. change (2 ^ 53) with (2 ^ 52 * 2 ^ 1).
  rewrite <- Z.mul_assoc, <- Z.pow_add_r by lia.
  apply Z.mul_le_mono_nonneg; [lia|done|apply Z.pow_nonneg; lia|].
  apply Z.pow_le_mono_r; lia.
Qed.

(** ** Alignment and sign *)

Lemma Pos_iter_xO_value M d : Zpos (Pos.iter xO M d) = Zpos M * 2 ^ Zpos d.
Proof.
  induction d as [|d IH] using Pos.peano_ind.
  - cbn. lia.
  - rewrite Pos.iter_succ, Pos2Z.inj_xO, IH, Pos2Z.inj_succ.
    rewrite Z.pow_succ_r by lia. lia.
Qed.

Lemma Pos_iter_xO_digits M d :
  Zpos (digits2_pos (Pos.iter xO M d)) = Zpos (digits2_pos M) + Zpos d.
Proof.
  induction d as [|d IH] using Pos.peano_ind.
  - cbn [Pos.iter digits2_pos]. lia.
  - rewrite Pos.iter_succ. cbn [digits2_pos].
    rewrite Pos2Z.inj_succ, IH, Pos2Z.inj_succ. lia.
Qed.

(** Aligning a mantissa to a smaller exponent keeps the value and the
    position of the leading bit. *)
Lemma shl_align_spec M e e' :
  -1074 ≤ e → -1074 ≤ e' →
  ∃ mz ez,
    shl_align M e e' = (mz, ez)
    ∧ -1074 ≤ ez ∧ ez ≤ e'
    ∧ (e' ≤ e → ez = e')
    ∧ scaled (Zpos mz) ez = scaled (Zpos M) e
    ∧ Zpos (digits2_pos mz) + ez = Zpos (digits2_pos M) + e.
Proof.
  intros He He'. unfold shl_align.
  destruct (e' - e) as [|d|d] eqn:Hd.
  - exists M, e. repeat split; try lia.
  - exists M, e. repeat split; try lia.
  - exists (Pos.iter xO M d), e'. repeat split; try lia.
    + unfold scaled. rewrite Pos_iter_xO_value.
      rewrite <- Z.mul_assoc, <- Z.pow_add_r by lia. do 2 f_equal. lia.
    + rewrite Pos_iter_xO_digits. lia.
Qed.

Lemma binary_round_aux_opp m e l :
  binary_round_aux prec emax true m e l
  = SFopp (binary_round_aux prec emax false m e l).
Proof.
  unfold binary_round_aux.
  destruct (shr_fexp prec emax m e l) as [mrs1 e1].
  destruct (shr_fexp prec emax _ e1 loc_Exact) as [mrs2 e2].
  destruct (shr_m mrs2); [done| |done]. by destruct (_ <=? _).
Qed.

Lemma binary_round_opp M e :
  binary_round prec emax true M e = SFopp (binary_round prec emax false M e).
Proof.
  unfold binary_round. destruct (shl_align _ _ _) as [mz ez].
  apply binary_round_aux_opp.
Qed.

(** The sign of a rounded positive value. *)
Lemma binary_round_aux_class m e :
  0 ≤ m →
  match binary_round_aux prec emax false m e loc_Exact with
  | S754_zero s | S754_infinity s | S754_finite s _ _ => s = false
  | S754_nan => False
  end.
Proof.
  intros Hm. destruct (binary_round_aux_exact false m e Hm) as (r1 & Hr1 & ->).
  assert (0 < 2 ^ fexp_shift m e) by (apply pow2_pos; unfold fexp_shift; lia).
  pose proof (Z.div_pos m _ Hm ltac:(done)).
  assert (Hr1pos : 0 ≤ r1) by lia.
  unfold pack.
  destruct (r1 / 2 ^ _) as [|p|p] eqn:Hm2; [done| |].
  - by destruct (_ <=? _).
  - assert (0 ≤ Zneg p); [|lia]. rewrite <- Hm2.
    apply Z.div_pos; [done|]. apply pow2_pos. unfold fexp_shift. lia.
Qed.

Lemma binary_round_class M e :
  match binary_round prec emax false M e with
  | S754_zero s | S754_infinity s | S754_finite s _ _ => s = false
  | S754_nan => False
  end.
Proof.
  unfold binary_round. destruct (shl_align _ _ _) as [mz ez].
  apply binary_round_aux_class. lia.
Qed.

Lemma binary_round_lower M e mb eb :
  -1074 ≤ e → bounded prec emax mb eb = true →
  scaled (Zpos mb) eb ≤ scaled (Zpos M) e →
  binary_round prec emax false M e = S754_infinity false
  ∨ ∃ p e2, binary_round prec emax false M e = S754_finite false p e2
            ∧ scaled (Zpos mb) eb ≤ scaled (Zpos p) e2.
Proof.
  intros He Hb Hle. unfold binary_round.
  destruct (shl_align_spec M e (fexp prec emax (Zpos (digits2_pos M) + e)) He)
    as (mz & ez & -> & Hez & _ & _ & Hval & _).
  { unfold fexp, emin, prec, emax. lia. }
  apply binary_round_aux_lower; [lia|done|done|]. by rewrite Hval.
Qed.

Lemma binary_round_upper M e mb eb :
  -1074 ≤ e → bounded prec emax mb eb = true →
  scaled (Zpos M) e ≤ scaled (Zpos mb) eb →
  binary_round prec emax false M e = S754_zero false
  ∨ ∃ p e2, binary_round prec emax false M e = S754_finite false p e2
            ∧ scaled (Zpos p) e2 ≤ scaled (Zpos mb) eb.
Proof.
  intros He Hb Hle. unfold binary_round.
  destruct (shl_align_spec M e (fexp prec emax (Zpos (digits2_pos M) + e)) He)
    as (mz & ez & -> & Hez & Hez' & _ & Hval & Hdig).
  { unfold fexp, emin, prec, emax. lia. }
  apply binary_round_aux_upper; [lia|done| |done|by rewrite Hval].
  cbn [Zdigits2]. by rewrite Hdig.
Qed.

(** ** Sums and differences *)

Lemma scaled_opp m e : scaled (- m) e = - scaled m e.
Proof. unfold scaled. lia. Qed.

Lemma scaled_cond_Zopp s m e :
  scaled (cond_Zopp s m) e = cond_Zopp s (scaled m e).
Proof. destruct s; cbn [cond_Zopp]; [apply scaled_opp|done]. Qed.

Lemma scaled_add m1 m2 e : scaled (m1 + m2) e = scaled m1 e + scaled m2 e.
Proof. unfold scaled. lia. Qed.

Lemma scaled_sub m1 m2 e : scaled (m1 - m2) e = scaled m1 e - scaled m2 e.
Proof. unfold scaled. lia. Qed.

Lemma SFval_opp x : SFval (SFopp x) = - SFval x.
Proof. destruct x as [| | |[] m e]; cbn; lia. Qed.

Lemma SFfinite_opp x : SFfinite (SFopp x) = SFfinite x.
Proof. by destruct x. Qed.

(** Rounding [m * 2^e] to the nearest binary64 number does not go below
    a binary64 number that is not above it. *)
Lemma binary_normalize_lower m e b :
  -1074 ≤ e → valid_binary b = true → SFfinite b = true →
  SFval b ≤ scaled m e →
  let z := binary_normalize prec emax m e false in
  z = S754_infinity false ∨ (SFfinite z = true ∧ SFval b ≤ SFval z).
Proof.
  intros He Hvalid Hfin Hle. destruct m as [|M|M]; cbn [binary_normalize].
  - right. split; [done|]. cbn [SFval]. unfold scaled in Hle. lia.
  - pose proof (scaled_pos (Zpos M) e ltac:(lia) He) as HM.
    pose proof (binary_round_class M e) as Hclass.
    destruct b as [sb| | |[] mb eb]; try discriminate; cbn [SFval cond_Zopp] in Hle.
    + destruct (binary_round _ _ _ _ _) as [s| | |s p e2]; [| |done|]; subst s.
      * by right.
      * by left.
      * right. split; [done|]. cbn [SFval cond_Zopp]. unfold scaled. cbn [SFval]. lia.
    + destruct (binary_round _ _ _ _ _) as [s| | |s p e2]; [| |done|]; subst s.
      * right. split; [done|].
        pose proof (bounded_inv _ _ Hvalid) as (Heb & _).
        pose proof (scaled_pos (Zpos mb) eb ltac:(lia) ltac:(lia)).
        cbn [SFval cond_Zopp]. lia.
      * by left.
      * right. split; [done|].
        pose proof (bounded_inv _ _ Hvalid) as (Heb & _).
        pose proof (scaled_pos (Zpos mb) eb ltac:(lia) ltac:(lia)).
        cbn [SFval cond_Zopp]. unfold scaled. lia.
    + destruct (binary_round_lower M e mb eb He Hvalid Hle)
        as [->|(p & e2 & -> & Hp)]; [by left|].
      right. by split.
  - assert (Hneg : scaled (Zneg M) e < 0).
    { pose proof (scaled_pos (Zpos M) e ltac:(lia) He).
      change (Zneg M) with (- Zpos M). rewrite scaled_opp. lia. }
    rewrite binary_round_opp.
    destruct b as [sb| | |[] mb eb]; try discriminate;
      cbn [SFval cond_Zopp] in Hle; try lia.
    + change (Zneg M) with (- Zpos M) in Hle. rewrite scaled_opp in Hle.
      destruct (binary_round_upper M e mb eb He Hvalid ltac:(lia))
        as [->|(p & e2 & -> & Hp)].
      * right. split; [done|].
        pose proof (bounded_inv _ _ Hvalid) as (Heb & _).
        pose proof (scaled_pos (Zpos mb) eb ltac:(lia) ltac:(lia)).
        cbn [SFopp SFval cond_Zopp]. lia.
      * right. split; [done|]. cbn [SFopp negb SFval cond_Zopp]. lia.
    + pose proof (bounded_inv _ _ Hvalid) as (Heb & _).
      pose proof (scaled_pos (Zpos mb) eb ltac:(lia) ltac:(lia)). lia.
Qed.

(** Nor does it go above a binary64 number that is not below it. *)
Lemma binary_normalize_upper m e b :
  -1074 ≤ e → valid_binary b = true → SFfinite b = true →
  scaled m e ≤ SFval b →
  let z := binary_normalize prec emax m e false in
  z = S754_infinity true ∨ (SFfinite z = true ∧ SFval z ≤ SFval b).
Proof.
  intros He Hvalid Hfin Hle. destruct m as [|M|M]; cbn [binary_normalize].
  - right. split; [done|]. cbn [SFval]. unfold scaled in Hle. lia.
  - pose proof (scaled_pos (Zpos M) e ltac:(lia) He) as HM.
    destruct b as [sb| | |[] mb eb]; try discriminate;
      cbn [SFval cond_Zopp] in Hle; try lia.
    + pose proof (bounded_inv _ _ Hvalid) as (Heb & _).
      pose proof (scaled_pos (Zpos mb) eb ltac:(lia) ltac:(lia)). lia.
    + destruct (binary_round_upper M e mb eb He Hvalid Hle)
        as [->|(p & e2 & -> & Hp)].
      * right. split; [done|].
        pose proof (bounded_inv _ _ Hvalid) as (Heb & _).
        pose proof (scaled_pos (Zpos mb) eb ltac:(lia) ltac:(lia)).
        cbn [SFval cond_Zopp]. lia.
      * right. by split.
  - pose proof (scaled_pos (Zpos M) e ltac:(lia) He) as HM.
    change (Zneg M) with (- Zpos M) in Hle. rewrite scaled_opp in Hle.
    rewrite binary_round_opp.
    pose proof (binary_round_class M e) as Hclass.
    destruct b as [sb| | |[] mb eb]; try discriminate; cbn [SFval cond_Zopp] in Hle.
    + destruct (binary_round _ _ _ _ _) as [s| | |s p e2]; [| |done|]; subst s.
      * by right.
      * by left.
      * right. split; [done|]. cbn [SFopp negb SFval cond_Zopp]. unfold scaled. lia.
    + destruct (binary_round_lower M e mb eb He Hvalid ltac:(lia))
        as [->|(p & e2 & -> & Hp)]; [by left|].
      right. split; [done|]. cbn [SFopp negb SFval cond_Zopp]. lia.
    + pose proof (bounded_inv _ _ Hvalid) as (Heb & _).
      pose proof (scaled_pos (Zpos mb) eb ltac:(lia) ltac:(lia)).
      destruct (binary_round _ _ _ _ _) as [s| | |s p e2]; [| |done|]; subst s.
      * right. split; [done|]. cbn [SFopp SFval cond_Zopp]. lia.
      * by left.
      * right. split; [done|]. cbn [SFopp negb SFval cond_Zopp]. unfold scaled. lia.
Qed.

(** The mantissa aligned to the smaller exponent. *)
Lemma shl_align_fst_scaled M e e' :
  -1074 ≤ e' ≤ e →
  scaled (Zpos (fst (shl_align M e e'))) e' = scaled (Zpos M) e.
Proof.
  intros He.
  destruct (shl_align_spec M e e' ltac:(lia) ltac:(lia))
    as (mz & ez & -> & _ & _ & Hez & Hval & _).
  cbn [fst]. rewrite <- (Hez ltac:(lia)). exact Hval.
Qed.

(** The sum of two finite numbers is the rounding of their exact sum. *)
Lemma SFadd_finite sx mx ex sy my ey :
  bounded prec emax mx ex = true → bounded prec emax my ey = true →
  ∃ m e, SFadd prec emax (S754_finite sx mx ex) (S754_finite sy my ey)
         = binary_normalize prec emax m e false
         ∧ -1074 ≤ e
         ∧ scaled m e = SFval (S754_finite sx mx ex) + SFval (S754_finite sy my ey).
Proof.
  intros (Hex & _)%bounded_inv (Hey & _)%bounded_inv.
  eexists _, _. split; [reflexivity|]. split; [lia|].
  rewrite scaled_add, !scaled_cond_Zopp, !shl_align_fst_scaled by lia.
  reflexivity.
Qed.

Lemma SFsub_finite sx mx ex sy my ey :
  bounded prec emax mx ex = true → bounded prec emax my ey = true →
  ∃ m e, SFsub prec emax (S754_finite sx mx ex) (S754_finite sy my ey)
         = binary_normalize prec emax m e false
         ∧ -1074 ≤ e
         ∧ scaled m e = SFval (S754_finite sx mx ex) - SFval (S754_finite sy my ey).
Proof.
  intros (Hex & _)%bounded_inv (Hey & _)%bounded_inv.
  eexists _, _. split; [reflexivity|]. split; [lia|].
  rewrite scaled_sub, !scaled_cond_Zopp, !shl_align_fst_scaled by lia.
  reflexivity.
Qed.

Lemma SFadd_lower x y b :
  valid_binary x = true → valid_binary y = true → valid_binary b = true →
  SFfinite x = true → SFfinite y = true → SFfinite b = true →
  SFval b ≤ SFval x + SFval y →
  let z := SFadd prec emax x y in
  z = S754_infinity false ∨ (SFfinite z = true ∧ SFval b ≤ SFval z).
Proof.
  intros Hx Hy Hb Fx Fy Fb Hle.
  destruct x as [sx| | |sx mx ex]; try discriminate;
    destruct y as [sy| | |sy my ey]; try discriminate.
  - right. cbn [SFval] in Hle. destruct sx, sy; cbn; split; (done || lia).
  - right. split; [done|]. cbn [SFadd]. cbn [SFval] in Hle |- *. lia.
  - right. split; [done|]. cbn [SFadd]. cbn [SFval] in Hle |- *. lia.
  - destruct (SFadd_finite sx mx ex sy my ey Hx Hy) as (m & e & Heq & He & Hval).
    intros z. subst z. rewrite Heq.
    apply binary_normalize_lower; [done..|]. by rewrite Hval.
Qed.

Lemma SFsub_lower x y b :
  valid_binary x = true → valid_binary y = true → valid_binary b = true →
  SFfinite x = true → SFfinite y = true → SFfinite b = true →
  SFval b ≤ SFval x - SFval y →
  let z := SFsub prec emax x y in
  z = S754_infinity false ∨ (SFfinite z = true ∧ SFval b ≤ SFval z).
Proof.
  intros Hx Hy Hb Fx Fy Fb Hle.
  destruct x as [sx| | |sx mx ex]; try discriminate;
    destruct y as [sy| | |sy my ey]; try discriminate.
  - right. cbn [SFval] in Hle. destruct sx, sy; cbn; split; (done || lia).
  - right. split; [done|]. cbn [SFsub]. cbn [SFval] in Hle |- *.
    destruct sy; cbn [negb cond_Zopp] in Hle |- *; lia.
  - right. split; [done|]. cbn [SFsub]. cbn [SFval] in Hle |- *. lia.
  - destruct (SFsub_finite sx mx ex sy my ey Hx Hy) as (m & e & Heq & He & Hval).
    intros z. subst z. rewrite Heq.
    apply binary_normalize_lower; [done..|]. by rewrite Hval.
Qed.

Lemma SFsub_upper x y b :
  valid_binary x = true → valid_binary y = true → valid_binary b = true →
  SFfinite x = true → SFfinite y = true → SFfinite b = true →
  SFval x - SFval y ≤ SFval b →
  let z := SFsub prec emax x y in
  z = S754_infinity true ∨ (SFfinite z = true ∧ SFval z ≤ SFval b).
Proof.
  intros Hx Hy Hb Fx Fy Fb Hle.
  destruct x as [sx| | |sx mx ex]; try discriminate;
    destruct y as [sy| | |sy my ey]; try discriminate.
  - right. cbn [SFval] in Hle. destruct sx, sy; cbn; split; (done || lia).
  - right. split; [done|]. cbn [SFsub]. cbn [SFval] in Hle |- *.
    destruct sy; cbn [negb cond_Zopp] in Hle |- *; lia.
  - right. split; [done|]. cbn [SFsub]. cbn [SFval] in Hle |- *. lia.
  - destruct (SFsub_finite sx mx ex sy my ey Hx Hy) as (m & e & Heq & He & Hval).
    intros z. subst z. rewrite Heq.
    apply binary_normalize_upper; [done..|]. by rewrite Hval.
Qed.

(** ** Order facts of binary64 arithmetic *)

Lemma SFleb_SFval x y :
  valid_binary x = true → valid_binary y = true →
  SFfinite x = true → SFfinite y = true →
  SFleb x y = (SFval x <=? SFval y)%Z.
Proof.
  intros Hx Hy Fx Fy. unfold SFleb. rewrite SFcompare_SFval by done.
  unfold Z.leb. by destruct (_ ?= _).
Qed.

Lemma SFnonneg_leb x : SFleb (S754_zero false) x = SFnonneg x.
Proof. by destruct x as [|[]| |[]]. Qed.

Lemma SFnonneg_SFval x :
  valid_binary x = true → SFnonneg x = true → 0 ≤ SFval x.
Proof.
  destruct x as [s|s| |[] m e]; try discriminate; cbn [SFval cond_Zopp]; try lia.
  intros (He & _)%bounded_inv _.
  pose proof (scaled_pos (Zpos m) e ltac:(lia) ltac:(lia)). lia.
Qed.

Lemma SFleb_refl x : SFnumber x = true → valid_binary x = true → SFleb x x = true.
Proof.
  destruct x as [s|[]| |s m e]; try done.
  intros _ Hx. rewrite SFleb_SFval by done. lia.
Qed.

Lemma SFleb_trans x y z :
  valid_binary x = true → valid_binary y = true → valid_binary z = true →
  SFleb x y = true → SFleb y z = true → SFleb x z = true.
Proof.
  intros Hx Hy Hz.
  destruct (SFfinite x) eqn:Fx, (SFfinite y) eqn:Fy, (SFfinite z) eqn:Fz;
    try (rewrite !SFleb_SFval by done; lia);
    destruct x as [sx|sx| |sx mx ex]; try discriminate Fx;
    destruct y as [sy|sy| |sy my ey]; try discriminate Fy;
    destruct z as [sz|sz| |sz mz ez]; try discriminate Fz;
    try destruct sx; try destruct sy; try destruct sz; done.
Qed.

(** Adding a finite number that is not negative does not decrease. *)
Lemma SFadd_nonneg_le x p :
  valid_binary x = true → valid_binary p = true →
  valid_binary (SFadd prec emax x p) = true →
  SFnumber x = true → SFfinite p = true → SFnonneg p = true →
  SFleb x (SFadd prec emax x p) = true ∧ SFnumber (SFadd prec emax x p) = true.
Proof.
  intros Hx Hp Hz Nx Fp Pp.
  pose proof (SFnonneg_SFval p Hp Pp) as Hpos.
  destruct (SFfinite x) eqn:Fx.
  - destruct (SFadd_lower x p x Hx Hp Hx Fx Fp Fx ltac:(lia)) as [Hinf|[Fz Hle]].
    + rewrite Hinf. by destruct x as [|[]| |[]].
    + split; [|by destruct (SFadd _ _ _ _)].
      rewrite SFleb_SFval by done. lia.
  - destruct x as [|sx| |]; try discriminate.
    destruct p as [sp| | |sp mp ep]; try discriminate; by destruct sx.
Qed.

(** Subtracting a number that is not negative does not increase. *)
Lemma SFsub_nonneg_le x q :
  valid_binary x = true → valid_binary q = true →
  valid_binary (SFsub prec emax x q) = true →
  SFfinite x = true → SFnonneg q = true →
  SFleb (SFsub prec emax x q) x = true.
Proof.
  intros Hx Hq Hz Fx Pq.
  pose proof (SFnonneg_SFval q Hq Pq) as Hpos.
  destruct (SFfinite q) eqn:Fq.
  - destruct (SFsub_upper x q x Hx Hq Hx Fx Fq Fx ltac:(lia)) as [Hinf|[Fz Hle]].
    + rewrite Hinf. by destruct x as [|[]| |[]].
    + rewrite SFleb_SFval by done. lia.
  - destruct q as [|[]| |]; try discriminate.
    destruct x as [sx| | |[] mx ex]; try discriminate; done.
Qed.

(** A difference of finite numbers that is neither negative nor above
    its first operand is finite. *)
Lemma SFsub_within x y :
  valid_binary x = true → valid_binary y = true →
  SFfinite x = true → SFfinite y = true →
  0 ≤ SFval y ≤ SFval x →
  let z := SFsub prec emax x y in
  SFfinite z = true ∧ 0 ≤ SFval z.
Proof.
  intros Hx Hy Fx Fy Hle z.
  assert (Hlow : SFval (S754_zero false) ≤ SFval x - SFval y) by (cbn [SFval]; lia).
  destruct (SFsub_lower x y (S754_zero false) Hx Hy eq_refl Fx Fy eq_refl Hlow)
    as [Hinf|[Fz Hlo]]; [|done].
  destruct (SFsub_upper x y x Hx Hy Hx Fx Fy Fx ltac:(lia)) as [Hinf'|[Fz _]].
  - congruence.
  - subst z. rewrite Hinf in Fz. discriminate.
Qed.

(** A product of finite numbers that are not negative is not negative. *)
Lemma SFmul_nonneg x y :
  SFfinite x = true → SFfinite y = true →
  SFnonneg x = true → SFnonneg y = true →
  SFnonneg (SFmul prec emax x y) = true.
Proof.
  destruct x as [sx| | |[] mx ex]; try discriminate;
    destruct y as [sy| | |[] my ey]; try discriminate; intros _ _ _ _; try done.
  cbn [SFmul xorb].
  pose proof (binary_round_aux_class (Zpos (mx * my)) (ex + ey) ltac:(lia)) as H.
  by destruct (binary_round_aux _ _ _ _ _ _) as [s|s| |s p e]; try subst s.
Qed.

(** ** The same facts on [float] *)

Lemma finite64_SFfinite x : finite64 x = SFfinite (Prim2SF x).
Proof. reflexivity. Qed.

Lemma number64_SFnumber x : number64 x = SFnumber (Prim2SF x).
Proof. reflexivity. Qed.

Lemma float_nonneg x : (0 <=? x)%float = SFnonneg (Prim2SF x).
Proof. rewrite FloatAxioms.leb_spec. apply SFnonneg_leb. Qed.

Lemma finite64_number64 x : finite64 x = true → number64 x = true.
Proof. unfold finite64, number64. by destruct (Prim2SF x). Qed.

Lemma float_leb_refl x : number64 x = true → (x <=? x)%float = true.
Proof.
  rewrite number64_SFnumber, FloatAxioms.leb_spec. intros Hx.
  apply SFleb_refl; [done|apply Prim2SF_valid].
Qed.

Lemma float_leb_trans x y z :
  (x <=? y)%float = true → (y <=? z)%float = true → (x <=? z)%float = true.
Proof.
  rewrite !FloatAxioms.leb_spec. apply SFleb_trans; apply Prim2SF_valid.
Qed.

(** [x <= x + p] for a finite [p] that is not negative. *)
Lemma float_add_nonneg_le x p :
  number64 x = true → finite64 p = true → (0 <=? p)%float = true →
  (x <=? x + p)%float = true ∧ number64 (x + p) = true.
Proof.
  rewrite !number64_SFnumber, finite64_SFfinite, float_nonneg,
    FloatAxioms.leb_spec.
  pose proof (Prim2SF_valid (x + p)) as Hz. revert Hz.
  rewrite FloatAxioms.add_spec. intros Hz Nx Fp Pp.
  apply SFadd_nonneg_le; try done; apply Prim2SF_valid.
Qed.

(** [x - q <= x] for a [q] that is not negative. *)
Lemma float_sub_nonneg_le x q :
  finite64 x = true → (0 <=? q)%float = true → (x - q <=? x)%float = true.
Proof.
  rewrite finite64_SFfinite, float_nonneg, FloatAxioms.leb_spec.
  pose proof (Prim2SF_valid (x - q)) as Hz. revert Hz.
  rewrite FloatAxioms.sub_spec. intros Hz Fx Pq.
  apply SFsub_nonneg_le; try done; apply Prim2SF_valid.
Qed.

(** A number between 0 and 1 is finite. *)
Lemma float_unit_finite pct :
  (0 <=? pct)%float = true → (pct <=? 1)%float = true → finite64 pct = true.
Proof.
  rewrite finite64_SFfinite, float_nonneg, FloatAxioms.leb_spec.
  by destruct (Prim2SF pct) as [|[]| |].
Qed.

(** [1 - pct] is finite and not negative for [pct] between 0 and 1. *)
Lemma float_one_minus pct :
  (0 <=? pct)%float = true → (pct <=? 1)%float = true →
  finite64 (1 - pct) = true ∧ (0 <=? 1 - pct)%float = true.
Proof.
  rewrite finite64_SFfinite, !float_nonneg, FloatAxioms.leb_spec,
    FloatAxioms.sub_spec.
  pose proof (Prim2SF_valid pct) as Hp. pose proof (Prim2SF_valid 1) as H1.
  pose proof (Prim2SF_valid (1 - pct)) as Hz. revert Hz.
  rewrite FloatAxioms.sub_spec. intros Hz Ppct Hle.
  assert (F1 : SFfinite (Prim2SF 1) = true) by (vm_compute; reflexivity).
  assert (Fp : SFfinite (Prim2SF pct) = true).
  { by destruct (Prim2SF pct) as [|[]| |]. }
  pose proof (SFnonneg_SFval _ Hp Ppct) as Hpos.
  rewrite SFleb_SFval in Hle by done. apply Z.leb_le in Hle.
  destruct (SFsub_within (Prim2SF 1) (Prim2SF pct) H1 Hp F1 Fp (conj Hpos Hle))
    as [Fz Hz0].
  split; [done|].
  rewrite <- SFnonneg_leb, SFleb_SFval by done. apply Z.leb_le. exact Hz0.
Qed.

(** A product of finite numbers that are not negative is not negative. *)
Lemma float_mul_nonneg a b :
  finite64 a = true → finite64 b = true →
  (0 <=? a)%float = true → (0 <=? b)%float = true →
  (0 <=? a * b)%float = true.
Proof.
  rewrite !finite64_SFfinite, !float_nonneg, FloatAxioms.mul_spec.
  apply SFmul_nonneg.
Qed.

(** ** Quotients and products that are exact *)

Lemma digits2_pos_unique p n :
  2 ^ (n - 1) ≤ Zpos p < 2 ^ n → Zpos (digits2_pos p) = n.
Proof.
  intros [Hlo Hhi]. pose proof (digits2_pos_bounds p) as [Hlo' Hhi'].
  destruct (Z.lt_trichotomy (Zpos (digits2_pos p)) n) as [Hlt|[->|Hgt]];
    [exfalso|done|exfalso].
  - assert (2 ^ Zpos (digits2_pos p) ≤ 2 ^ (n - 1))
      by (apply Z.pow_le_mono_r; lia). lia.
  - assert (2 ^ n ≤ 2 ^ (Zpos (digits2_pos p) - 1))
      by (apply Z.pow_le_mono_r; lia).
    lia.
Qed.

(** A finite number divided by itself is 1. *)
Lemma SFdiv_self s m e :
  SFdiv prec emax (S754_finite s m e) (S754_finite s m e)
  = S754_finite false 4503599627370496 (-52).
Proof.
  unfold SFdiv, SFdiv_core_binary. cbv zeta.
  replace (Zdigits2 (Zpos m) + e - (Zdigits2 (Zpos m) + e)) with 0 by lia.
  replace (e - e) with 0 by lia.
  change (Z.min (fexp prec emax 0) 0) with (-53).
  change (0 - -53) with 53.
  destruct (Z.div_eucl (Z.shiftl (Zpos m) 53) (Zpos m)) as [q r] eqn:Hd.
  assert (Hq : q = 2 ^ 53).
  { change q with (fst (q, r)). rewrite <- Hd.
    change (fst (Z.div_eucl ?a ?b)) with (a / b).
    rewrite Z.shiftl_mul_pow2 by lia. rewrite Z.mul_comm.
    by rewrite Z.div_mul. }
  assert (Hr : r = 0).
  { change r with (snd (q, r)). rewrite <- Hd.
    change (snd (Z.div_eucl ?a ?b)) with (a mod b).
    rewrite Z.shiftl_mul_pow2 by lia. rewrite Z.mul_comm.
    by rewrite Z.mod_mul. }
  subst q r.
  assert (Hloc : new_location (Zpos m) 0 = loc_Exact).
  { unfold new_location, new_location_even, new_location_odd.
    by destruct (Z.even (Zpos m)). }
  rewrite Hloc. replace (xorb s s) with false by (by destruct s).
  vm_compute. reflexivity.
Qed.

(** 1 times a number is that number. *)
Lemma SFmul_one_l y :
  valid_binary y = true →
  SFmul prec emax (S754_finite false 4503599627370496 (-52)) y = y.
Proof.
  destruct y as [sy|sy| |sy my ey]; try done. intros Hb.
  cbn [SFmul xorb valid_binary] in *.
  pose proof (bounded_inv _ _ Hb) as (He & Hd & _).
  assert (Hfexp : fexp prec emax (Zpos (digits2_pos my) + ey) = ey).
  { unfold bounded, canonical_mantissa in Hb.
    apply andb_true_iff in Hb as [Hc _]. by apply Z.eqb_eq in Hc. }
  set (m := Zpos (4503599627370496 * my)).
  assert (Hm : m = Zpos my * 2 ^ 52) by (subst m; lia).
  assert (Hdig : Zdigits2 m = Zpos (digits2_pos my) + 52).
  { subst m. cbn [Zdigits2]. apply digits2_pos_unique.
    pose proof (digits2_pos_bounds my) as [Hlo Hhi].
    replace (Zpos (4503599627370496 * my)) with (Zpos my * 2 ^ 52) by lia.
    replace (Zpos (digits2_pos my) + 52 - 1)
      with (Zpos (digits2_pos my) - 1 + 52) by lia.
    rewrite !Z.pow_add_r by lia. split.
    - apply Z.mul_le_mono_nonneg_r; lia.
    - apply Z.mul_lt_mono_pos_r; lia. }
  assert (Hshift : fexp_shift m (-52 + ey) = 52).
  { unfold fexp_shift. rewrite Hdig.
    replace (Zpos (digits2_pos my) + 52 + (-52 + ey))
      with (Zpos (digits2_pos my) + ey) by lia.
    rewrite Hfexp. lia. }
  destruct (binary_round_aux_exact sy m (-52 + ey) ltac:(lia))
    as (r1 & Hr1 & ->).
  rewrite Hshift in Hr1 |- *.
  assert (r1 = Zpos my) as ->.
  { rewrite Hm in Hr1. rewrite Z.div_mul, Z.mod_mul in Hr1 by lia.
    destruct Hr1 as [->|[_ ?]]; done. }
  replace (-52 + ey + 52) with ey by lia.
  assert (Hshift2 : fexp_shift (Zpos my) ey = 0).
  { unfold fexp_shift. cbn [Zdigits2]. rewrite Hfexp. lia. }
  rewrite Hshift2. change (2 ^ 0) with 1. rewrite Z.div_1_r, Z.add_0_r.
  unfold pack. replace (ey <=? emax - prec) with true; [done|].
  symmetry. apply Z.leb_le. unfold emax, prec. lia.
Qed.

Lemma float_div_self x :
  finite64 x = true → (x =? 0)%float = false → (x / x)%float = 1%float.
Proof.
  rewrite FloatAxioms.eqb_spec. unfold finite64. intros Hfin Hnz.
  rewrite <- (SF2Prim_Prim2SF (x / x)), FloatAxioms.div_spec.
  destruct (Prim2SF x) as [s| | |s m e]; try done.
  unfold SF64div. rewrite SFdiv_self. vm_compute. reflexivity.
Qed.

Lemma float_mul_one_l y : (1 * y)%float = y.
Proof.
  rewrite <- (SF2Prim_Prim2SF (1 * y)), FloatAxioms.mul_spec.
  change (Prim2SF 1) with (S754_finite false 4503599627370496 (-52)).
  unfold SF64mul. rewrite SFmul_one_l by apply Prim2SF_valid.
  apply SF2Prim_Prim2SF.
Qed.

(** * Running the monad in proofs *)

(** Unfolds the plumbing of [M] and leaves the calls on collaborators and
    the project setters in place. *)
Ltac run_monad :=
  cbv beta iota zeta
    delta [bind check ask ret fail wrapped catch returning emit call Sleep
           Save errors_Wrap errors_New];
  cbn [fst snd projects clock trace log_event negb andb orb].

Ltac run_monad_in H :=
  cbv beta iota zeta
    delta [bind check ask ret fail wrapped catch returning emit call Sleep
           Save errors_Wrap errors_New] in H;
  cbn [fst snd projects clock trace log_event negb andb orb] in H.

(** * The calls a computation adds to the trace *)

Lemma emits_ret {A} (P : Event → Prop) (a : A) : emits P (ret a).
Proof.
  intros w r w' [= <- <-]. exists []. by rewrite app_nil_r.
Qed.

Lemma emits_fail {A} (P : Event → Prop) e : emits P (@fail A e).
Proof.
  intros w r w' [= <- <-]. exists []. by rewrite app_nil_r.
Qed.

Lemma emits_ask {A} (P : Event → Prop) (f : World → A) : emits P (ask f).
Proof.
  intros w r w' [= <- <-]. exists []. by rewrite app_nil_r.
Qed.

Lemma emits_bind {A B} (P : Event → Prop) (c : M A) (k : A → M B) :
  emits P c → (∀ a, emits P (k a)) → emits P (bind c k).
Proof.
  intros Hc Hk w r w'. unfold bind.
  destruct (c w) as [[a|e] w1] eqn:Hcw.
  - intros Hkw. destruct (Hc _ _ _ Hcw) as (new1 & E1 & H1).
    destruct (Hk a _ _ _ Hkw) as (new2 & E2 & H2).
    exists (new1 ++ new2). rewrite E2, E1, app_assoc. split; [done|].
    by apply Forall_app.
  - intros [= <- <-]. by apply (Hc _ _ _ Hcw).
Qed.

Lemma emits_check {A} (P : Event → Prop) (c : M (A * option error)) msg :
  emits P c → emits P (check c msg).
Proof.
  intros Hc. apply emits_bind; [done|]. intros r.
  destruct (errors_Wrap _ _); [apply emits_fail|apply emits_ret].
Qed.

Lemma emits_wrapped {A} (P : Event → Prop) (c : M A) msg :
  emits P c → emits P (wrapped c msg).
Proof.
  intros Hc w r w'. unfold wrapped.
  destruct (c w) as [[a|e] w1] eqn:Hcw; intros [= <- <-];
    by apply (Hc _ _ _ Hcw).
Qed.

Lemma emits_catch {A} (P : Event → Prop) (c : M A) :
  emits P c → emits P (catch c).
Proof.
  intros Hc w r w'. unfold catch.
  destruct (c w) as [[a|e] w1] eqn:Hcw; intros [= <- <-];
    by apply (Hc _ _ _ Hcw).
Qed.

Lemma emits_returning {A} (P : Event → Prop) (v : A) err :
  emits P (returning v err).
Proof. destruct err; [apply emits_fail|apply emits_ret]. Qed.

Lemma emits_emit (P : Event → Prop) ev : P ev → emits P (emit ev).
Proof.
  intros Hev w r w' [= <- <-]. exists [ev]. split; [done|].
  by apply Forall_singleton.
Qed.

Lemma emits_Sleep (P : Event → Prop) d : P (time_Sleep d) → emits P (Sleep d).
Proof.
  intros Hev w r w' [= <- <-]. exists [time_Sleep d]. split; [done|].
  by apply Forall_singleton.
Qed.

Lemma emits_mono {A} (P Q : Event → Prop) (c : M A) :
  (∀ ev, P ev → Q ev) → emits P c → emits Q c.
Proof.
  intros HPQ Hc w r w' Hcw. destruct (Hc _ _ _ Hcw) as (new & E1 & Hnew).
  exists new. split; [done|]. by eapply Forall_impl.
Qed.

(** What a [bind] that ran to [(r, w')] went through. *)
Lemma bind_inv {A B} (c : M A) (k : A → M B) w r w' :
  bind c k w = (r, w') →
  (∃ a w1, c w = (Ok a, w1) ∧ k a w1 = (r, w'))
  ∨ (∃ e, c w = (Err e, w') ∧ r = Err e).
Proof.
  unfold bind. destruct (c w) as [[a|e] w1].
  - intros H. left. by exists a, w1.
  - intros [= <- <-]. right. by exists e.
Qed.

(** * Properties of the contract *)

Section Properties.

Variable C : Consts.
Variable E : Env.

(** ** Investments beyond the remaining gap *)

Lemma RetrieveProject_Some w key p :
  projects w !! key = Some p → RetrieveProject w key = (p, None).
Proof. intros H. unfold RetrieveProject. by rewrite H. Qed.

Lemma RetrieveProject_None w key :
  projects w !! key = None →
  RetrieveProject w key
  = (zeroProject, Some (errors_New "error while retrieving key from bucket")).
Proof. intros H. unfold RetrieveProject. by rewrite H. Qed.

(** The pre-investment check refuses an amount above the gap, whatever
    the earlier checks say, before it has stored or sent anything. *)
Lemma preInvestmentCheck_above_gap projIndex invIndex invAmount seed w p :
  projects w !! projIndex = Some p →
  (TotalValue p - MoneyRaised p <? invAmount)%float = true →
  ∃ e, preInvestmentCheck C E projIndex invIndex invAmount seed w = (Err e, w).
Proof.
  intros Hp Hgap.
  unfold preInvestmentCheck, bind, check, ask, bind, ret, fail.
  rewrite (RetrieveProject_Some _ _ _ Hp). simpl.
  destruct (RetrieveInvestor E w invIndex) as [investor [e|]]; simpl; [eauto|].
  destruct (CanInvest E w investor invAmount); simpl; [|eauto].
  destruct (wallet_ReturnPubkey E seed) as [pubkey [e|]]; simpl; [eauto|].
  destruct (xlm_AccountExists E w pubkey); simpl; [|eauto].
  rewrite Hgap. eauto.
Qed.

(** C1. An investment whose amount is strictly greater than
    [TotalValue - MoneyRaised] is rejected with an error by [Invest] and
    by [SeedInvest], and the call leaves the world as it was: no project
    is stored (so [MoneyRaised], [SeedMoneyRaised], [InvestorIndices],
    [InvestorMap], [Lock] and [Stage] keep their values), and no outbound
    call is made. *)
Theorem invest_above_gap_rejected projIndex invIndex invAmount invSeed w p :
  projects w !! projIndex = Some p →
  (TotalValue p - MoneyRaised p <? invAmount)%float = true →
  (∃ e, Invest C E projIndex invIndex invAmount invSeed w = (Err e, w))
  ∧ (∃ e, SeedInvest C E projIndex invIndex invAmount invSeed w = (Err e, w)).
Proof.
  intros Hp Hgap.
  destruct (preInvestmentCheck_above_gap projIndex invIndex invAmount invSeed
              w p Hp Hgap) as [e He].
  split.
  - unfold Invest, bind, wrapped. rewrite He. eauto.
  - unfold SeedInvest, bind, wrapped. rewrite He. eauto.
Qed.

(** ** Distribution of a payback to the investors *)

(** The loop attempts one transfer per entry, in order, and ends without
    an error whatever the transfers return. *)
Lemma DistributePayments_loop_trace entries p recipientSeed given w :
  DistributePayments_loop E entries p recipientSeed given w
  = (Ok tt,
     mkWorld (projects w) (clock w)
       (trace w ++
        map (fun e => escrow_SendFundsFromEscrow (EscrowPubkey p) (fst e)
                        recipientSeed (snd e * given)%float "returns")
          entries)).
Proof.
  revert w. induction entries as [|[pubkey percentage] rest IH]; intros w.
  - simpl. unfold ret. by rewrite app_nil_r; destruct w.
  - simpl. unfold bind, call. rewrite IH. simpl.
    by rewrite <- app_assoc.
Qed.

(** C6. With the escrow not locked, [DistributePayments] returns without
    an error and attempts exactly one transfer out of the project's
    escrow per entry [(pubkey, share)] of [InvestorMap], of
    [share * (rate * amount)] in the grouping of the source, where [rate]
    is [InterestRate] when it differs from 0 and 0.05 otherwise.  The
    collaborators are arbitrary: a transfer that returns an error changes
    neither the result nor the transfers attempted for the other
    entries.  Nothing else happens to the world. *)
Theorem DistributePayments_pays_every_investor
    recipientSeed escrowPubkey projIndex amount w p :
  (∀ w' m, map_range E w' m ≡ₚ map_to_list m) →
  projects w !! projIndex = Some p →
  EscrowLock p = false →
  ∃ sends,
    DistributePayments E recipientSeed escrowPubkey projIndex amount w
    = (Ok tt, mkWorld (projects w) (clock w) (trace w ++ sends))
    ∧ sends ≡ₚ map (investor_return p recipientSeed amount)
                 (map_to_list (InvestorMap p)).
Proof.
  intros Hrange Hp Hlock.
  unfold DistributePayments, bind, ask.
  rewrite (RetrieveProject_Some _ _ _ Hp). simpl. rewrite Hlock.
  rewrite DistributePayments_loop_trace. simpl.
  eexists. split; [reflexivity|].
  rewrite (Hrange w (InvestorMap p)). reflexivity.
Qed.

(** C10. When the project cannot be retrieved, [DistributePayments] drops
    the error: it goes on with the zero-valued project (no escrow lock,
    empty investor map), attempts no transfer, leaves the world as it was
    and returns without an error. *)
Theorem DistributePayments_lookup_error_dropped
    recipientSeed escrowPubkey projIndex amount w :
  (∀ w' m, map_range E w' m ≡ₚ map_to_list m) →
  projects w !! projIndex = None →
  snd (RetrieveProject w projIndex) ≠ None
  ∧ DistributePayments E recipientSeed escrowPubkey projIndex amount w
    = (Ok tt, w).
Proof.
  intros Hrange Hp. split.
  { by rewrite (RetrieveProject_None _ _ Hp). }
  unfold DistributePayments, bind, ask.
  rewrite (RetrieveProject_None _ _ Hp). simpl.
  rewrite DistributePayments_loop_trace. simpl.
  pose proof (Hrange w ∅) as Hnil. rewrite map_to_list_empty in Hnil.
  apply Permutation_nil_r in Hnil. rewrite Hnil. simpl.
  rewrite app_nil_r. by destruct w.
Qed.

(** ** Payback *)

Lemma Payback_update_Index p pct amount now :
  Index (Payback_update p pct amount now) = Index p.
Proof.
  unfold Payback_update. cbn.
  by destruct (_ =? 0)%float, (_ =? 1)%float.
Qed.


(** ** First-loss cover *)

(** C7. Whatever the project, the guarantor and the amount asked for,
    [CoverFirstLoss] makes at most one transfer, out of the guarantor's
    account into the project's escrow, and makes no other call.  The
    amount [sent] is the guarantor's [FirstLossGuaranteeAmt] when that
    ceiling is below the amount asked for, and the amount asked for
    otherwise; so it exceeds neither of them. *)
Theorem CoverFirstLoss_transfer_clamped projIndex entityIndex amount w r w' :
  CoverFirstLoss C E projIndex entityIndex amount w = (r, w') →
  projects w' = projects w
  ∧ (trace w' = trace w
     ∨ ∃ (assetCode issuerPubkey : string) (p : Project) (seed : string)
         (sent : float),
         projects w !! projIndex = Some p
         ∧ trace w' = trace w ++ [assets_SendAsset assetCode issuerPubkey
                                    (EscrowPubkey p) sent seed
                                    "first loss guarantee"]
         ∧ let ceiling :=
             FirstLossGuaranteeAmt (fst (RetrieveEntity E w entityIndex)) in
           sent = (if (ceiling <? amount)%float then ceiling else amount)
           ∧ (amount <? sent)%float = false
           ∧ (ceiling <? sent)%float = false).
Proof.
  unfold CoverFirstLoss. run_monad.
  destruct (projects w !! projIndex) as [p|] eqn:Hp;
    [rewrite (RetrieveProject_Some _ _ _ Hp)
    |rewrite (RetrieveProject_None _ _ Hp)]; run_monad;
    [|intros [= <- <-]; auto].
  destruct (RetrieveEntity E w entityIndex) as [entity [e|]]; run_monad;
    [intros [= <- <-]; auto|].
  destruct (GuarantorIndex p =? U_Index (ent_U entity))%Z; run_monad;
    [|intros [= <- <-]; auto].
  destruct (wallet_DecryptSeed E _ _) as [seed [e|]]; run_monad;
    [intros [= <- <-]; auto|].
  assert (Hclamp :
    let ceiling := FirstLossGuaranteeAmt entity in
    let sent := if (ceiling <? amount)%float then ceiling else amount in
    (amount <? sent)%float = false ∧ (ceiling <? sent)%float = false).
  { cbv zeta. destruct (_ <? amount)%float eqn:Hlt.
    - split; [by apply float_ltb_asym | apply float_ltb_irrefl].
    - split; [apply float_ltb_irrefl | done]. }
  destruct Hclamp as [Ha Hc].
  destruct (Mainnet C); run_monad;
    destruct (call_error E w _) as [e|]; intros [= <- <-]; cbn [projects trace];
    (split; [done|]); right; do 5 eexists; (split; [done|]);
    (split; [reflexivity|]); done.
Qed.

(** ** The escrow-release pipeline *)

(** With the lock open the wait ends at its first round (or is not
    entered at all), without a call and without an error. *)
Lemma sendRecipientAssets_wait_unlocked fuel startTime projIndex w p :
  projects w !! projIndex = Some p →
  Lock p = false →
  sendRecipientAssets_wait C (S fuel) startTime projIndex w = (Ok (Some tt), w).
Proof.
  intros Hp Hlock. cbn [sendRecipientAssets_wait]. run_monad.
  destruct (_ <? LockInterval C); [|done].
  rewrite (RetrieveProject_Some _ _ _ Hp). run_monad.
  by rewrite Hlock.
Qed.

(** C5 (amended). When the pipeline finds the lock open, it ends, and
    the only transfer into escrow it can make is of [TotalValue]: the seed
    surplus [SeedMoneyRaised] is not part of it.  When it succeeds that
    transfer was made, the stored project has [BalLeft] equal to
    [TotalValue + SeedMoneyRaised] and is at stage 5, and the payback
    monitor was started last. *)
Theorem sendRecipientAssets_unlocked fuel projIndex w p r w' :
  projects w !! projIndex = Some p →
  Lock p = false →
  sendRecipientAssets C E (S fuel) projIndex w = (r, w') →
  r ≠ Ok None
  ∧ ∃ new : list Event,
      trace w' = trace w ++ new
      ∧ (escrow_transfers new = [] ∨ escrow_transfers new = [TotalValue p])
      ∧ (r = Ok (Some tt) →
         escrow_transfers new = [TotalValue p]
         ∧ last new = Some (Go (Task_monitorPaybacks (RecipientIndex p)
                                  (Index p)))
         ∧ ∃ p', projects w' !! Index p = Some p'
                 ∧ BalLeft p' = (TotalValue p + SeedMoneyRaised p)%float
                 ∧ Stage p' = 5).
Proof.
  intros Hp Hlock. unfold sendRecipientAssets, updateProjectAfterAcceptance.
  run_monad. rewrite (RetrieveProject_Some _ _ _ Hp). run_monad.
  rewrite (sendRecipientAssets_wait_unlocked _ _ _ _ _ Hp Hlock).
  rewrite (RetrieveProject_Some _ _ _ Hp). run_monad.
  destruct (RetrieveRecipient E w _) as [recipient [e|]]; run_monad.
  { intros [= <- <-]. split; [done|]. exists []. rewrite app_nil_r.
    split; [done|]. split; [by left|done]. }
  destruct (wallet_DecryptSeed E _ _) as [recpSeed [e|]]; run_monad.
  { intros [= <- <-]. split; [done|]. exists []. rewrite app_nil_r.
    split; [done|]. split; [by left|done]. }
  destruct (call_error E w _) as [e|]; run_monad.
  { intros [= <- <-]. split; [done|]. eexists [_]. cbn.
    split; [done|]. split; [by left|done]. }
  destruct (call_error E _ (escrow_TransferFundsToEscrow _ _ _)) as [e|];
    run_monad.
  { intros [= <- <-]. split; [done|]. eexists [_; _]. cbn.
    rewrite <- app_assoc. split; [done|]. split; [by right|done]. }
  destruct (call_error E _ (Call_MunibondReceive _ _ _ _ _ _ _ _)) as [e|];
    run_monad.
  { intros [= <- <-]. split; [done|]. eexists [_; _; _]. cbn.
    rewrite <- !app_assoc. split; [done|]. split; [by right|done]. }
  destruct (Save_error E _ _) as [e|]; run_monad.
  { intros [= <- <-]. split; [done|]. eexists [_; _; _]. cbn.
    rewrite <- !app_assoc. split; [done|]. split; [by right|done]. }
  intros [= <- <-]. split; [done|]. eexists [_; _; _; _]. cbn.
  rewrite <- !app_assoc. split; [done|]. split; [by right|].
  intros _. split; [done|]. split; [done|].
  eexists. split; [apply lookup_insert_eq|]. done.
Qed.

(** ** Recomputation of the investor map *)

Lemma set_InvestorMap_same p : set_InvestorMap (InvestorMap p) p = p.
Proof. by destruct p. Qed.

(** The loop is the fold [recomputed_map], unless an investor cannot be
    retrieved; it makes no call and stores nothing. *)
Lemma updateAfterInvestment_loop_fold (E0 : Env) indices p w :
  updateAfterInvestment_loop E0 indices p w
  = (match retrieval_error E0 w indices with
     | Some e => Err ("error while retrieving investors, quitting" +:+ ": " +:+ e)
     | None =>
         Ok (set_InvestorMap (recomputed_map E0 w p indices (InvestorMap p)) p)
     end, w).
Proof.
  revert p. induction indices as [|i rest IH]; intros p.
  - cbn. unfold ret. by rewrite set_InvestorMap_same.
  - cbn [updateAfterInvestment_loop retrieval_error]. run_monad.
    destruct (RetrieveInvestor E0 w i) as [investor [e|]] eqn:Hinv;
      run_monad; [done|].
    rewrite IH. cbn [InvestorMap set_InvestorMap].
    destruct (retrieval_error E0 w rest); [done|].
    unfold recomputed_map at 2. cbn [foldl].
    unfold investor_pubkey at 3 4. rewrite Hinv. cbn [fst].
    reflexivity.
Qed.

(** What the fold records: the share of every public key met, and the
    old entry of every other key. *)
Lemma recomputed_map_lookup (E0 : Env) w p indices (m : gmap string float) k :
  recomputed_map E0 w p indices m !! k
  = if decide (k ∈ map (investor_pubkey E0 w) indices)
    then Some (recorded_share E0 w p k) else m !! k.
Proof.
  unfold recomputed_map. revert m.
  induction indices as [|i rest IH]; intros m; cbn [foldl map].
  - rewrite decide_False; [done|apply not_elem_of_nil].
  - rewrite IH. destruct (decide (k = investor_pubkey E0 w i)) as [->|Hne].
    + rewrite lookup_insert_eq.
      rewrite (decide_True (P := _ ∈ _ :: _)) by apply list_elem_of_here.
      by destruct (decide _).
    + rewrite lookup_insert_ne by done.
      destruct (decide (k ∈ map (investor_pubkey E0 w) rest)) as [Hin|Hnin].
      * rewrite decide_True; [done|by apply list_elem_of_further].
      * rewrite decide_False; [done|]. by apply not_elem_of_cons.
Qed.

Lemma retrieval_error_with_balance (E0 : Env) g w indices :
  retrieval_error (with_balance E0 g) w indices = retrieval_error E0 w indices.
Proof. induction indices as [|i rest IH]; [done|]. cbn. by rewrite IH. Qed.

(** C8 (amended). A balance query that fails counts as a balance of 0 for
    that query alone, and never ends the recomputation: the share
    recorded for an investor is [(balance1 + balance2) / TotalValue] with
    0 in place of each balance whose query failed.  The answers to the
    balance queries of one public key [pk] do not reach the others: with
    those answers replaced by any others, the recomputation fails on the
    same investor-record error or succeeds alike, and records the same
    share for every public key but [pk]. *)
Theorem recomputation_isolates_balance_failures
    (g : World → string → string → float * option error) pk indices p w :
  (∀ w' k a, k ≠ pk → g w' k a = xlm_GetAssetBalance E w' k a) →
  ∃ r r',
    updateAfterInvestment_loop E indices p w = (r, w)
    ∧ updateAfterInvestment_loop (with_balance E g) indices p w = (r', w)
    ∧ match r, r' with
      | Ok p1, Ok p2 =>
          retrieval_error E w indices = None
          ∧ (∀ k, k ≠ pk → InvestorMap p2 !! k = InvestorMap p1 !! k)
          ∧ (∀ i, i ∈ indices →
               InvestorMap p1 !! investor_pubkey E w i
               = Some (recorded_share E w p (investor_pubkey E w i)))
      | Err e1, Err e2 => e1 = e2 ∧ retrieval_error E w indices ≠ None
      | _, _ => False
      end.
Proof.
  intros Hg. do 2 eexists.
  split; [apply updateAfterInvestment_loop_fold|].
  split; [apply updateAfterInvestment_loop_fold|].
  rewrite retrieval_error_with_balance.
  destruct (retrieval_error E w indices) as [e|]; [done|].
  split; [done|]. cbn [InvestorMap set_InvestorMap]. split.
  - intros k Hk. rewrite !recomputed_map_lookup.
    change (investor_pubkey (with_balance E g) w) with (investor_pubkey E w).
    destruct (decide _); [|done].
    unfold recorded_share. cbn [with_balance xlm_GetAssetBalance].
    by rewrite !Hg.
  - intros i Hi. rewrite recomputed_map_lookup.
    rewrite decide_True; [done|]. by apply list_elem_of_fmap_2.
Qed.

(** ** The payback monitor *)

Lemma emits_call (P : Event → Prop) ev : P ev → emits P (call E ev).
Proof.
  intros Hev w r w' [= <- <-]. exists [ev]. split; [done|].
  by apply Forall_singleton.
Qed.

(** The first-loss cover only adds a transfer of the guarantor. *)
Lemma CoverFirstLoss_emits projIndex entityIndex amount :
  emits (fun ev => event_band ev = Some Disconnection)
    (CoverFirstLoss C E projIndex entityIndex amount).
Proof.
  unfold CoverFirstLoss.
  apply emits_bind; [apply emits_check, emits_ask|]. intros project.
  apply emits_bind; [apply emits_check, emits_ask|]. intros entity.
  destruct (negb _); [apply emits_fail|].
  apply emits_bind; [apply emits_check, emits_ret|]. intros seed.
  destruct (negb _);
    (apply emits_bind; [by apply emits_check, emits_call|]);
    intros _; apply emits_ret.
Qed.

Lemma monitorPaybacks_stern_loop_emits indices projIndex :
  emits (in_band SternReminder) (monitorPaybacks_stern_loop E indices projIndex).
Proof.
  induction indices as [|i rest IH]; cbn [monitorPaybacks_stern_loop].
  - apply emits_ret.
  - apply emits_bind; [apply emits_ask|]. intros r.
    apply emits_bind; [|by intros _].
    destruct (snd r); [apply emits_ret|].
    destruct (Notification _); [|apply emits_ret].
    apply emits_emit. by right.
Qed.

Lemma monitorPaybacks_disconnection_loop_emits indices projIndex :
  emits (in_band Disconnection)
    (monitorPaybacks_disconnection_loop C E indices projIndex).
Proof.
  induction indices as [|i rest IH]; cbn [monitorPaybacks_disconnection_loop].
  - apply emits_ret.
  - apply emits_bind; [apply emits_ask|]. intros r.
    apply emits_bind; [|by intros _].
    destruct (snd r); [by apply emits_Sleep; left|].
    destruct (Notification _); [|apply emits_ret].
    apply emits_emit. by right.
Qed.

(** The chain only makes the calls of the band it selects. *)
Lemma monitorPaybacks_escalate_emits project recipient guarantor factor projIndex :
  emits (in_band (escalation_band C factor))
    (monitorPaybacks_escalate C E project recipient guarantor factor projIndex).
Proof.
  unfold monitorPaybacks_escalate.
  destruct (escalation_band C factor).
  - apply emits_ret.
  - apply emits_bind; [by apply emits_emit; right|]. intros _.
    apply emits_bind; [by apply emits_Sleep; left|]. intros _.
    apply emits_ret.
  - apply emits_bind; [by apply emits_emit; right|]. intros _.
    apply emits_bind; [apply monitorPaybacks_stern_loop_emits|]. intros _.
    apply emits_bind; [by apply emits_emit; right|]. intros _.
    apply emits_bind; [by apply emits_Sleep; left|]. intros _.
    apply emits_ret.
  - apply emits_bind; [apply monitorPaybacks_disconnection_loop_emits|].
    intros _.
    apply emits_bind; [by apply emits_emit; right|]. intros _.
    apply emits_bind.
    { apply emits_catch.
      eapply emits_mono; [|apply CoverFirstLoss_emits]. by right. }
    intros [e|]; [|apply emits_ret].
    apply emits_bind; [by apply emits_Sleep; left|]. intros _.
    apply emits_ret.
  - apply emits_ret.
Qed.

(** A sleep after a failed retrieval belongs to no band, and the
    round goes on after it. *)
Lemma sleep_on_error_run (err : option error) w r w' :
  (match err with
   | Some _ => Sleep (OneWeekInSecond C)
   | None => ret tt
   end) w = (r, w') →
  r = Ok tt ∧ ∃ new, trace w' = trace w ++ new
                     ∧ Forall (fun ev => event_band ev = None) new.
Proof.
  destruct err; intros [= <- <-]; (split; [done|]).
  - exists [time_Sleep (OneWeekInSecond C)]. split; [done|].
    by apply Forall_singleton.
  - exists []. by rewrite app_nil_r.
Qed.

(** Every round of the monitor makes the calls of one band only: the one
    the chain selects for the factor of the round. *)
Lemma monitorPaybacks_cycle_one_band recpIndex projIndex w r w' :
  monitorPaybacks_cycle C E recpIndex projIndex w = (r, w') →
  ∃ now new,
    trace w' = trace w ++ new
    ∧ Forall (in_band (escalation_band C
                         (payback_factor C (fst (RetrieveProject w projIndex))
                            now))) new.
Proof.
  unfold monitorPaybacks_cycle. intros H.
  apply bind_inv in H as [(rp & w1 & [= <- <-] & H)|(e & [=] & _)].
  apply bind_inv in H as [(u1 & w2 & H1 & H)|(e & H1 & _)];
    apply sleep_on_error_run in H1 as [? (n1 & E1 & F1)]; [|done].
  apply bind_inv in H as [(rr & w3 & [= <- <-] & H)|(e & [=] & _)].
  apply bind_inv in H as [(u2 & w4 & H2 & H)|(e & H2 & _)];
    apply sleep_on_error_run in H2 as [? (n2 & E2 & F2)]; [|done].
  apply bind_inv in H as [(rg & w5 & [= <- <-] & H)|(e & [=] & _)].
  apply bind_inv in H as [(u3 & w6 & H3 & H)|(e & H3 & _)];
    apply sleep_on_error_run in H3 as [? (n3 & E3 & F3)]; [|done].
  apply bind_inv in H as [(now & w7 & [= <- <-] & H)|(e & [=] & _)].
  apply bind_inv in H as [(bill & w8 & [= <- <-] & H)|(e & [=] & _)].
  set (b := escalation_band C
              (payback_factor C (fst (RetrieveProject w projIndex))
                 (utils_Unix w6))).
  assert (Hrest : ∃ n4, trace w' = trace w6 ++ n4 ∧ Forall (in_band b) n4).
  { revert H. apply emits_bind.
    - apply monitorPaybacks_escalate_emits.
    - intros [|]; [apply emits_ret|by apply emits_Sleep; left]. }
  destruct Hrest as (n4 & E4 & F4).
  exists (utils_Unix w6), (n1 ++ n2 ++ n3 ++ n4).
  rewrite E4, E3, E2, E1, <- !app_assoc. split; [done|].
  repeat apply Forall_app_2; try done;
    (eapply Forall_impl; [eassumption|]); by left.
Qed.

(** C9 (amended). In every round of the payback monitor the calls made
    belong to one band only, the one the [if] / [else if] chain selects
    for the factor of the round: the bands exclude one another for every
    setting of the thresholds.  A factor of at most 1 is on track.  A
    factor above 1 is never on track and is in the first of the gentle,
    stern and disconnection bands whose condition holds, and in no band
    when none holds: the bands do not cover every factor above 1.  In
    particular a factor above 1 that is at least [AlertThreshold] and
    below both [SternAlertThreshold] and [DisconnectionThreshold]
    triggers nothing. *)
Theorem escalation_one_band_with_gaps :
  (∀ recpIndex projIndex w r w',
     monitorPaybacks_cycle C E recpIndex projIndex w = (r, w') →
     ∃ now new,
       trace w' = trace w ++ new
       ∧ Forall (in_band (escalation_band C
                            (payback_factor C
                               (fst (RetrieveProject w projIndex)) now))) new)
  ∧ (∀ factor, (factor <=? 1)%float = true →
       escalation_band C factor = OnTrack)
  ∧ (∀ factor, (1 <? factor)%float = true →
       match escalation_band C factor with
       | OnTrack => False
       | GentleReminder => gentle_band C factor = true
       | SternReminder =>
           gentle_band C factor = false ∧ stern_band C factor = true
       | Disconnection =>
           gentle_band C factor = false ∧ stern_band C factor = false
           ∧ disconnection_band C factor = true
       | NoBand =>
           gentle_band C factor = false ∧ stern_band C factor = false
           ∧ disconnection_band C factor = false
       end)
  ∧ (∀ factor,
       (1 <? factor)%float = true →
       (AlertThreshold C <=? factor)%float = true →
       (factor <? SternAlertThreshold C)%float = true →
       (factor <? DisconnectionThreshold C)%float = true →
       escalation_band C factor = NoBand).
Proof.
  split; [exact monitorPaybacks_cycle_one_band|]. split; [|split].
  - intros factor H. unfold escalation_band, on_track. by rewrite H.
  - intros factor H. unfold escalation_band, on_track.
    rewrite (float_ltb_not_leb _ _ H).
    by destruct (gentle_band C factor), (stern_band C factor),
      (disconnection_band C factor).
  - intros factor H1 Ha Hs Hd.
    unfold escalation_band, on_track, gentle_band, stern_band,
      disconnection_band.
    rewrite (float_ltb_not_leb _ _ H1), (float_leb_not_ltb _ _ Ha),
      (float_ltb_not_leb _ _ Hs), (float_ltb_not_leb _ _ Hd).
    by rewrite andb_false_r.
Qed.

(** ** The funding-complete trigger *)

Lemma record_investment_Index p invAmount invIndex seed :
  Index (record_investment p invAmount invIndex seed) = Index p.
Proof. unfold record_investment. by destruct seed. Qed.

Lemma record_investment_TotalValue p invAmount invIndex seed :
  TotalValue (record_investment p invAmount invIndex seed) = TotalValue p.
Proof. unfold record_investment. by destruct seed. Qed.

Lemma record_investment_RecipientIndex p invAmount invIndex seed :
  RecipientIndex (record_investment p invAmount invIndex seed)
  = RecipientIndex p.
Proof. unfold record_investment. by destruct seed. Qed.

Lemma record_investment_MoneyRaised p invAmount invIndex seed :
  MoneyRaised (record_investment p invAmount invIndex seed)
  = (MoneyRaised p + invAmount)%float.
Proof. unfold record_investment. by destruct seed. Qed.

(** The notification of the recipient: found at once; or found at the
    second lookup, after a mail to the admin and a sleep of
    [consts.OneHour]; or not found twice, which is an error. *)
Lemma sendRecipientNotification_run project w r w' :
  sendRecipientNotification C E project w = (r, w') →
  let idx := Index project in
  let ridx := RecipientIndex project in
  projects w' = projects w
  ∧ ((∃ email, r = Ok tt
               ∧ trace w' = trace w
                            ++ [notif_SendUnlockNotifToRecipient idx email])
     ∨ (∃ email, r = Ok tt
                 ∧ trace w' = trace w
                              ++ [notif_SendRecpNotFoundEmail idx ridx;
                                  time_Sleep (OneHour C);
                                  notif_SendUnlockNotifToRecipient idx email])
     ∨ (∃ e, r = Err e
             ∧ trace w' = trace w
                          ++ [notif_SendRecpNotFoundEmail idx ridx;
                              time_Sleep (OneHour C)])).
Proof.
  unfold sendRecipientNotification. run_monad.
  destruct (RetrieveRecipient E w _) as [recipient [e|]]; run_monad.
  - match goal with
    | |- context [RetrieveRecipient E ?w0 ?i] =>
        destruct (RetrieveRecipient E w0 i) as [recipient2 [e2|]]
    end; run_monad; intros [= <- <-]; cbn [projects trace log_event];
      rewrite <- ?app_assoc; cbn [app]; (split; [done|]).
    + right; right. eauto.
    + right; left. eauto.
  - intros [= <- <-]. cbn [projects trace log_event]. split; [done|].
    left. eauto.
Qed.

(** C2 (amended), the update step.  When the amount just invested makes
    [MoneyRaised] equal to [TotalValue], [updateAfterInvestment] stores
    the project with [Lock] set, notifies the recipient and then starts
    the escrow-release pipeline, once: either the recipient is found and
    notified; or the admin is mailed, the step sleeps [consts.OneHour],
    looks the recipient up once more and notifies; or that second lookup
    fails as well, the error is returned and the pipeline is not started.
    No call is made when a store fails before, or when [MoneyRaised]
    differs from [TotalValue]. *)
Lemma updateAfterInvestment_trigger project invAmount invIndex seed w r w' :
  updateAfterInvestment C E project invAmount invIndex seed w = (r, w') →
  let idx := Index project in
  let ridx := RecipientIndex project in
  let start := Go (Task_sendRecipientAssets idx) in
  ∃ new,
    trace w' = trace w ++ new
    ∧ if ((MoneyRaised project + invAmount)%float =? TotalValue project)%float
      then
        (new = [] ∧ ∃ e, r = Err e)
        ∨ ((∃ p', projects w' !! idx = Some p' ∧ Lock p' = true
                  ∧ MoneyRaised p' = (MoneyRaised project + invAmount)%float
                  ∧ TotalValue p' = TotalValue project)
           ∧ ((∃ email,
                 new = [notif_SendUnlockNotifToRecipient idx email; start])
              ∨ (∃ email,
                   new = [notif_SendRecpNotFoundEmail idx ridx;
                          time_Sleep (OneHour C);
                          notif_SendUnlockNotifToRecipient idx email; start])
              ∨ (new = [notif_SendRecpNotFoundEmail idx ridx;
                        time_Sleep (OneHour C)]
                 ∧ ∃ e, r = Err e)))
      else new = [].
Proof.
  pose proof (record_investment_Index project invAmount invIndex seed) as Hidx.
  pose proof (record_investment_TotalValue project invAmount invIndex seed) as Htv.
  pose proof (record_investment_RecipientIndex project invAmount invIndex seed) as Hri.
  pose proof (record_investment_MoneyRaised project invAmount invIndex seed) as Hmr.
  unfold updateAfterInvestment.
  set (p1 := record_investment project invAmount invIndex seed) in *.
  run_monad. rewrite Hmr, Htv.
  destruct (Save_error E w p1) as [e|]; run_monad.
  { intros [= <- <-]. exists []. rewrite app_nil_r. split; [done|].
    destruct (_ =? _)%float; [left|]; eauto. }
  destruct (_ =? _)%float eqn:Hfull; run_monad.
  2: { rewrite updateAfterInvestment_loop_fold. cbn [projects].
       destruct (retrieval_error E _ _); run_monad.
       - intros [= <- <-]. exists []. by rewrite app_nil_r.
       - destruct (Save_error E _ _); run_monad;
           intros [= <- <-]; exists []; by rewrite app_nil_r. }
  destruct (Save_error E _ (set_Lock true p1)) as [e|]; run_monad.
  { intros [= <- <-]. exists []. rewrite app_nil_r. split; [done|].
    left; eauto. }
  cbn [Index set_Lock]. rewrite Hidx.
  assert (Hlocked : ∀ (m : gmap string float) (db : gmap Z Project),
    ∃ p', <[Index project := set_InvestorMap m (set_Lock true p1)]> db
            !! Index project = Some p'
          ∧ Lock p' = true
          ∧ MoneyRaised p' = (MoneyRaised project + invAmount)%float
          ∧ TotalValue p' = TotalValue project).
  { intros m db. eexists. split; [apply lookup_insert_eq|]. cbn. done. }
  assert (Hlocked0 : ∀ (db : gmap Z Project),
    ∃ p', <[Index project := set_Lock true p1]> db !! Index project = Some p'
          ∧ Lock p' = true
          ∧ MoneyRaised p' = (MoneyRaised project + invAmount)%float
          ∧ TotalValue p' = TotalValue project).
  { intros db. eexists. split; [apply lookup_insert_eq|]. cbn. done. }
  destruct (sendRecipientNotification C E _ _) as [rn wn] eqn:Hn.
  apply sendRecipientNotification_run in Hn as [Hproj Hn].
  cbn [Index RecipientIndex set_Lock projects trace] in Hproj, Hn.
  rewrite Hidx, Hri in Hn.
  destruct Hn as [(email & -> & Htr)|[(email & -> & Htr)|(en & -> & Htr)]].
  3: { intros [= <- <-]. eexists. split; [exact Htr|]. right.
       rewrite Hproj. split; [done|]. right; right. eauto. }
  all: run_monad; rewrite updateAfterInvestment_loop_fold;
    cbn [Index set_Lock projects trace];
    (destruct (retrieval_error E _ _); run_monad;
     [|cbn [Index set_InvestorMap set_Lock]; rewrite Hidx, Hproj;
       rewrite ?insert_insert_eq; destruct (Save_error E _ _); run_monad]);
    intros [= <- <-]; cbn [projects trace log_event];
    rewrite ?Hproj, Htr, <- app_assoc;
    (eexists; split; [reflexivity|]); right; (split; [done|]).
  all: cbn [app]; eauto.
Qed.

(** ** What an investment may change *)

Section Confined.

Variable j : Z.
Variable T : float.

Lemma touches_only_refl w : touches_only j w w.
Proof. by intros k _. Qed.

Lemma touches_only_trans w1 w2 w3 :
  touches_only j w1 w2 → touches_only j w2 w3 → touches_only j w1 w3.
Proof. intros H12 H23 k Hk. by rewrite H23, H12. Qed.

Lemma confined_pure {A} (P : Event → Prop) (c : M A) :
  (∀ w, ∃ r, c w = (r, w)) → confined j T P c.
Proof.
  intros Hc w r w' Hslot Hrun. destruct (Hc w) as [r0 Hr0].
  rewrite Hr0 in Hrun. injection Hrun as <- <-.
  split; [done|]. split; [apply touches_only_refl|].
  exists []. by rewrite app_nil_r.
Qed.

Lemma confined_ret {A} (P : Event → Prop) (a : A) : confined j T P (ret a).
Proof. apply confined_pure. intros w. by eexists. Qed.

Lemma confined_fail {A} (P : Event → Prop) e : confined j T P (@fail A e).
Proof. apply confined_pure. intros w. by eexists. Qed.

Lemma confined_ask {A} (P : Event → Prop) (f : World → A) :
  confined j T P (ask f).
Proof. apply confined_pure. intros w. by eexists. Qed.

Lemma confined_returning {A} (P : Event → Prop) (v : A) err :
  confined j T P (returning v err).
Proof. destruct err; [apply confined_fail|apply confined_ret]. Qed.

Lemma confined_bind {A B} (P : Event → Prop) (Q : A → Prop)
    (c : M A) (k : A → M B) :
  confined j T P c → returns j T Q c → (∀ a, Q a → confined j T P (k a)) →
  confined j T P (bind c k).
Proof.
  intros Hc HQ Hk w r w' Hslot. unfold bind.
  destruct (c w) as [[a|e] w1] eqn:Hcw.
  - intros Hkw. destruct (Hc _ _ _ Hslot Hcw) as (S1 & F1 & new1 & E1 & P1).
    destruct (Hk a (HQ _ _ _ Hslot Hcw) _ _ _ S1 Hkw)
      as (S2 & F2 & new2 & E2 & P2).
    split; [done|]. split; [by eapply touches_only_trans|].
    exists (new1 ++ new2). rewrite E2, E1, app_assoc. split; [done|].
    by apply Forall_app.
  - intros [= <- <-]. by apply (Hc _ _ _ Hslot Hcw).
Qed.

Lemma returns_any {A} (c : M A) : returns j T (fun _ => True) c.
Proof. by intros w a w' _ _. Qed.

(** Sequencing when nothing is needed of the value. *)
Lemma confined_seq {A B} (P : Event → Prop) (c : M A) (k : A → M B) :
  confined j T P c → (∀ a, confined j T P (k a)) → confined j T P (bind c k).
Proof.
  intros Hc Hk. apply (confined_bind P (fun _ => True)); [done| |by intros].
  apply returns_any.
Qed.

Lemma confined_check {A} (P : Event → Prop) (c : M (A * option error)) msg :
  confined j T P c → confined j T P (check c msg).
Proof.
  intros Hc. apply confined_seq; [done|]. intros r.
  destruct (errors_Wrap _ _); [apply confined_fail|apply confined_ret].
Qed.

Lemma confined_wrapped {A} (P : Event → Prop) (c : M A) msg :
  confined j T P c → confined j T P (wrapped c msg).
Proof.
  intros Hc w r w' Hslot. unfold wrapped.
  destruct (c w) as [[a|e] w1] eqn:Hcw; intros [= <- <-];
    by apply (Hc _ _ _ Hslot Hcw).
Qed.

Lemma confined_log {A} (P : Event → Prop) ev (f : World → result A) :
  P ev → confined j T P (fun w => (f w, log_event ev w)).
Proof.
  intros Hev w r w' Hslot [= <- <-].
  split; [exact Hslot|]. split; [by intros k _|].
  exists [ev]. split; [done|]. by apply Forall_singleton.
Qed.

Lemma confined_emit (P : Event → Prop) ev : P ev → confined j T P (emit ev).
Proof. intros Hev. by apply (confined_log P ev (fun _ => Ok tt)). Qed.

Lemma confined_Sleep (P : Event → Prop) d :
  P (time_Sleep d) → confined j T P (Sleep d).
Proof.
  intros Hev w r w' Hslot [= <- <-].
  split; [exact Hslot|]. split; [by intros k _|].
  exists [time_Sleep d]. split; [done|]. by apply Forall_singleton.
Qed.

Lemma confined_mono {A} (P Q : Event → Prop) (c : M A) :
  (∀ ev, P ev → Q ev) → confined j T P c → confined j T Q c.
Proof.
  intros HPQ Hc w r w' Hslot Hcw.
  destruct (Hc _ _ _ Hslot Hcw) as (S1 & F1 & new & E1 & Hnew).
  split; [done|]. split; [done|].
  exists new. split; [done|]. by eapply Forall_impl.
Qed.

End Confined.

Lemma confined_call j T (P : Event → Prop) ev :
  P ev → confined j T P (call E ev).
Proof.
  intros Hev. by apply (confined_log j T P ev (fun w => Ok (tt, call_error E w ev))).
Qed.

(** A store of a project of the slot stays in the slot. *)
Lemma confined_Save j T (P : Event → Prop) q :
  Index q = j → TotalValue q = T → confined j T P (Save E q).
Proof.
  intros Hj HT w r w' Hslot. unfold Save.
  destruct (Save_error E w q); intros [= <- <-].
  - split; [done|]. split; [apply touches_only_refl|].
    exists []. by rewrite app_nil_r.
  - unfold project_slot, touches_only. cbn [projects trace]. rewrite Hj.
    split; [|split].
    + intros p. rewrite lookup_insert_eq. by intros [= <-].
    + intros k Hk. by rewrite lookup_insert_ne.
    + exists []. by rewrite app_nil_r.
Qed.

(** A project loaded from the slot has its index and total value. *)
Lemma returns_RetrieveProject j T msg :
  returns j T (fun p => Index p = j ∧ TotalValue p = T)
    (check (ask (fun w => RetrieveProject w j)) msg).
Proof.
  intros w p w' Hslot. unfold check, RetrieveProject. run_monad.
  destruct (projects w !! j) as [q|] eqn:Hq; run_monad; [|done].
  intros [= <- <-]. by apply Hslot.
Qed.

Lemma pipeline_starts_app i l1 l2 :
  pipeline_starts i (l1 ++ l2) = (pipeline_starts i l1 + pipeline_starts i l2)%nat.
Proof. unfold pipeline_starts. by rewrite List.filter_app, length_app. Qed.

Lemma pipeline_starts_no_go i l : Forall no_go l → pipeline_starts i l = 0%nat.
Proof.
  unfold pipeline_starts. induction 1 as [|ev l Hev _ IH]; [done|].
  cbn [List.filter]. destruct ev; first [done | discriminate Hev].
Qed.

(** The pre-investment check starts no task and keeps the project in its
    slot. *)
Lemma preInvestmentCheck_confined T projIndex invIndex invAmount seed :
  confined projIndex T no_go
    (preInvestmentCheck C E projIndex invIndex invAmount seed).
Proof.
  unfold preInvestmentCheck.
  eapply confined_bind;
    [apply confined_check, confined_ask|apply returns_RetrieveProject|].
  intros project [Hidx HT].
  apply confined_seq; [apply confined_check, confined_ask|]. intros investor.
  apply confined_seq; [apply confined_ask|]. intros can.
  destruct (negb can); [apply confined_fail|].
  apply confined_seq; [apply confined_check, confined_ret|]. intros pubkey.
  apply confined_seq; [apply confined_ask|]. intros acc.
  destruct (negb acc); [apply confined_fail|].
  destruct (_ <? invAmount)%float; [apply confined_fail|].
  destruct (_ || _).
  - destruct (_ && _); [|apply confined_ret].
    apply confined_seq; [by apply confined_check, confined_Save|]. intros _.
    apply confined_seq; [by apply confined_check, confined_call|]. intros _.
    apply confined_seq; [by apply confined_check, confined_call|]. intros _.
    apply confined_ret.
  - destruct (_ =? _)%string; apply confined_returning.
Qed.

(** The project the check returns is the one of the slot. *)
Lemma preInvestmentCheck_returns T projIndex invIndex invAmount seed :
  returns projIndex T (fun p => Index p = projIndex ∧ TotalValue p = T)
    (preInvestmentCheck C E projIndex invIndex invAmount seed).
Proof.
  intros w q w' Hslot. unfold preInvestmentCheck, RetrieveProject. run_monad.
  destruct (projects w !! projIndex) as [p|] eqn:Hp; run_monad; [|done].
  destruct (Hslot _ Hp) as [Hidx HT].
  destruct (RetrieveInvestor E w invIndex) as [investor [e|]]; run_monad;
    [done|].
  destruct (CanInvest E w investor invAmount); run_monad; [|done].
  destruct (wallet_ReturnPubkey E seed) as [pubkey [e|]]; run_monad; [done|].
  destruct (xlm_AccountExists E w pubkey); run_monad; [|done].
  destruct (_ <? invAmount)%float; [done|].
  destruct (_ || _).
  - destruct (_ && _); [|by intros [= <- <-]].
    destruct (Save_error E w _); run_monad; [done|].
    destruct (call_error E _ _); run_monad; [done|].
    destruct (call_error E _ _); run_monad; [done|].
    by intros [= <- <-].
  - destruct (_ =? _)%string; by intros [= <- <-].
Qed.

(** The update after an investment stores the project in its slot only. *)
Lemma updateAfterInvestment_confined project invAmount invIndex seed :
  confined (Index project) (TotalValue project) (fun _ => True)
    (updateAfterInvestment C E project invAmount invIndex seed).
Proof.
  pose proof (record_investment_Index project invAmount invIndex seed) as Hidx.
  pose proof (record_investment_TotalValue project invAmount invIndex seed) as Htv.
  unfold updateAfterInvestment, sendRecipientNotification.
  set (p1 := record_investment project invAmount invIndex seed) in *.
  cbv zeta.
  apply confined_seq; [by apply confined_check, confined_Save|]. intros _.
  eapply (confined_bind _ _ _
            (fun q => Index q = Index project ∧ TotalValue q = TotalValue project)).
  - destruct (_ =? _)%float; [|apply confined_ret].
    apply confined_seq; [by apply confined_check, confined_Save|]. intros _.
    apply confined_seq.
    { apply confined_wrapped.
      apply confined_seq; [apply confined_ask|]. intros r.
      apply confined_seq; [|intros recipient; by apply confined_emit].
      destruct (snd r); [|apply confined_ret].
      apply confined_seq; [by apply confined_emit|]. intros _.
      apply confined_seq; [by apply confined_Sleep|]. intros _.
      apply confined_check, confined_ask. }
    intros _.
    apply confined_seq; [by apply confined_emit|]. intros _.
    apply confined_ret.
  - intros w0 q w0' _. destruct (_ =? _)%float.
    + run_monad. destruct (Save_error E w0 _); run_monad; [done|].
      destruct (RetrieveRecipient E _ _) as [rc [e|]]; run_monad.
      * destruct (RetrieveRecipient E _ _) as [rc2 [e2|]]; run_monad; [done|].
        by intros [= <- <-].
      * by intros [= <- <-].
    + by intros [= <- <-].
  - intros q [Hq1 Hq2].
    eapply (confined_bind _ _ _
              (fun q' => Index q' = Index project
                         ∧ TotalValue q' = TotalValue project)).
    + apply confined_pure. intros w0. rewrite updateAfterInvestment_loop_fold.
      by eexists.
    + intros w0 q' w0' _. rewrite updateAfterInvestment_loop_fold.
      destruct (retrieval_error E w0 _); [done|]. by intros [= <- <-].
    + intros q' [Hq1' Hq2'].
      apply confined_seq; [by apply confined_check, confined_Save|].
      intros _. apply confined_ret.
Qed.

(** A step that starts no task, then one that starts the pipeline at most
    once. *)
Lemma starts_once_bind {A B} i j T (Q : A → Prop) (c : M A) (k : A → M B) :
  confined j T no_go c → returns j T Q c →
  (∀ a, Q a → starts_once i j T (k a)) →
  starts_once i j T (bind c k).
Proof.
  intros Hc HQ Hk w r w' Hslot. unfold bind.
  destruct (c w) as [[a|e] w1] eqn:Hcw.
  - intros Hkw. destruct (Hc _ _ _ Hslot Hcw) as (S1 & F1 & new1 & E1 & P1).
    destruct (Hk a (HQ _ _ _ Hslot Hcw) _ _ _ S1 Hkw)
      as (S2 & F2 & new2 & E2 & P2).
    split; [done|]. split; [by eapply touches_only_trans|].
    exists (new1 ++ new2). rewrite E2, E1, app_assoc. split; [done|].
    by rewrite pipeline_starts_app, (pipeline_starts_no_go _ _ P1).
  - intros [= <- <-].
    destruct (Hc _ _ _ Hslot Hcw) as (S1 & F1 & new1 & E1 & P1).
    split; [done|]. split; [done|]. exists new1. split; [done|].
    left. by apply pipeline_starts_no_go.
Qed.

Lemma starts_once_seq {A B} i j T (c : M A) (k : A → M B) :
  confined j T no_go c → (∀ a, starts_once i j T (k a)) →
  starts_once i j T (bind c k).
Proof.
  intros Hc Hk.
  apply (starts_once_bind i j T (fun _ => True)); [done| |by intros].
  apply returns_any.
Qed.

Lemma starts_once_fail {A} i j T e : starts_once i j T (@fail A e).
Proof.
  intros w r w' Hslot [= <- <-]. split; [done|].
  split; [apply touches_only_refl|]. exists []. rewrite app_nil_r. by auto.
Qed.

(** The update after an investment starts the pipeline of its project at
    most once, and only with the project stored as funded. *)
Lemma updateAfterInvestment_starts_once i project invAmount invIndex seed msg :
  starts_once i (Index project) (TotalValue project)
    (wrapped (updateAfterInvestment C E project invAmount invIndex seed) msg).
Proof.
  intros w r w' Hslot Hrun. unfold wrapped in Hrun.
  destruct (updateAfterInvestment C E project invAmount invIndex seed w)
    as [r0 w0] eqn:Hupd.
  assert (w0 = w') as -> by (by destruct r0; injection Hrun).
  destruct (updateAfterInvestment_confined _ _ _ _ _ _ _ Hslot Hupd)
    as (S1 & F1 & _).
  split; [done|]. split; [done|].
  destruct (updateAfterInvestment_trigger _ _ _ _ _ _ _ Hupd)
    as (new & Htr & Hnew).
  exists new. split; [done|].
  destruct (_ =? _)%float eqn:Hfull; [|subst new; by left].
  assert (Hstart : ∀ l, Forall no_go l →
    pipeline_starts i (l ++ [Go (Task_sendRecipientAssets (Index project))])
    = 0%nat
    ∨ (i = Index project
       ∧ pipeline_starts i
           (l ++ [Go (Task_sendRecipientAssets (Index project))]) = 1%nat)).
  { intros l Hl. rewrite pipeline_starts_app, (pipeline_starts_no_go _ _ Hl).
    unfold pipeline_starts. cbn.
    destruct (Z.eqb_spec (Index project) i) as [->|]; cbn; auto. }
  destruct Hnew as [[-> _]|[(p' & Hp' & _ & Hm & Ht) Hnew]]; [by left|].
  assert (Hfunded : funded (Index project) w').
  { exists p'. split; [done|]. by rewrite Hm, Ht. }
  destruct Hnew as [[email ->]|[[email ->]|[-> _]]].
  - destruct (Hstart [notif_SendUnlockNotifToRecipient (Index project) email])
      as [H0|[Hi H1]]; [by repeat constructor| |]; auto.
  - destruct (Hstart [notif_SendRecpNotFoundEmail (Index project)
                        (RecipientIndex project);
                      time_Sleep (OneHour C);
                      notif_SendUnlockNotifToRecipient (Index project) email])
      as [H0|[Hi H1]]; [by repeat constructor| |]; auto.
  - by left.
Qed.

(** [SeedInvest] starts the pipeline of a project at most once. *)
Lemma SeedInvest_starts_once i T projIndex invIndex invAmount invSeed :
  starts_once i projIndex T
    (SeedInvest C E projIndex invIndex invAmount invSeed).
Proof.
  unfold SeedInvest.
  eapply starts_once_bind;
    [apply confined_wrapped, preInvestmentCheck_confined| |].
  { intros w q w' Hslot Hrun. unfold wrapped in Hrun.
    destruct (preInvestmentCheck C E projIndex invIndex invAmount invSeed w)
      as [[q0|e] w0] eqn:Hpre; [|done]. injection Hrun as <- <-.
    exact (preInvestmentCheck_returns _ _ _ _ _ _ _ _ Hslot Hpre). }
  intros project [Hidx HT]. cbv beta.
  destruct (_ && _); [apply starts_once_fail|].
  destruct (negb _); [apply starts_once_fail|].
  destruct (_ <? _)%float; [apply starts_once_fail|].
  destruct (_ || _); [|apply starts_once_fail].
  apply starts_once_seq; [by apply confined_check, confined_call|]. intros _.
  rewrite <- Hidx, <- HT.
  destruct (SeedAssetCode project =? "")%string.
  - exact (updateAfterInvestment_starts_once i
             (set_SeedAssetCode "SEEDASSET" project) _ _ _ _).
  - apply (updateAfterInvestment_starts_once i).
Qed.

(** [Invest] starts the pipeline of a project at most once. *)
Lemma Invest_starts_once i T projIndex invIndex invAmount invSeed :
  starts_once i projIndex T (Invest C E projIndex invIndex invAmount invSeed).
Proof.
  unfold Invest.
  eapply starts_once_bind;
    [apply confined_wrapped, preInvestmentCheck_confined| |].
  { intros w q w' Hslot Hrun. unfold wrapped in Hrun.
    destruct (preInvestmentCheck C E projIndex invIndex invAmount invSeed w)
      as [[q0|e] w0] eqn:Hpre; [|done]. injection Hrun as <- <-.
    exact (preInvestmentCheck_returns _ _ _ _ _ _ _ _ Hslot Hpre). }
  intros project [Hidx HT]. cbv beta.
  destruct (negb _); [apply starts_once_fail|].
  destruct (_ || _); [|apply starts_once_fail].
  destruct (negb _).
  { destruct (_ || _); [apply SeedInvest_starts_once|apply starts_once_fail]. }
  apply starts_once_seq; [by apply confined_check, confined_call|]. intros _.
  rewrite <- Hidx, <- HT. apply (updateAfterInvestment_starts_once i).
Qed.

(** A project that is funded takes no further investment of a positive
    amount: the call is rejected and changes nothing. *)
Lemma Invest_funded_rejected projIndex invIndex invAmount invSeed w :
  well_formed w → funded projIndex w → (0 <? invAmount)%float = true →
  snd (Invest C E projIndex invIndex invAmount invSeed w) = w.
Proof.
  intros Hwf (p & Hp & Hfull) Hpos.
  destruct (Hwf _ _ Hp) as [_ Hfin].
  pose proof (float_funded_gap _ _ _ Hfin Hfull Hpos) as Hgap.
  destruct (preInvestmentCheck_above_gap projIndex invIndex invAmount invSeed
              w p Hp Hgap) as [e He].
  unfold Invest, bind, wrapped. by rewrite He.
Qed.

Lemma Invest_keeps_started_at_most_once i projIndex invIndex invAmount invSeed w :
  (0 <? invAmount)%float = true →
  started_at_most_once i w →
  started_at_most_once i
    (snd (Invest C E projIndex invIndex invAmount invSeed w)).
Proof.
  intros Hpos [Hwf Hstarts].
  destruct (Invest C E projIndex invIndex invAmount invSeed w) as [r w'] eqn:Hrun.
  cbn [snd].
  set (T := match projects w !! projIndex with
            | Some p => TotalValue p
            | None => 0%float
            end).
  assert (Hslot : project_slot projIndex T w).
  { intros p Hp. subst T. rewrite Hp. split; [|done]. by apply (Hwf _ _ Hp). }
  assert (HT : finite64 T = true).
  { subst T. destruct (projects w !! projIndex) as [p|] eqn:Hp; [|done].
    by apply (Hwf _ _ Hp). }
  destruct (Invest_starts_once i T _ _ _ _ _ _ _ Hslot Hrun)
    as (Hslot' & Hframe & new & Htr & Hnew).
  assert (Hwf' : well_formed w').
  { intros k p Hp. destruct (decide (k = projIndex)) as [->|Hk].
    - destruct (Hslot' _ Hp) as [? ->]. done.
    - rewrite (Hframe _ Hk) in Hp. by apply Hwf. }
  split; [done|]. rewrite Htr, pipeline_starts_app.
  destruct (decide (i = projIndex)) as [->|Hi].
  - destruct Hstarts as [H0|[H1 Hfunded]].
    + rewrite H0. destruct Hnew as [->|(_ & -> & Hf)]; auto.
    + pose proof (Invest_funded_rejected projIndex invIndex invAmount invSeed
                    w Hwf Hfunded Hpos) as Hsame.
      rewrite Hrun in Hsame. cbn [snd] in Hsame. subst w'.
      apply (f_equal (@length Event)) in Htr.
      rewrite length_app in Htr.
      assert (new = []) as -> by (destruct new; [done|cbn in Htr; lia]).
      right. by rewrite H1.
  - destruct Hnew as [->|(Hcontra & _)]; [|done].
    rewrite Nat.add_0_r. destruct Hstarts as [H0|[H1 (p & Hp & Hfull)]]; auto.
    right. split; [done|]. exists p. by rewrite (Hframe _ Hi).
Qed.

Lemma invest_all_keeps_started_at_most_once i calls w :
  Forall (fun c => (0 <? inv_invAmount c)%float = true) calls →
  started_at_most_once i w →
  started_at_most_once i (invest_all C E calls w).
Proof.
  intros Hpos. revert w. induction Hpos as [|c calls Hc _ IH]; intros w Hw.
  - done.
  - cbn [invest_all]. apply IH. by apply Invest_keeps_started_at_most_once.
Qed.


(** ** Ownership shift over paybacks *)

(** What a [Payback] call does to the stored projects: nothing, and it
    returns an error; or it stores the project it loaded, updated. *)
Lemma Payback_projects recpIndex projIndex assetName amount recipientSeed w r w' :
  Payback E recpIndex projIndex assetName amount recipientSeed w = (r, w') →
  (projects w' = projects w ∧ ∃ e, r = Err e)
  ∨ ∃ p, projects w !! projIndex = Some p
         ∧ projects w'
           = <[Index p :=
                 Payback_update p
                   (payback_pct E w p recpIndex projIndex assetName amount
                      recipientSeed)
                   amount (utils_Unix w)]> (projects w).
Proof.
  unfold Payback, DistributePayments. run_monad.
  destruct (projects w !! projIndex) as [p|] eqn:Hp;
    [rewrite (RetrieveProject_Some _ _ _ Hp)
    |rewrite (RetrieveProject_None _ _ Hp)]; run_monad;
    [|intros [= <- <-]; left; eauto].
  destruct (InvestmentType p =? "munibond")%string; run_monad;
    [|intros [= <- <-]; left; eauto].
  destruct (call_error E w _) as [e|]; [intros [= <- <-]; left; eauto|].
  destruct (Save_error E _ _) as [e|]; run_monad;
    [intros [= <- <-]; left; eauto|].
  match goal with
  | |- context [EscrowLock ?q] => destruct (EscrowLock q)
  end.
  - intros [= <- <-]. right. exists p. split; [done|].
    cbn [projects]. by rewrite Payback_update_Index.
  - rewrite DistributePayments_loop_trace.
    intros [= <- <-]. right. exists p. split; [done|].
    cbn [projects]. by rewrite Payback_update_Index.
Qed.

Lemma Payback_update_fields p pct amount now :
  let p' := Payback_update p pct amount now in
  let full := (OwnershipShift p + pct =? 1)%float in
  OwnershipShift p' = (OwnershipShift p + pct)%float
  ∧ BalLeft p'
    = (if full then 0 else BalLeft p - (1 - pct) * amount)%float
  ∧ AmountOwed p' = (if full then 0 else AmountOwed p - amount)%float.
Proof.
  unfold Payback_update. cbn.
  by destruct (_ =? 0)%float, (_ =? 1)%float.
Qed.

(** Each update adds [pct] to [OwnershipShift], which does not decrease
    it when [pct] is finite and not negative. *)
Lemma Payback_update_OwnershipShift p pct amount now :
  number64 (OwnershipShift p) = true →
  finite64 pct = true → (0 <=? pct)%float = true →
  let p' := Payback_update p pct amount now in
  OwnershipShift p' = (OwnershipShift p + pct)%float
  ∧ (OwnershipShift p <=? OwnershipShift p')%float = true
  ∧ number64 (OwnershipShift p') = true.
Proof.
  intros Hn Hf Hpos p'.
  subst p'. destruct (Payback_update_fields p pct amount now) as (Heq & _).
  rewrite Heq. split; [done|].
  by apply float_add_nonneg_le.
Qed.

(** Unless the update brings [OwnershipShift] to exactly 1, [BalLeft]
    and [AmountOwed] do not increase; when it does, both are set to 0. *)
Lemma Payback_update_balances p pct amount now :
  (0 <=? pct)%float = true → (pct <=? 1)%float = true →
  finite64 amount = true → (0 <=? amount)%float = true →
  finite64 (BalLeft p) = true → finite64 (AmountOwed p) = true →
  let p' := Payback_update p pct amount now in
  if (OwnershipShift p' =? 1)%float
  then BalLeft p' = 0%float ∧ AmountOwed p' = 0%float
  else (BalLeft p' <=? BalLeft p)%float = true
       ∧ (AmountOwed p' <=? AmountOwed p)%float = true.
Proof.
  intros Hpos Hle Hf Hamount HB HA p'.
  destruct (float_one_minus pct Hpos Hle) as [Hrest Hrestpos].
  pose proof (float_mul_nonneg _ _ Hrest Hf Hrestpos Hamount) as Hpart.
  pose proof (float_sub_nonneg_le _ _ HB Hpart) as HBal.
  pose proof (float_sub_nonneg_le _ _ HA Hamount) as HOwed.
  subst p'.
  destruct (Payback_update_fields p pct amount now) as (-> & -> & ->).
  by destruct (OwnershipShift p + pct =? 1)%float.
Qed.

Lemma Payback_keeps_indexed recpIndex projIndex assetName amount recipientSeed w :
  indexed w →
  indexed (snd (Payback E recpIndex projIndex assetName amount recipientSeed w)).
Proof.
  intros Hw.
  destruct (Payback E recpIndex projIndex assetName amount recipientSeed w)
    as [r w'] eqn:Hrun. cbn [snd].
  destruct (Payback_projects _ _ _ _ _ _ _ _ Hrun)
    as [[Hsame _]|(p & Hp & Hstore)]; intros k q; [by rewrite Hsame; apply Hw|].
  rewrite Hstore. destruct (decide (k = Index p)) as [->|Hk].
  - rewrite lookup_insert_eq. intros [= <-]. apply Payback_update_Index.
  - rewrite lookup_insert_ne by done. apply Hw.
Qed.

(** Over a [Payback] call [OwnershipShift] of a stored project does not
    decrease, when the fraction the chain reports is finite and not
    negative. *)
Lemma Payback_OwnershipShift_step i recpIndex projIndex assetName amount
    recipientSeed w p :
  (∀ w ev, finite64 (MunibondPayback_pct E w ev) = true
           ∧ (0 <=? MunibondPayback_pct E w ev)%float = true) →
  indexed w → projects w !! i = Some p →
  number64 (OwnershipShift p) = true →
  ∃ p', projects (snd (Payback E recpIndex projIndex assetName amount
                         recipientSeed w)) !! i = Some p'
        ∧ (OwnershipShift p <=? OwnershipShift p')%float = true
        ∧ number64 (OwnershipShift p') = true.
Proof.
  intros Hpct Hw Hp Hn.
  destruct (Payback E recpIndex projIndex assetName amount recipientSeed w)
    as [r w'] eqn:Hrun. cbn [snd].
  destruct (Payback_projects _ _ _ _ _ _ _ _ Hrun)
    as [[Hsame _]|(q & Hq & Hstore)].
  - exists p. rewrite Hsame. split; [done|]. split; [|done].
    by apply float_leb_refl.
  - rewrite Hstore, (Hw _ _ Hq).
    destruct (decide (i = projIndex)) as [->|Hi].
    + rewrite lookup_insert_eq. eexists. split; [reflexivity|].
      assert (q = p) as -> by congruence.
      destruct (Hpct w (Call_MunibondPayback recpIndex amount recipientSeed
                          projIndex assetName (InvestorIndices p)
                          (TotalValue p) (EscrowPubkey p))) as [Hfin Hpos].
      by apply Payback_update_OwnershipShift.
    + rewrite lookup_insert_ne by done. exists p. split; [done|].
      split; [|done]. by apply float_leb_refl.
Qed.

Lemma payback_all_OwnershipShift i calls w p :
  (∀ w ev, finite64 (MunibondPayback_pct E w ev) = true
           ∧ (0 <=? MunibondPayback_pct E w ev)%float = true) →
  indexed w → projects w !! i = Some p →
  number64 (OwnershipShift p) = true →
  ∃ p', projects (payback_all E calls w) !! i = Some p'
        ∧ (OwnershipShift p <=? OwnershipShift p')%float = true.
Proof.
  intros Hpct. revert w p.
  induction calls as [|c calls IH]; intros w p Hw Hp Hn.
  - exists p. split; [done|]. by apply float_leb_refl.
  - cbn [payback_all].
    destruct (Payback_OwnershipShift_step i (pay_recpIndex c) (pay_projIndex c)
                (pay_assetName c) (pay_amount c) (pay_recipientSeed c) w p
                Hpct Hw Hp Hn) as (p1 & Hp1 & Hle1 & Hn1).
    destruct (IH _ p1 (Payback_keeps_indexed _ _ _ _ _ _ Hw) Hp1 Hn1)
      as (p' & Hp' & Hle').
    exists p'. split; [done|]. by apply (float_leb_trans _ _ _ Hle1).
Qed.

(** C4 (amended).  A [Payback] call that stores the project adds the
    fraction [pct] the chain reports to [OwnershipShift] and caps
    nothing.  For [pct] between 0 and 1 and a finite amount that is not
    negative, [OwnershipShift] does not decrease, and [BalLeft] and
    [AmountOwed] do not increase unless the new [OwnershipShift] is
    exactly 1, in which case both are set to 0 whatever they were.  A
    call that stores nothing returns an error.  Over any sequence of
    [Payback] calls for which the chain reports finite fractions that are
    not negative, [OwnershipShift] of every stored project does not
    decrease. *)
Theorem Payback_ownership_never_decreases :
  (∀ recpIndex projIndex assetName amount recipientSeed w r w' p,
     Payback E recpIndex projIndex assetName amount recipientSeed w = (r, w') →
     projects w !! projIndex = Some p →
     Index p = projIndex →
     let pct :=
       payback_pct E w p recpIndex projIndex assetName amount recipientSeed in
     number64 (OwnershipShift p) = true →
     finite64 (BalLeft p) = true →
     finite64 (AmountOwed p) = true →
     finite64 amount = true →
     (0 <=? amount)%float = true →
     (0 <=? pct)%float = true →
     (pct <=? 1)%float = true →
     ∃ p',
       projects w' !! projIndex = Some p'
       ∧ ((p' = p ∧ ∃ e, r = Err e)
          ∨ (OwnershipShift p' = (OwnershipShift p + pct)%float
             ∧ (OwnershipShift p <=? OwnershipShift p')%float = true
             ∧ if (OwnershipShift p' =? 1)%float
               then BalLeft p' = 0%float ∧ AmountOwed p' = 0%float
               else (BalLeft p' <=? BalLeft p)%float = true
                    ∧ (AmountOwed p' <=? AmountOwed p)%float = true)))
  ∧ (∀ i calls w p,
       (∀ w ev, finite64 (MunibondPayback_pct E w ev) = true
                ∧ (0 <=? MunibondPayback_pct E w ev)%float = true) →
       indexed w →
       projects w !! i = Some p →
       number64 (OwnershipShift p) = true →
       ∃ p',
         projects (payback_all E calls w) !! i = Some p'
         ∧ (OwnershipShift p <=? OwnershipShift p')%float = true).
Proof.
  split; [|exact payback_all_OwnershipShift].
  intros recpIndex projIndex assetName amount recipientSeed w r w' p Hrun Hp
    Hidx pct Hn HB HA Hf Hamount Hpos Hle.
  destruct (Payback_projects _ _ _ _ _ _ _ _ Hrun)
    as [[Hsame Herr]|(q & Hq & Hstore)].
  - exists p. rewrite Hsame. split; [done|]. by left.
  - assert (q = p) as -> by congruence.
    rewrite Hstore, Hidx, lookup_insert_eq. eexists. split; [reflexivity|].
    right. fold pct.
    destruct (Payback_update_OwnershipShift p pct amount (utils_Unix w) Hn
                (float_unit_finite _ Hpos Hle) Hpos) as (Hshift & Hmono & _).
    split; [done|]. split; [done|].
    by apply Payback_update_balances.
Qed.

(** * Further properties of the contract *)

(** ** The pre-investment check *)

(** The test of [preInvestmentCheck] for a project that has no asset
    issuer yet: on stellar (or with no chain named), with neither a seed
    nor an investor asset code. *)
Lemma preInvestmentCheck_run projIndex invIndex invAmount seed w r w' :
  preInvestmentCheck C E projIndex invIndex invAmount seed w = (r, w') →
  (w' = w ∧ ∀ q, r = Ok q →
     ∃ p, projects w !! projIndex = Some p ∧ q = p
       ∧ snd (RetrieveInvestor E w invIndex) = None
       ∧ CanInvest E w (fst (RetrieveInvestor E w invIndex)) invAmount = true
       ∧ snd (wallet_ReturnPubkey E seed) = None
       ∧ xlm_AccountExists E w (fst (wallet_ReturnPubkey E seed)) = true
       ∧ (TotalValue p - MoneyRaised p <? invAmount)%float = false
       ∧ (((Chain p =? "stellar")%string || (Chain p =? "")%string)
          && ((SeedAssetCode p =? "")%string
              && (InvestorAssetCode p =? "")%string)) = false)
  ∨ ∃ p,
      let q := set_InvestorAssetCode
                 (assets_AssetID E (InvestorAssetPrefix C +:+ Metadata p)) p in
      projects w !! projIndex = Some p
      ∧ snd (RetrieveInvestor E w invIndex) = None
      ∧ CanInvest E w (fst (RetrieveInvestor E w invIndex)) invAmount = true
      ∧ snd (wallet_ReturnPubkey E seed) = None
      ∧ xlm_AccountExists E w (fst (wallet_ReturnPubkey E seed)) = true
      ∧ (TotalValue p - MoneyRaised p <? invAmount)%float = false
      ∧ ((Chain p =? "stellar")%string || (Chain p =? "")%string) = true
      ∧ (SeedAssetCode p =? "")%string = true
      ∧ (InvestorAssetCode p =? "")%string = true
      ∧ projects w' = <[Index p := q]> (projects w)
      ∧ clock w' = clock w
      ∧ ((trace w' = trace w ++ [issuer_InitIssuer projIndex]
          ∧ ∃ e, r = Err e)
         ∨ (trace w' = trace w ++ [issuer_InitIssuer projIndex;
                                   issuer_FundIssuer projIndex]
            ∧ ((∃ e, r = Err e) ∨ r = Ok q))).
Proof.
  unfold preInvestmentCheck. run_monad.
  destruct (projects w !! projIndex) as [p|] eqn:Hp;
    [rewrite (RetrieveProject_Some _ _ _ Hp)
    |rewrite (RetrieveProject_None _ _ Hp)]; run_monad;
    [|intros [= <- <-]; left; split; [done|discriminate]].
  destruct (RetrieveInvestor E w invIndex) as [investor [e|]]; run_monad;
    [intros [= <- <-]; left; split; [done|discriminate]|].
  destruct (CanInvest E w investor invAmount) eqn:Hcan; run_monad;
    [|intros [= <- <-]; left; split; [done|discriminate]].
  destruct (wallet_ReturnPubkey E seed) as [pubkey [e|]]; run_monad;
    [intros [= <- <-]; left; split; [done|discriminate]|].
  destruct (xlm_AccountExists E w pubkey) eqn:Hacc; run_monad;
    [|intros [= <- <-]; left; split; [done|discriminate]].
  destruct (_ <? invAmount)%float eqn:Hgap;
    [intros [= <- <-]; left; split; [done|discriminate]|].
  destruct ((Chain p =? "stellar")%string || (Chain p =? "")%string) eqn:Hchain.
  2: { cbn [andb].
       destruct (Chain p =? "algorand")%string; cbn; unfold ret;
         intros [= <- <-]; left; (split; [done|]); intros q [= <-];
         exists p; repeat (split; [done|]); by rewrite Hchain. }
  destruct (SeedAssetCode p =? "")%string eqn:Hseed; cbn [andb].
  2: { unfold ret. intros [= <- <-]. left. split; [done|]. intros q [= <-].
       exists p. repeat (split; [done|]). by rewrite Hchain, Hseed. }
  destruct (InvestorAssetCode p =? "")%string eqn:Hinv.
  2: { unfold ret. intros [= <- <-]. left. split; [done|]. intros q [= <-].
       exists p. repeat (split; [done|]). by rewrite Hchain, Hseed, Hinv. }
  destruct (Save_error E w _) as [e|]; run_monad;
    [intros [= <- <-]; left; split; [done|discriminate]|].
  intros Hrun. right. exists p. cbv zeta. do 9 (split; [done|]).
  revert Hrun.
  destruct (call_error E _ (issuer_InitIssuer projIndex)) as [e|]; run_monad.
  { intros [= <- <-]. cbn [projects clock trace log_event]. split; [done|].
    split; [done|]. left. eauto. }
  destruct (call_error E _ (issuer_FundIssuer projIndex)) as [e|]; run_monad;
    intros [= <- <-]; cbn [projects clock trace log_event];
    rewrite <- ?app_assoc; cbn [app];
    (split; [done|]); (split; [done|]); right; (split; [done|]); eauto.
Qed.

(** X1.  A pre-investment check that passes returns the project as it
    is stored and leaves the world as it was, but for a project on
    stellar (or with no chain named) that has neither a seed nor an
    investor asset code: that one is stored with the investor asset code
    made of the prefix and its metadata, and the issuer is initialised and
    then funded, once each and in this order.  The check returns the
    stored copy with the new code. *)
Theorem preInvestmentCheck_sets_up_issuer
    projIndex invIndex invAmount seed w q w' :
  preInvestmentCheck C E projIndex invIndex invAmount seed w = (Ok q, w') →
  ∃ p,
    projects w !! projIndex = Some p
    ∧ if ((Chain p =? "stellar")%string || (Chain p =? "")%string)
         && ((SeedAssetCode p =? "")%string
             && (InvestorAssetCode p =? "")%string)
      then
        q = set_InvestorAssetCode
              (assets_AssetID E (InvestorAssetPrefix C +:+ Metadata p)) p
        ∧ w' = mkWorld (<[Index p := q]> (projects w)) (clock w)
                 (trace w ++ [issuer_InitIssuer projIndex;
                              issuer_FundIssuer projIndex])
      else q = p ∧ w' = w.
Proof.
  intros Hrun.
  destruct (preInvestmentCheck_run _ _ _ _ _ _ _ Hrun)
    as [[-> Hok]|(p & Hp & _ & _ & _ & _ & _ & Hchain & Hseed & Hinv
                  & Hproj & Hclock & Htrace)].
  - destruct (Hok q eq_refl) as (p & Hp & -> & _ & _ & _ & _ & _ & Hnot).
    exists p. split; [done|]. by rewrite Hnot.
  - exists p. split; [done|]. rewrite Hchain, Hseed, Hinv. cbn [andb].
    destruct Htrace as [[_ [e [=]]]|[Htr [[e [=]]|[= ->]]]].
    split; [done|]. destruct w'; cbn in *. by subst.
Qed.

(** The check stores nothing and calls nothing for a project on another
    chain, whatever it returns. *)
Lemma preInvestmentCheck_other_chain projIndex invIndex invAmount seed w p r w' :
  projects w !! projIndex = Some p →
  ((Chain p =? "stellar")%string || (Chain p =? "")%string) = false →
  preInvestmentCheck C E projIndex invIndex invAmount seed w = (r, w') →
  w' = w ∧ ∀ q, r = Ok q → q = p.
Proof.
  intros Hp Hchain Hrun.
  destruct (preInvestmentCheck_run _ _ _ _ _ _ _ Hrun)
    as [[-> Hok]|(p' & Hp' & _ & _ & _ & _ & _ & Hchain' & _)].
  - split; [done|]. intros q Hq.
    destruct (Hok q Hq) as (p' & Hp' & -> & _). congruence.
  - congruence.
Qed.

(** X2.  No investment is taken for a project whose chain is neither
    stellar nor empty: [Invest] and [SeedInvest] return an error and
    leave the world as it was (nothing stored, no call made). *)
Theorem invest_other_chain_rejected projIndex invIndex invAmount invSeed w p :
  projects w !! projIndex = Some p →
  Chain p ≠ "stellar" → Chain p ≠ "" →
  (∃ e, Invest C E projIndex invIndex invAmount invSeed w = (Err e, w))
  ∧ (∃ e, SeedInvest C E projIndex invIndex invAmount invSeed w = (Err e, w)).
Proof.
  intros Hp Hs He.
  assert (Hchain : ((Chain p =? "stellar")%string || (Chain p =? "")%string)
                   = false).
  { apply orb_false_iff. split; by apply String.eqb_neq. }
  destruct (preInvestmentCheck C E projIndex invIndex invAmount invSeed w)
    as [r w1] eqn:Hrun.
  destruct (preInvestmentCheck_other_chain _ _ _ _ _ _ _ _ Hp Hchain Hrun)
    as [-> Hq].
  split.
  - unfold Invest. run_monad. rewrite Hrun.
    destruct r as [q|e]; [|eauto]. rewrite (Hq q eq_refl).
    destruct (InvestmentType p =? "munibond")%string; run_monad; [|eauto].
    rewrite Hchain. eauto.
  - unfold SeedInvest. run_monad. rewrite Hrun.
    destruct r as [q|e]; [|eauto]. rewrite (Hq q eq_refl).
    destruct (negb (Stage p =? 1) && negb (Stage p =? 2)); [eauto|].
    destruct (InvestmentType p =? "munibond")%string; run_monad; [|eauto].
    destruct (SeedInvestmentCap p <? invAmount)%float; [eauto|].
    rewrite Hchain. eauto.
Qed.

(** ** Accepted investments *)

(** What a successful [updateAfterInvestment] leaves in the store: the
    project with the investment recorded, locked when that completes
    the funding, and with the investor map recomputed. *)
Lemma updateAfterInvestment_Ok project invAmount invIndex seed w w' :
  updateAfterInvestment C E project invAmount invIndex seed w = (Ok tt, w') →
  let p1 := record_investment project invAmount invIndex seed in
  ∃ m,
    projects w'
    = <[Index project :=
          set_InvestorMap m
            (if ((MoneyRaised project + invAmount)%float
                 =? TotalValue project)%float
             then set_Lock true p1 else p1)]> (projects w).
Proof.
  pose proof (record_investment_Index project invAmount invIndex seed) as Hidx.
  pose proof (record_investment_TotalValue project invAmount invIndex seed) as Htv.
  pose proof (record_investment_MoneyRaised project invAmount invIndex seed) as Hmr.
  unfold updateAfterInvestment. cbv zeta.
  remember (record_investment project invAmount invIndex seed) as p1 eqn:Hp1.
  clear Hp1. run_monad. rewrite Hmr, Htv.
  destruct (Save_error E w p1) as [e|]; run_monad; [discriminate|].
  destruct (_ =? _)%float eqn:Hfull; run_monad.
  2: { rewrite updateAfterInvestment_loop_fold. cbn [projects].
       destruct (retrieval_error E _ _); run_monad; [discriminate|].
       destruct (Save_error E _ _); run_monad; [discriminate|].
       intros [= <-]. cbn [projects].
       change (Index (set_InvestorMap ?m p1)) with (Index p1).
       rewrite Hidx, insert_insert_eq. by eexists. }
  destruct (Save_error E _ (set_Lock true p1)) as [e|]; run_monad;
    [discriminate|].
  change (Index (set_Lock true p1)) with (Index p1). rewrite Hidx.
  destruct (sendRecipientNotification C E _ _) as [rn wn] eqn:Hn.
  apply sendRecipientNotification_run in Hn as [Hproj _].
  cbn [projects] in Hproj.
  destruct rn as [[]|e]; [|discriminate]. run_monad.
  rewrite updateAfterInvestment_loop_fold. cbn [projects trace].
  destruct (retrieval_error E _ _); run_monad; [discriminate|].
  destruct (Save_error E _ _); run_monad; [discriminate|].
  intros [= <-]. cbn [projects].
  change (Index (set_InvestorMap ?m (set_Lock true p1))) with (Index p1).
  rewrite Hidx, Hproj, !insert_insert_eq. by eexists.
Qed.

(** A check that passes returns the stored project, which is the one
    that was stored before, but for its investor asset code. *)
Lemma preInvestmentCheck_Ok_stored projIndex invIndex invAmount seed w q w' p :
  preInvestmentCheck C E projIndex invIndex invAmount seed w = (Ok q, w') →
  projects w !! projIndex = Some p →
  (q = p ∨ ∃ code, q = set_InvestorAssetCode code p)
  ∧ (Index p = projIndex → projects w' !! projIndex = Some q)
  ∧ (Index p ≠ projIndex → projects w' !! projIndex = Some p)
  ∧ (∀ k, k ≠ Index p → projects w' !! k = projects w !! k).
Proof.
  intros Hrun Hp.
  destruct (preInvestmentCheck_run _ _ _ _ _ _ _ Hrun)
    as [[-> Hok]|(p0 & Hp0 & _ & _ & _ & _ & _ & _ & _ & _
                  & Hproj & _ & Htrace)].
  - destruct (Hok q eq_refl) as (p0 & Hp0 & -> & _).
    assert (p0 = p) as -> by congruence.
    split; [by left|]. by repeat split.
  - assert (p0 = p) as -> by congruence.
    assert (q = set_InvestorAssetCode
                  (assets_AssetID E (InvestorAssetPrefix C +:+ Metadata p)) p)
      as Hq.
    { destruct Htrace as [[_ [e [=]]]|[_ [[e [=]]|[= ->]]]]. done. }
    rewrite Hproj, <- Hq. split; [eauto|].
    split; [intros <-; apply lookup_insert_eq|].
    split; [intros Hne; by rewrite lookup_insert_ne|].
    intros k Hk. by rewrite lookup_insert_ne.
Qed.

(** When [SeedInvest] succeeds: what it checked and what it ran. *)
Lemma SeedInvest_Ok projIndex invIndex invAmount invSeed w w' :
  SeedInvest C E projIndex invIndex invAmount invSeed w = (Ok tt, w') →
  ∃ q w1 q',
    preInvestmentCheck C E projIndex invIndex invAmount invSeed w = (Ok q, w1)
    ∧ (Stage q = 1 ∨ Stage q = 2)
    ∧ InvestmentType q = "munibond"
    ∧ (SeedInvestmentCap q <? invAmount)%float = false
    ∧ (Chain q = "stellar" ∨ Chain q = "")
    ∧ (q' = q ∨ q' = set_SeedAssetCode "SEEDASSET" q)
    ∧ ∃ ev, is_MunibondInvest ev = true
        ∧ updateAfterInvestment C E q' invAmount invIndex true
            (log_event ev w1) = (Ok tt, w').
Proof.
  unfold SeedInvest. run_monad.
  destruct (preInvestmentCheck C E projIndex invIndex invAmount invSeed w)
    as [[q|e] w1]; [|discriminate].
  destruct (Stage q =? 1) eqn:H1; cbn [negb andb].
  2: destruct (Stage q =? 2) eqn:H2; cbn [negb andb]; [|discriminate].
  all: destruct (InvestmentType q =? "munibond")%string eqn:Htype;
    cbn [negb]; [|discriminate];
    destruct (SeedInvestmentCap q <? invAmount)%float eqn:Hcap;
    [discriminate|];
    destruct (Chain q =? "stellar")%string eqn:Hs; cbn [orb];
    [|destruct (Chain q =? "")%string eqn:He; [|discriminate]].
  all: match goal with
       | |- context [call_error E ?w0 ?ev] =>
           destruct (call_error E w0 ev) as [e|]; run_monad; [discriminate|];
           destruct (updateAfterInvestment C E _ _ _ _ _) as [[[]|e] w2] eqn:Hup;
           [|discriminate]; intros [= <-];
           exists q, w1; eexists; split; [done|];
           (split; [lia|]); (split; [by apply String.eqb_eq|]);
           (split; [done|]);
           (split; [first [left; by apply String.eqb_eq
                          |right; by apply String.eqb_eq]|]);
           (split; [|exists ev; split; [done|exact Hup]])
       end.
  all: destruct (SeedAssetCode q =? "")%string; auto.
Qed.

(** When [Invest] succeeds: what it checked and what it ran. *)
Lemma Invest_Ok projIndex invIndex invAmount invSeed w w' :
  Invest C E projIndex invIndex invAmount invSeed w = (Ok tt, w') →
  ∃ q w1,
    preInvestmentCheck C E projIndex invIndex invAmount invSeed w = (Ok q, w1)
    ∧ InvestmentType q = "munibond"
    ∧ (Chain q = "stellar" ∨ Chain q = "")
    ∧ ((Stage q = 4
        ∧ ∃ ev, is_MunibondInvest ev = true
            ∧ updateAfterInvestment C E q invAmount invIndex false
                (log_event ev w1) = (Ok tt, w'))
       ∨ ((Stage q = 1 ∨ Stage q = 2)
          ∧ SeedInvest C E projIndex invIndex invAmount invSeed w1
            = (Ok tt, w'))).
Proof.
  unfold Invest. run_monad.
  destruct (preInvestmentCheck C E projIndex invIndex invAmount invSeed w)
    as [[q|e] w1]; [|discriminate].
  destruct (InvestmentType q =? "munibond")%string eqn:Htype;
    cbn [negb]; [|discriminate].
  assert (Hchain : ((Chain q =? "stellar")%string || (Chain q =? "")%string)
                   = true → Chain q = "stellar" ∨ Chain q = "").
  { intros [H|H]%orb_true_iff; apply String.eqb_eq in H; auto. }
  destruct (_ || _) eqn:Hc in |- *; [|discriminate].
  destruct (Stage q =? 4) eqn:H4; cbn [negb].
  - destruct (call_error E w1 _) as [e|] eqn:Hcall; run_monad; [discriminate|].
    destruct (updateAfterInvestment C E _ _ _ _ _) as [[[]|e] w2] eqn:Hup;
      [|discriminate].
    intros [= <-]. exists q, w1. split; [done|].
    split; [by apply String.eqb_eq|]. split; [auto|].
    left. split; [lia|]. eexists. split; [|exact Hup]. done.
  - destruct ((Stage q =? 1) || (Stage q =? 2)) eqn:H12; [|discriminate].
    intros Hseed. exists q, w1. split; [done|].
    split; [by apply String.eqb_eq|]. split; [auto|].
    right. split; [|done]. apply orb_true_iff in H12. lia.
Qed.

(** What the check has verified when it passes, of the project that was
    stored. *)
Lemma preInvestmentCheck_Ok_checked projIndex invIndex invAmount seed w q w' :
  preInvestmentCheck C E projIndex invIndex invAmount seed w = (Ok q, w') →
  ∃ p, projects w !! projIndex = Some p
       ∧ same_accounts p q
       ∧ checked_investment E w p invIndex invAmount seed.
Proof.
  intros Hrun.
  destruct (preInvestmentCheck_run _ _ _ _ _ _ _ Hrun)
    as [[-> Hok]|(p & Hp & H1 & H2 & H3 & H4 & H5 & _ & Hseed & _ & _ & _
                  & Htrace)].
  - destruct (Hok q eq_refl) as (p & Hp & -> & H1 & H2 & H3 & H4 & H5 & _).
    exists p. split; [done|]. split; [by repeat split|]. by repeat split.
  - exists p. split; [done|].
    assert (q = set_InvestorAssetCode
                  (assets_AssetID E (InvestorAssetPrefix C +:+ Metadata p)) p)
      as ->.
    { destruct Htrace as [[_ [e [=]]]|[_ [[e [=]]|[= ->]]]]. done. }
    split; [by repeat split|]. by repeat split.
Qed.

Lemma same_accounts_trans p q r :
  same_accounts p q → same_accounts q r → same_accounts p r.
Proof.
  unfold same_accounts. intros Hpq Hqr.
  destruct Hpq as (?&?&?&?&?&?&?&?&?&?&?).
  destruct Hqr as (?&?&?&?&?&?&?&?&?&?&?).
  repeat split; congruence.
Qed.

(** The project a passing check finds under [projIndex] afterwards. *)
Lemma preInvestmentCheck_Ok_slot projIndex invIndex invAmount seed w q w' p :
  preInvestmentCheck C E projIndex invIndex invAmount seed w = (Ok q, w') →
  projects w !! projIndex = Some p →
  ∃ p2, projects w' !! projIndex = Some p2 ∧ same_accounts p p2
        ∧ (Index p = projIndex → p2 = q).
Proof.
  intros Hrun Hp.
  destruct (preInvestmentCheck_Ok_stored _ _ _ _ _ _ _ _ Hrun Hp)
    as (Hq & Hsame & Hother & _).
  destruct (decide (Index p = projIndex)) as [Hi|Hi].
  - exists q. split; [auto|]. split; [|done].
    destruct Hq as [->|[code ->]]; by repeat split.
  - exists p. split; [auto|]. split; [by repeat split|done].
Qed.

(** X3.  An investment is accepted only if the project is stored, is a
    municipal bond on stellar (or names no chain), the investor is found
    and can invest the amount, the account of the seed exists, and the
    amount is not above [TotalValue - MoneyRaised]: [SeedInvest] accepts
    it only at stage 1 or 2 and when the amount is not above
    [SeedInvestmentCap]; [Invest] only at stage 4, or at stage 1 or 2
    under the seed cap. *)
Theorem investment_accepted_only_if :
  (∀ projIndex invIndex invAmount invSeed w w',
     SeedInvest C E projIndex invIndex invAmount invSeed w = (Ok tt, w') →
     ∃ p, projects w !! projIndex = Some p
          ∧ checked_investment E w p invIndex invAmount invSeed
          ∧ InvestmentType p = "munibond"
          ∧ (Chain p = "stellar" ∨ Chain p = "")
          ∧ (Stage p = 1 ∨ Stage p = 2)
          ∧ (SeedInvestmentCap p <? invAmount)%float = false)
  ∧ (∀ projIndex invIndex invAmount invSeed w w',
       Invest C E projIndex invIndex invAmount invSeed w = (Ok tt, w') →
       ∃ p, projects w !! projIndex = Some p
            ∧ checked_investment E w p invIndex invAmount invSeed
            ∧ InvestmentType p = "munibond"
            ∧ (Chain p = "stellar" ∨ Chain p = "")
            ∧ (Stage p = 4
               ∨ ((Stage p = 1 ∨ Stage p = 2)
                  ∧ (SeedInvestmentCap p <? invAmount)%float = false))).
Proof.
  assert (Hseed : ∀ projIndex invIndex invAmount invSeed w w',
     SeedInvest C E projIndex invIndex invAmount invSeed w = (Ok tt, w') →
     ∃ p, projects w !! projIndex = Some p
          ∧ checked_investment E w p invIndex invAmount invSeed
          ∧ InvestmentType p = "munibond"
          ∧ (Chain p = "stellar" ∨ Chain p = "")
          ∧ (Stage p = 1 ∨ Stage p = 2)
          ∧ (SeedInvestmentCap p <? invAmount)%float = false).
  { intros projIndex invIndex invAmount invSeed w w' Hrun.
    destruct (SeedInvest_Ok _ _ _ _ _ _ Hrun)
      as (q & w1 & q' & Hcheck & Hstage & Htype & Hcap & Hchain & _).
    destruct (preInvestmentCheck_Ok_checked _ _ _ _ _ _ _ Hcheck)
      as (p & Hp & Hsame & Hchecked).
    destruct Hsame as (_ & Hst & Hty & Hch & _ & _ & _ & _ & Hc & _).
    exists p. rewrite <- Hst, <- Hty, <- Hch, <- Hc.
    do 5 (split; [done|]). done. }
  split; [exact Hseed|].
  intros projIndex invIndex invAmount invSeed w w' Hrun.
  destruct (Invest_Ok _ _ _ _ _ _ Hrun)
    as (q & w1 & Hcheck & Htype & Hchain & Hpath).
  destruct (preInvestmentCheck_Ok_checked _ _ _ _ _ _ _ Hcheck)
    as (p & Hp & Hsame & Hchecked).
  destruct (preInvestmentCheck_Ok_slot _ _ _ _ _ _ _ _ Hcheck Hp)
    as (p2 & Hp2 & Hsame2 & _).
  destruct Hsame as (_ & Hst & Hty & Hch & _ & _ & _ & _ & Hc & _).
  exists p. rewrite <- Hst, <- Hty, <- Hch. do 4 (split; [done|]).
  destruct Hpath as [[H4 _]|[H12 Hrun2]]; [by left|right].
  split; [done|].
  destruct (Hseed _ _ _ _ _ _ Hrun2) as (p3 & Hp3 & _ & _ & _ & _ & Hcap).
  assert (p3 = p2) as -> by congruence.
  destruct Hsame2 as (_ & _ & _ & _ & _ & _ & _ & _ & Hc2 & _).
  by rewrite <- Hc2.
Qed.

(** The fields of the project [updateAfterInvestment] stores. *)
Lemma investment_recorded_stored p q m invIndex invAmount seed :
  same_accounts p q →
  investment_recorded p
    (set_InvestorMap m
       (if ((MoneyRaised q + invAmount)%float =? TotalValue q)%float
        then set_Lock true (record_investment q invAmount invIndex seed)
        else record_investment q invAmount invIndex seed))
    invIndex invAmount seed.
Proof.
  intros (Hi & Hst & _ & _ & Htv & Hmr & Hsmr & Hf & _ & Hii & Hl).
  unfold investment_recorded. rewrite Hmr, Htv.
  rewrite <- Hi, <- Hst, <- Htv, <- Hmr, <- Hsmr, <- Hf, <- Hii, <- Hl.
  unfold record_investment.
  destruct (_ =? _)%float, seed; cbn; by repeat split.
Qed.

(** X4.  An accepted investment is recorded in the stored project, and
    nowhere else: [MoneyRaised] grows by the amount, the investor is
    appended to [InvestorIndices] (again, if already there),
    [SeedMoneyRaised] grows by the amount times
    [SeedInvestmentFactor - 1] for a seed investment and not otherwise,
    and [Lock] is set when the amount brings [MoneyRaised] to
    [TotalValue] and is left as it was otherwise.  [Invest] records a
    seed investment at every stage but 4. *)
Theorem investment_recorded_in_store :
  (∀ projIndex invIndex invAmount invSeed w w' p,
     SeedInvest C E projIndex invIndex invAmount invSeed w = (Ok tt, w') →
     projects w !! projIndex = Some p →
     Index p = projIndex →
     (∃ p', projects w' !! projIndex = Some p'
            ∧ investment_recorded p p' invIndex invAmount true)
     ∧ ∀ k, k ≠ projIndex → projects w' !! k = projects w !! k)
  ∧ (∀ projIndex invIndex invAmount invSeed w w' p,
       Invest C E projIndex invIndex invAmount invSeed w = (Ok tt, w') →
       projects w !! projIndex = Some p →
       Index p = projIndex →
       (∃ p', projects w' !! projIndex = Some p'
              ∧ investment_recorded p p' invIndex invAmount
                  (negb (Stage p =? 4)))
       ∧ ∀ k, k ≠ projIndex → projects w' !! k = projects w !! k).
Proof.
  assert (Hseed : ∀ projIndex invIndex invAmount invSeed w w' p,
     SeedInvest C E projIndex invIndex invAmount invSeed w = (Ok tt, w') →
     projects w !! projIndex = Some p →
     Index p = projIndex →
     (∃ p', projects w' !! projIndex = Some p'
            ∧ investment_recorded p p' invIndex invAmount true)
     ∧ ∀ k, k ≠ projIndex → projects w' !! k = projects w !! k).
  { intros projIndex invIndex invAmount invSeed w w' p Hrun Hp Hidx.
    destruct (SeedInvest_Ok _ _ _ _ _ _ Hrun)
      as (q & w1 & q' & Hcheck & _ & _ & _ & _ & Hq' & ev & _ & Hup).
    destruct (preInvestmentCheck_Ok_stored _ _ _ _ _ _ _ _ Hcheck Hp)
      as (Hq & _ & _ & Hframe).
    assert (Hsame : same_accounts p q').
    { destruct Hq as [->|[code ->]], Hq' as [->| ->];
        unfold same_accounts; repeat split; reflexivity. }
    destruct (updateAfterInvestment_Ok _ _ _ _ _ _ Hup) as [m Hstore].
    cbv zeta in Hstore. cbn [projects log_event] in Hstore.
    assert (Hi : Index q' = projIndex) by (rewrite <- Hidx; apply Hsame).
    rewrite Hstore, Hi. split.
    - eexists. split; [apply lookup_insert_eq|].
      by apply investment_recorded_stored.
    - intros k Hk. rewrite lookup_insert_ne by done. apply Hframe. congruence. }
  split; [exact Hseed|].
  intros projIndex invIndex invAmount invSeed w w' p Hrun Hp Hidx.
  destruct (Invest_Ok _ _ _ _ _ _ Hrun)
    as (q & w1 & Hcheck & _ & _ & Hpath).
  destruct (preInvestmentCheck_Ok_stored _ _ _ _ _ _ _ _ Hcheck Hp)
    as (Hq & Hslot & _ & Hframe).
  assert (Hsame : same_accounts p q).
  { destruct Hq as [->|[code ->]]; unfold same_accounts; repeat split;
      reflexivity. }
  assert (Hi : Index q = projIndex) by (rewrite <- Hidx; apply Hsame).
  assert (Hst : Stage q = Stage p) by apply Hsame.
  destruct Hpath as [(H4 & ev & _ & Hup)|[H12 Hrun2]].
  - destruct (updateAfterInvestment_Ok _ _ _ _ _ _ Hup) as [m Hstore].
    cbv zeta in Hstore. cbn [projects log_event] in Hstore.
    rewrite Hstore, Hi. split.
    + eexists. split; [apply lookup_insert_eq|].
      replace (negb (Stage p =? 4)) with false
        by (symmetry; apply negb_false_iff, Z.eqb_eq; lia).
      by apply investment_recorded_stored.
    + intros k Hk. rewrite lookup_insert_ne by done. apply Hframe. congruence.
  - destruct (Hseed _ _ _ _ _ _ _ Hrun2 (Hslot Hidx) Hi)
      as [(p' & Hp' & Hrec) Hframe2].
    split.
    + exists p'. split; [done|].
      replace (negb (Stage p =? 4)) with true
        by (symmetry; apply negb_true_iff, Z.eqb_neq; lia).
      destruct Hsame as (Si & _ & _ & _ & Htv & Hmr & Hsmr & Hf & _ & Hii & Hl).
      destruct Hrec as (R1 & R2 & R3 & R4 & R5 & R6 & R7).
      unfold investment_recorded.
      rewrite <- Htv, <- Hmr, <- Hsmr, <- Hf, <- Hii, <- Hl.
      repeat split; congruence.
    + intros k Hk. rewrite Hframe2 by done. apply Hframe. congruence.
Qed.

(** ** The escrow-release pipeline, locked or not *)

Lemma after_polls_0 w : after_polls 0 w = w.
Proof.
  unfold after_polls. destruct w as [db c tr]. cbn.
  by rewrite Z.add_0_r, app_nil_r.
Qed.

(** The wait only polls: it stores nothing and makes no call but its
    sleeps of ten seconds. *)
Lemma sendRecipientAssets_wait_polls fuel startTime projIndex w r w' :
  sendRecipientAssets_wait C fuel startTime projIndex w = (r, w') →
  ∃ n, w' = after_polls n w.
Proof.
  revert w. induction fuel as [|fuel IH]; intros w;
    cbn [sendRecipientAssets_wait]; run_monad.
  - intros [= <- <-]. exists 0%nat. by rewrite after_polls_0.
  - destruct (_ <? LockInterval C);
      [|intros [= <- <-]; exists 0%nat; by rewrite after_polls_0].
    destruct (RetrieveProject w projIndex) as [p [e|]]; run_monad;
      [intros [= <- <-]; exists 0%nat; by rewrite after_polls_0|].
    destruct (Lock p); cbn [negb];
      [|intros [= <- <-]; exists 0%nat; by rewrite after_polls_0].
    intros Hrun. apply IH in Hrun as [n ->]. exists (S n).
    unfold after_polls. cbn [projects clock trace replicate].
    change (Z.max 0 (10 * time_Second)) with (10 * time_Second).
    rewrite <- app_assoc. cbn [app]. f_equal. lia.
Qed.

(** Ten seconds of sleep are ten seconds on the clock. *)
Lemma utils_Unix_after_sleep db c tr ev :
  utils_Unix (mkWorld db (c + Z.max 0 (10 * time_Second)) (tr ++ [ev]))
  = utils_Unix (mkWorld db c tr) + 10.
Proof.
  unfold utils_Unix. cbn [clock].
  change (Z.max 0 (10 * time_Second)) with (10 * time_Second).
  unfold time_Second. rewrite <- Z.div_add by done. f_equal.
Qed.

(** The wait on a project that stays locked: it polls every ten seconds
    while less than [LockInterval] seconds have passed since the start,
    and then ends as if the lock had opened. *)
Lemma sendRecipientAssets_wait_locked fuel startTime projIndex w p :
  projects w !! projIndex = Some p →
  Lock p = true →
  let n := Z.to_nat ((LockInterval C - (utils_Unix w - startTime) + 9) / 10) in
  (n < fuel)%nat →
  sendRecipientAssets_wait C fuel startTime projIndex w
  = (Ok (Some tt), after_polls n w).
Proof.
  intros Hp Hlock. cbv zeta. revert w Hp.
  induction fuel as [|fuel IH]; intros w Hp Hn; [lia|].
  cbn [sendRecipientAssets_wait]. run_monad.
  destruct (Z.ltb_spec (utils_Unix w - startTime) (LockInterval C)) as [Hlt|Hge].
  - rewrite (RetrieveProject_Some _ _ _ Hp). run_monad. rewrite Hlock.
    cbn [negb].
    set (ws := mkWorld (projects w) (clock w + Z.max 0 (10 * time_Second))
                 (trace w ++ [time_Sleep (10 * time_Second)])).
    assert (Hnow : utils_Unix ws = utils_Unix w + 10).
    { subst ws. destruct w. apply utils_Unix_after_sleep. }
    assert (Hsucc :
      Z.to_nat ((LockInterval C - (utils_Unix w - startTime) + 9) / 10)
      = S (Z.to_nat ((LockInterval C - (utils_Unix ws - startTime) + 9) / 10))).
    { rewrite Hnow.
      replace (LockInterval C - (utils_Unix w - startTime) + 9)
        with (LockInterval C - (utils_Unix w + 10 - startTime) + 9 + 1 * 10)
        by lia.
      rewrite Z.div_add by done.
      rewrite <- Z2Nat.inj_succ by (apply Z.div_pos; lia).
      f_equal. }
    rewrite (IH ws Hp) by lia.
    rewrite Hsucc. f_equal. unfold after_polls. subst ws.
    cbn [projects clock trace replicate].
    change (Z.max 0 (10 * time_Second)) with (10 * time_Second).
    rewrite <- app_assoc. cbn [app]. f_equal. lia.
  - replace (Z.to_nat _) with 0%nat; [by rewrite after_polls_0|].
    symmetry. apply Z2Nat.nonpos, Z.lt_succ_r.
    apply Z.div_lt_upper_bound; lia.
Qed.

(** What the pipeline does once the wait has ended in the world [w0], for
    the project [p] it loads: the calls it makes in order, up to the
    first that fails, and the store it leaves. *)
Lemma sendRecipientAssets_tail fuel projIndex w w0 p r w' :
  projects w !! projIndex = Some p →
  sendRecipientAssets_wait C fuel (utils_Unix w) projIndex w
  = (Ok (Some tt), w0) →
  projects w0 = projects w →
  sendRecipientAssets C E fuel projIndex w = (r, w') →
  let recipient := fst (RetrieveRecipient E w0 (RecipientIndex p)) in
  let seed :=
    fst (wallet_DecryptSeed E (EncryptedSeed (Wallet (recp_U recipient)))
           (LockPwd p)) in
  let init :=
    escrow_InitEscrow (Index p) (PublicKey (Wallet (recp_U recipient))) seed in
  let key := InitEscrow_pubkey E w0 init in
  let transfer := escrow_TransferFundsToEscrow (TotalValue p) (Index p) key in
  let receive :=
    Call_MunibondReceive (RecipientIndex p) projIndex
      (assets_AssetID E (DebtAssetPrefix C +:+ Metadata p))
      (assets_AssetID E (PaybackAssetPrefix C +:+ Metadata p))
      (EstimatedAcquisition p) seed
      (TotalValue p + SeedMoneyRaised p)%float (PaybackPeriod p) in
  let start := Go (Task_monitorPaybacks (RecipientIndex p) (Index p)) in
  ∃ new,
    trace w' = trace w0 ++ new
    ∧ (((∃ e, r = Err e) ∧ projects w' = projects w
        ∧ (new = [] ∨ new = [init] ∨ new = [init; transfer]
           ∨ new = [init; transfer; receive]))
       ∨ (r = Ok (Some tt)
          ∧ new = [init; transfer; receive; start]
          ∧ projects w'
            = <[Index p := accepted_project C E p key]> (projects w))).
Proof.
  intros Hp Hwait Hsame.
  assert (Hp0 : RetrieveProject w0 projIndex = (p, None)).
  { apply RetrieveProject_Some. by rewrite Hsame. }
  unfold sendRecipientAssets, updateProjectAfterAcceptance.
  run_monad. rewrite (RetrieveProject_Some _ _ _ Hp). run_monad.
  rewrite Hwait, Hp0. run_monad.
  destruct (RetrieveRecipient E w0 _) as [recipient [e|]]; run_monad.
  { intros [= <- <-]. exists []. rewrite app_nil_r. split; [done|].
    left. eauto 10. }
  destruct (wallet_DecryptSeed E _ _) as [recpSeed [e|]]; run_monad.
  { intros [= <- <-]. exists []. rewrite app_nil_r. split; [done|].
    left. eauto 10. }
  destruct (call_error E w0 _) as [e|]; run_monad.
  { intros [= <- <-]. eexists [_]. cbn [trace projects log_event].
    split; [done|]. left. eauto 10. }
  destruct (call_error E _ (escrow_TransferFundsToEscrow _ _ _)) as [e|];
    run_monad.
  { intros [= <- <-]. eexists [_; _]. cbn [trace projects log_event].
    rewrite <- ?app_assoc. split; [done|]. left. eauto 10. }
  destruct (call_error E _ (Call_MunibondReceive _ _ _ _ _ _ _ _)) as [e|];
    run_monad.
  { intros [= <- <-]. eexists [_; _; _]. cbn [trace projects log_event].
    rewrite <- ?app_assoc. split; [done|]. left.
    split; [eauto|]. split; [done|]. do 3 right. done. }
  destruct (Save_error E _ _) as [e|]; run_monad.
  { intros [= <- <-]. eexists [_; _; _]. cbn [trace projects log_event].
    rewrite <- ?app_assoc. split; [done|]. left.
    split; [eauto|]. split; [done|]. do 3 right. done. }
  intros [= <- <-]. eexists [_; _; _; _]. cbn [trace projects log_event].
  rewrite <- ?app_assoc. split; [done|]. right.
  split; [done|]. split; [done|]. by rewrite Hsame.
Qed.

(** The pipeline stores nothing while it cannot load the project. *)
Lemma sendRecipientAssets_keeps_store fuel projIndex w r w' :
  sendRecipientAssets C E fuel projIndex w = (r, w') →
  (projects w' = projects w ∧ r ≠ Ok (Some tt))
  ∨ ∃ p n key,
      projects w !! projIndex = Some p
      ∧ r = Ok (Some tt)
      ∧ trace w'
        = trace (after_polls n w)
          ++ [let recipient :=
                fst (RetrieveRecipient E (after_polls n w) (RecipientIndex p)) in
              escrow_InitEscrow (Index p) (PublicKey (Wallet (recp_U recipient)))
                (fst (wallet_DecryptSeed E
                        (EncryptedSeed (Wallet (recp_U recipient))) (LockPwd p)));
              escrow_TransferFundsToEscrow (TotalValue p) (Index p) key;
              let recipient :=
                fst (RetrieveRecipient E (after_polls n w) (RecipientIndex p)) in
              Call_MunibondReceive (RecipientIndex p) projIndex
                (assets_AssetID E (DebtAssetPrefix C +:+ Metadata p))
                (assets_AssetID E (PaybackAssetPrefix C +:+ Metadata p))
                (EstimatedAcquisition p)
                (fst (wallet_DecryptSeed E
                        (EncryptedSeed (Wallet (recp_U recipient))) (LockPwd p)))
                (TotalValue p + SeedMoneyRaised p)%float (PaybackPeriod p);
              Go (Task_monitorPaybacks (RecipientIndex p) (Index p))]
      ∧ projects w'
        = <[Index p := accepted_project C E p key]> (projects w).
Proof.
  intros Hrun.
  destruct (projects w !! projIndex) as [p|] eqn:Hp.
  2: { left. revert Hrun. unfold sendRecipientAssets. run_monad.
       rewrite (RetrieveProject_None _ _ Hp). run_monad.
       by intros [= <- <-]. }
  destruct (sendRecipientAssets_wait C fuel (utils_Unix w) projIndex w)
    as [rw w0] eqn:Hwait.
  destruct (sendRecipientAssets_wait_polls _ _ _ _ _ _ Hwait) as [n ->].
  destruct rw as [[[]|]|e].
  - destruct (sendRecipientAssets_tail _ _ _ _ _ _ _ Hp Hwait eq_refl Hrun)
      as (new & Htr & [((e & ->) & Hproj & _)|(-> & -> & Hproj)]).
    + left. by split.
    + right. exists p, n. eexists. split; [done|]. split; [done|].
      split; [exact Htr|exact Hproj].
  - left. revert Hrun. unfold sendRecipientAssets. run_monad.
    rewrite (RetrieveProject_Some _ _ _ Hp). run_monad. rewrite Hwait.
    by intros [= <- <-].
  - left. revert Hrun. unfold sendRecipientAssets. run_monad.
    rewrite (RetrieveProject_Some _ _ _ Hp). run_monad. rewrite Hwait.
    by intros [= <- <-].
Qed.

(** X5.  The pipeline writes the store once, at its very end: when it
    returns an error, or runs out of rounds, the stored projects are as
    before (so a password left in [LockPwd] stays there); when it
    succeeds, the project it loaded is stored with [LockPwd] emptied, the
    escrow key, the debt and payback asset codes made of their prefixes
    and the metadata, [BalLeft] at [TotalValue + SeedMoneyRaised] and
    stage 5, its [Lock] as it was, and the last call starts the payback
    monitor. *)
Theorem sendRecipientAssets_stores_last fuel projIndex w r w' :
  sendRecipientAssets C E fuel projIndex w = (r, w') →
  (r ≠ Ok (Some tt) → projects w' = projects w)
  ∧ (r = Ok (Some tt) →
     ∃ p p',
       projects w !! projIndex = Some p
       ∧ projects w' = <[Index p := p']> (projects w)
       ∧ LockPwd p' = ""
       ∧ Lock p' = Lock p
       ∧ Stage p' = 5
       ∧ BalLeft p' = (TotalValue p + SeedMoneyRaised p)%float
       ∧ DebtAssetCode p'
         = assets_AssetID E (DebtAssetPrefix C +:+ Metadata p)
       ∧ PaybackAssetCode p'
         = assets_AssetID E (PaybackAssetPrefix C +:+ Metadata p)
       ∧ MoneyRaised p' = MoneyRaised p
       ∧ InvestorMap p' = InvestorMap p
       ∧ last (trace w')
         = Some (Go (Task_monitorPaybacks (RecipientIndex p) (Index p)))).
Proof.
  intros Hrun.
  destruct (sendRecipientAssets_keeps_store _ _ _ _ _ Hrun)
    as [[Hsame Hr]|(p & n & key & Hp & -> & Htr & Hproj)].
  - split; [done|]. intros ->. done.
  - split; [done|]. intros _. exists p, (accepted_project C E p key).
    do 2 (split; [done|]). rewrite Htr, last_app. cbn. by repeat split.
Qed.

(** X6.  A lock that is never opened holds the pipeline back for
    [LockInterval] seconds only: after one poll every ten seconds, as
    many as there are tens of seconds in [LockInterval] (rounded up), the
    pipeline goes on as if the project had been unlocked, with the
    password found in [LockPwd]; when its calls succeed the funds move
    into escrow and the project reaches stage 5 with [Lock] still set. *)
Theorem sendRecipientAssets_lock_times_out fuel projIndex w p r w' :
  projects w !! projIndex = Some p →
  Lock p = true →
  (lock_polls C < fuel)%nat →
  sendRecipientAssets C E fuel projIndex w = (r, w') →
  r ≠ Ok None
  ∧ ∃ new,
      trace w'
      = trace w ++ replicate (lock_polls C) (time_Sleep (10 * time_Second))
        ++ new
      ∧ Forall (fun ev => is_Sleep ev = false) new
      ∧ (r = Ok (Some tt) →
         escrow_transfers new = [TotalValue p]
         ∧ ∃ p', projects w' !! Index p = Some p'
                 ∧ Stage p' = 5 ∧ Lock p' = true
                 ∧ LockPwd p' = "").
Proof.
  intros Hp Hlock Hfuel Hrun.
  assert (Hwait : sendRecipientAssets_wait C fuel (utils_Unix w) projIndex w
                  = (Ok (Some tt), after_polls (lock_polls C) w)).
  { pose proof (sendRecipientAssets_wait_locked fuel (utils_Unix w) projIndex
                  w p Hp Hlock) as H. cbv zeta in H.
    rewrite Z.sub_diag, Z.sub_0_r in H. by apply H. }
  destruct (sendRecipientAssets_tail _ _ _ _ _ _ _ Hp Hwait eq_refl Hrun)
    as (new & Htr & Hcases).
  cbn [after_polls trace] in Htr. rewrite <- app_assoc in Htr.
  destruct Hcases as [((e & ->) & Hproj & Hnew)|(-> & -> & Hproj)].
  - split; [done|]. exists new. split; [done|]. split; [|done].
    destruct Hnew as [->|[->|[->| ->]]]; repeat constructor.
  - split; [done|]. eexists. split; [exact Htr|].
    split; [repeat constructor|]. intros _. split; [done|].
    eexists. split; [rewrite Hproj; apply lookup_insert_eq|]. by cbn.
Qed.

(** ** Unlocking a funded project *)

Variable ValidateRecipient : World → string → string → Recipient * option error.

(** X7.  [UnlockProject] opens the lock only for the recipient of the
    project and only with the password of that recipient's seed: it
    succeeds only when the project is stored and locked, the user name
    and hash belong to a recipient whose index is [RecipientIndex], and
    the seed password decrypts the recipient's seed to one whose public
    key is the recipient's.  It then has stored the project with [Lock]
    open and the password in [LockPwd], and changed nothing else; when
    it returns an error it leaves the world as it was.  It makes no
    outbound call. *)
Theorem UnlockProject_unlocks username pwhash projIndex seedpwd w r w' :
  UnlockProject E ValidateRecipient username pwhash projIndex seedpwd w
  = (r, w') →
  (r = Ok tt →
   ∃ p recipient seed,
     projects w !! projIndex = Some p
     ∧ Lock p = true
     ∧ ValidateRecipient w username pwhash = (recipient, None)
     ∧ U_Index (recp_U recipient) = RecipientIndex p
     ∧ wallet_DecryptSeed E (EncryptedSeed (Wallet (recp_U recipient))) seedpwd
       = (seed, None)
     ∧ wallet_ReturnPubkey E seed
       = (PublicKey (Wallet (recp_U recipient)), None)
     ∧ w' = mkWorld
              (<[Index p := set_Lock false (set_LockPwd seedpwd p)]>
                 (projects w))
              (clock w) (trace w))
  ∧ (r ≠ Ok tt → w' = w).
Proof.
  unfold UnlockProject. run_monad.
  destruct (projects w !! projIndex) as [p|] eqn:Hp;
    [rewrite (RetrieveProject_Some _ _ _ Hp)
    |rewrite (RetrieveProject_None _ _ Hp)]; run_monad;
    [|by intros [= <- <-]].
  destruct (ValidateRecipient w username pwhash) as [recipient [e|]];
    run_monad; [by intros [= <- <-]|].
  destruct (Z.eqb_spec (U_Index (recp_U recipient)) (RecipientIndex p))
    as [Hidx|Hidx]; cbn [negb]; [|by intros [= <- <-]].
  destruct (wallet_DecryptSeed E _ seedpwd) as [seed [e|]] eqn:Hdec;
    run_monad; [by intros [= <- <-]|].
  destruct (wallet_ReturnPubkey E seed) as [pubkey [e|]] eqn:Hpub;
    run_monad; [by intros [= <- <-]|].
  destruct (String.eqb_spec pubkey (PublicKey (Wallet (recp_U recipient))))
    as [->|Hkey]; cbn [negb]; [|by intros [= <- <-]].
  destruct (Lock p) eqn:Hlock; cbn [negb]; [|by intros [= <- <-]].
  destruct (Save_error E w _) as [e|]; run_monad; [by intros [= <- <-]|].
  intros [= <- <-]. split; [|done]. intros _.
  exists p, recipient, seed. by repeat split.
Qed.

(** After a successful unlock the project is stored unlocked, with the
    password. *)
Lemma UnlockProject_Ok_stored username pwhash projIndex seedpwd w w' p :
  UnlockProject E ValidateRecipient username pwhash projIndex seedpwd w
  = (Ok tt, w') →
  projects w !! projIndex = Some p →
  w' = mkWorld (<[Index p := set_Lock false (set_LockPwd seedpwd p)]>
                  (projects w)) (clock w) (trace w).
Proof.
  unfold UnlockProject. run_monad. intros Hrun Hp. revert Hrun.
  rewrite (RetrieveProject_Some _ _ _ Hp). run_monad.
  destruct (ValidateRecipient w username pwhash) as [recipient [e|]];
    run_monad; [discriminate|].
  destruct (_ =? _); cbn [negb]; [|discriminate].
  destruct (wallet_DecryptSeed E _ seedpwd) as [seed [e|]];
    run_monad; [discriminate|].
  destruct (wallet_ReturnPubkey E seed) as [pubkey [e|]];
    run_monad; [discriminate|].
  destruct (_ =? _)%string; cbn [negb]; [|discriminate].
  destruct (Lock p); cbn [negb]; [|discriminate].
  destruct (Save_error E w _) as [e|]; run_monad; [discriminate|].
  by intros [= <-].
Qed.

(** X8.  The password travels from the unlock to the pipeline and no
    further.  After a successful [UnlockProject] the pipeline finds the
    lock open at its first poll and does not sleep; every call of it
    that takes the recipient's seed takes the seed decrypted with the
    password given to the unlock; when the pipeline succeeds the stored
    project has an empty [LockPwd], and when it fails the password is
    still stored. *)
Theorem unlock_then_pipeline
    username pwhash projIndex seedpwd fuel w w1 p r w' :
  UnlockProject E ValidateRecipient username pwhash projIndex seedpwd w
  = (Ok tt, w1) →
  projects w !! projIndex = Some p →
  Index p = projIndex →
  sendRecipientAssets C E (S fuel) projIndex w1 = (r, w') →
  let recipient := fst (RetrieveRecipient E w1 (RecipientIndex p)) in
  let seed :=
    fst (wallet_DecryptSeed E (EncryptedSeed (Wallet (recp_U recipient)))
           seedpwd) in
  r ≠ Ok None
  ∧ (∃ new,
       trace w' = trace w1 ++ new
       ∧ Forall (fun ev => is_Sleep ev = false
                           ∧ (recipient_seed_of ev = None
                              ∨ recipient_seed_of ev = Some seed)) new)
  ∧ ∃ p', projects w' !! projIndex = Some p'
          ∧ Lock p' = false
          ∧ LockPwd p' = (if r is Ok (Some tt) then "" else seedpwd).
Proof.
  intros Hunlock Hp Hidx Hrun.
  apply (UnlockProject_Ok_stored _ _ _ _ _ _ _ Hunlock) in Hp as Hw1.
  set (p1 := set_Lock false (set_LockPwd seedpwd p)) in *.
  assert (Hp1 : projects w1 !! projIndex = Some p1).
  { rewrite Hw1, Hidx. apply lookup_insert_eq. }
  assert (Hwait : sendRecipientAssets_wait C (S fuel) (utils_Unix w1) projIndex w1
                  = (Ok (Some tt), w1)).
  { by apply (sendRecipientAssets_wait_unlocked _ _ _ _ p1). }
  destruct (sendRecipientAssets_tail _ _ _ _ _ _ _ Hp1 Hwait eq_refl Hrun)
    as (new & Htr & Hcases).
  cbv zeta.
  destruct Hcases as [((e & ->) & Hproj & Hnew)|(-> & -> & Hproj)].
  - split; [done|]. split.
    + exists new. split; [done|].
      destruct Hnew as [->|[->|[->| ->]]];
        repeat (apply Forall_cons_2;
                [split; [done|first [by left|by right]]|]);
        apply Forall_nil_2.
    + exists p1. rewrite Hproj. by repeat split.
  - split; [done|]. split.
    + eexists. split; [exact Htr|].
      repeat (apply Forall_cons_2;
              [split; [done|first [by left|by right]]|]);
      apply Forall_nil_2.
    + change (Index p1) with (Index p) in Hproj. rewrite Hidx in Hproj.
      eexists. split; [rewrite Hproj; apply lookup_insert_eq|]. by cbn.
Qed.

(** ** Payback, recorded before it is distributed *)

(** X9.  A payback towards a project whose escrow is locked is taken and
    recorded, yet nothing is distributed and the call reports an error:
    with the chain service accepting the payback and the store taking
    the project, [Payback] ends with the project stored updated, the one
    call on the chain service in the trace, no transfer out of escrow,
    and the error of [DistributePayments]. *)
Theorem Payback_escrow_locked
    recpIndex projIndex assetName amount recipientSeed w p :
  projects w !! projIndex = Some p →
  Index p = projIndex →
  InvestmentType p = "munibond" →
  EscrowLock p = true →
  let payback :=
    Call_MunibondPayback recpIndex amount recipientSeed projIndex assetName
      (InvestorIndices p) (TotalValue p) (EscrowPubkey p) in
  let p' :=
    Payback_update p (MunibondPayback_pct E w payback) amount (utils_Unix w) in
  call_error E w payback = None →
  Save_error E (log_event payback w) p' = None →
  Payback E recpIndex projIndex assetName amount recipientSeed w
  = (Err ("error while distributing payments" +:+ ": "
          +:+ "project escrow locked, can't send funds"),
     mkWorld (<[projIndex := p']> (projects w)) (clock w)
       (trace w ++ [payback])).
Proof.
  intros Hp Hidx Htype Hlock payback p' Hcall Hsave.
  unfold Payback, DistributePayments. run_monad.
  rewrite (RetrieveProject_Some _ _ _ Hp). run_monad.
  rewrite Htype. cbn [String.eqb Ascii.eqb Bool.eqb negb].
  fold payback. rewrite Hcall. run_monad.
  change (utils_Unix (log_event payback w)) with (utils_Unix w).
  fold p'. rewrite Hsave. run_monad.
  assert (Hi : Index p' = projIndex).
  { subst p'. by rewrite Payback_update_Index. }
  rewrite Hi. unfold RetrieveProject. cbn [projects].
  rewrite lookup_insert_eq. cbn [fst].
  assert (Hl : EscrowLock p' = true).
  { subst p'. unfold Payback_update. cbn.
    by destruct (_ =? 0)%float, (_ =? 1)%float. }
  by rewrite Hl.
Qed.

(** X10.  [Payback] records before it pays, and pays only what it has
    recorded.  For a project that is missing or not a municipal bond it
    makes no call, changes nothing and returns an error.  Otherwise it
    makes the [MunibondPayback] call first and once, followed by
    transfers out of escrow only.  When that call returns an error, or
    the store refuses the updated project, nothing is stored, nothing is
    paid out and the wrapped error is returned; when both succeed, the
    updated project is stored, and an error is then returned only if no
    transfer was made. *)
Theorem Payback_records_before_paying
    recpIndex projIndex assetName amount recipientSeed w r w' :
  Payback E recpIndex projIndex assetName amount recipientSeed w = (r, w') →
  match projects w !! projIndex with
  | None => w' = w ∧ ∃ e, r = Err e
  | Some p =>
      if (InvestmentType p =? "munibond")%string then
        let payback :=
          Call_MunibondPayback recpIndex amount recipientSeed projIndex
            assetName (InvestorIndices p) (TotalValue p) (EscrowPubkey p) in
        let p' :=
          Payback_update p (MunibondPayback_pct E w payback) amount
            (utils_Unix w) in
        ∃ payouts,
          trace w' = trace w ++ payback :: payouts
          ∧ Forall (fun ev => is_payout ev = true) payouts
          ∧ match call_error E w payback,
                  Save_error E (log_event payback w) p' with
            | Some e, _ =>
                projects w' = projects w ∧ payouts = []
                ∧ r = Err ("Error while paying back the issuer" +:+ ": "
                           +:+ e)
            | None, Some e =>
                projects w' = projects w ∧ payouts = []
                ∧ r = Err ("coudln't save project" +:+ ": " +:+ e)
            | None, None =>
                projects w' = <[Index p := p']> (projects w)
                ∧ (r = Ok tt ∨ (payouts = [] ∧ ∃ e, r = Err e))
            end
      else w' = w ∧ ∃ e, r = Err e
  end.
Proof.
  unfold Payback, DistributePayments. run_monad.
  destruct (projects w !! projIndex) as [p|] eqn:Hp;
    [rewrite (RetrieveProject_Some _ _ _ Hp)
    |rewrite (RetrieveProject_None _ _ Hp)]; run_monad;
    [|intros [= <- <-]; eauto].
  destruct (InvestmentType p =? "munibond")%string; run_monad;
    [|intros [= <- <-]; eauto].
  cbv zeta.
  destruct (call_error E w _) as [e|]; run_monad.
  { intros [= <- <-]. exists []. cbn [trace projects log_event].
    split; [done|]. split; [constructor|]. done. }
  destruct (Save_error E _ _) as [e|]; run_monad.
  { intros [= <- <-]. exists []. cbn [trace projects log_event].
    split; [done|]. split; [constructor|]. done. }
  match goal with
  | |- context [EscrowLock ?q] => destruct (EscrowLock q)
  end.
  - intros [= <- <-]. exists []. cbn [trace projects log_event].
    split; [done|]. split; [constructor|].
    rewrite Payback_update_Index. split; [done|]. right. eauto.
  - rewrite DistributePayments_loop_trace.
    intros [= <- <-]. eexists.
    cbn [trace projects log_event]. rewrite <- app_assoc. cbn [app].
    split; [done|]. split.
    + apply Forall_forall. by intros ev (entry & -> & _)%list_elem_of_fmap.
    + rewrite Payback_update_Index. split; [done|]. by left.
Qed.

(** ** The first-loss cover *)

(** X11.  [CoverFirstLoss] draws on a guarantor only when everything
    checks: either it returns an error and leaves the world as it was;
    or the project and the entity are stored, the entity is the
    guarantor of the project, its seed decrypts with its first-loss
    password, and exactly one transfer into the escrow of the project is
    attempted, of the stablecoin off the main network and of AnchorUSD on
    it, with the result of that transfer as the result of the call. *)
Theorem CoverFirstLoss_guarded projIndex entityIndex amount w r w' :
  CoverFirstLoss C E projIndex entityIndex amount w = (r, w') →
  (w' = w ∧ ∃ e, r = Err e)
  ∨ ∃ p entity seed,
      projects w !! projIndex = Some p
      ∧ RetrieveEntity E w entityIndex = (entity, None)
      ∧ GuarantorIndex p = U_Index (ent_U entity)
      ∧ wallet_DecryptSeed E (EncryptedSeed (Wallet (ent_U entity)))
          (FirstLossGuarantee entity) = (seed, None)
      ∧ let sent :=
          if (FirstLossGuaranteeAmt entity <? amount)%float
          then FirstLossGuaranteeAmt entity else amount in
        let transfer :=
          assets_SendAsset
            (if Mainnet C then AnchorUSDCode C else StablecoinCode C)
            (if Mainnet C then AnchorUSDAddress C else StablecoinPublicKey C)
            (EscrowPubkey p) sent seed "first loss guarantee" in
        w' = log_event transfer w
        ∧ r = match call_error E w transfer with
              | None => Ok tt
              | Some e =>
                  Err ("could not transfer asset to escrow, quitting"
                       +:+ ": " +:+ e)
              end.
Proof.
  unfold CoverFirstLoss. run_monad.
  destruct (projects w !! projIndex) as [p|] eqn:Hp;
    [rewrite (RetrieveProject_Some _ _ _ Hp)
    |rewrite (RetrieveProject_None _ _ Hp)]; run_monad;
    [|intros [= <- <-]; left; eauto].
  destruct (RetrieveEntity E w entityIndex) as [entity [e|]]; run_monad;
    [intros [= <- <-]; left; eauto|].
  destruct (Z.eqb_spec (GuarantorIndex p) (U_Index (ent_U entity)))
    as [Hg|Hg]; run_monad; [|intros [= <- <-]; left; eauto].
  destruct (wallet_DecryptSeed E _ _) as [seed [e|]] eqn:Hdec; run_monad;
    [intros [= <- <-]; left; eauto|].
  destruct (Mainnet C); run_monad;
    destruct (call_error E w _) as [e|] eqn:Hcall; intros [= <- <-];
    right; exists p, entity, seed; do 3 (split; [done|]);
    (split; [exact Hdec|]); cbv zeta; rewrite Hcall; done.
Qed.

(** ** The payback monitor keeps no books *)

Lemma CoverFirstLoss_keeps projIndex entityIndex amount w r w' :
  CoverFirstLoss C E projIndex entityIndex amount w = (r, w') →
  projects w' = projects w ∧ clock w' = clock w.
Proof.
  unfold CoverFirstLoss. run_monad.
  destruct (RetrieveProject w projIndex) as [p [e|]]; run_monad;
    [by intros [= <- <-]|].
  destruct (RetrieveEntity E w entityIndex) as [entity [e|]]; run_monad;
    [by intros [= <- <-]|].
  destruct (_ =? _)%Z; run_monad; [|by intros [= <- <-]].
  destruct (wallet_DecryptSeed E _ _) as [seed [e|]]; run_monad;
    [by intros [= <- <-]|].
  destruct (Mainnet C); run_monad;
    destruct (call_error E w _) as [e|]; by intros [= <- <-].
Qed.

Lemma monitorPaybacks_stern_loop_keeps indices projIndex w r w' :
  monitorPaybacks_stern_loop E indices projIndex w = (r, w') →
  r = Ok tt ∧ projects w' = projects w ∧ clock w' = clock w.
Proof.
  revert w. induction indices as [|i rest IH]; intros w;
    cbn [monitorPaybacks_stern_loop]; run_monad; [by intros [= <- <-]|].
  destruct (RetrieveInvestor E w i) as [investor [e|]]; run_monad;
    [apply IH|].
  destruct (Notification _); run_monad; [|apply IH].
  intros H. by apply IH in H.
Qed.

Lemma monitorPaybacks_disconnection_loop_keeps indices projIndex w r w' :
  monitorPaybacks_disconnection_loop C E indices projIndex w = (r, w') →
  r = Ok tt ∧ projects w' = projects w ∧ clock w ≤ clock w'.
Proof.
  revert w. induction indices as [|i rest IH]; intros w;
    cbn [monitorPaybacks_disconnection_loop]; run_monad;
    [by intros [= <- <-]|].
  destruct (RetrieveInvestor E w i) as [investor [e|]]; run_monad.
  - intros H. apply IH in H as (-> & -> & Hc). cbn [projects clock] in *.
    split; [done|]. split; [done|]. lia.
  - destruct (Notification _); run_monad; [|apply IH].
    intros H. by apply IH in H.
Qed.

(** The escalation chain stores nothing and returns no error; when it
    ends the round early it has slept a week. *)
Lemma monitorPaybacks_escalate_keeps
    project recipient guarantor factor projIndex w r w' :
  monitorPaybacks_escalate C E project recipient guarantor factor projIndex w
  = (r, w') →
  ∃ skip, r = Ok skip
          ∧ projects w' = projects w
          ∧ clock w ≤ clock w'
          ∧ (skip = true → clock w + Z.max 0 (OneWeekInSecond C) ≤ clock w').
Proof.
  unfold monitorPaybacks_escalate.
  destruct (escalation_band C factor); run_monad.
  - intros [= <- <-]. exists false. by repeat split.
  - intros [= <- <-]. exists false. cbn [projects clock].
    split; [done|]. split; [done|]. split; [lia|done].
  - destruct (monitorPaybacks_stern_loop E _ _ _) as [r1 w1] eqn:H1.
    apply monitorPaybacks_stern_loop_keeps in H1 as (-> & Hp & Hc).
    cbn [projects clock log_event] in Hp, Hc. run_monad.
    intros [= <- <-]. exists false. cbn [projects clock].
    split; [done|]. split; [done|]. split; [lia|done].
  - destruct (monitorPaybacks_disconnection_loop C E _ _ _) as [r1 w1] eqn:H1.
    apply monitorPaybacks_disconnection_loop_keeps in H1 as (-> & Hp & Hc).
    run_monad.
    destruct (CoverFirstLoss C E _ _ _ _) as [r2 w2] eqn:H2.
    apply CoverFirstLoss_keeps in H2 as [Hp2 Hc2].
    cbn [projects clock log_event] in Hp2, Hc2.
    destruct r2 as [[]|e]; run_monad; intros [= <- <-].
    + exists false. split; [done|]. split; [congruence|]. split; [lia|done].
    + exists true. cbn [projects clock]. split; [done|].
      split; [congruence|]. split; lia.
  - intros [= <- <-]. exists false. by repeat split.
Qed.

Lemma sleep_on_error_keeps (err : option error) w r w' :
  match err with
  | Some _ => Sleep (OneWeekInSecond C)
  | None => ret tt
  end w = (r, w') →
  r = Ok tt ∧ projects w' = projects w ∧ clock w ≤ clock w'.
Proof.
  destruct err; run_monad; intros [= <- <-]; cbn [projects clock];
    (split; [done|]); (split; [done|]); lia.
Qed.

(** One round stores nothing, returns no error and takes a week at
    least. *)
Lemma monitorPaybacks_cycle_keeps recpIndex projIndex w r w' :
  monitorPaybacks_cycle C E recpIndex projIndex w = (r, w') →
  r = Ok tt
  ∧ projects w' = projects w
  ∧ clock w + Z.max 0 (OneWeekInSecond C) ≤ clock w'.
Proof.
  unfold monitorPaybacks_cycle. intros H.
  apply bind_inv in H as [(rp & w1 & [= <- <-] & H)|(e & [=] & _)].
  apply bind_inv in H as [(u1 & w2 & H1 & H)|(e & H1 & _)];
    apply sleep_on_error_keeps in H1 as (? & P1 & C1); [|done].
  apply bind_inv in H as [(rr & w3 & [= <- <-] & H)|(e & [=] & _)].
  apply bind_inv in H as [(u2 & w4 & H2 & H)|(e & H2 & _)];
    apply sleep_on_error_keeps in H2 as (? & P2 & C2); [|done].
  apply bind_inv in H as [(rg & w5 & [= <- <-] & H)|(e & [=] & _)].
  apply bind_inv in H as [(u3 & w6 & H3 & H)|(e & H3 & _)];
    apply sleep_on_error_keeps in H3 as (? & P3 & C3); [|done].
  apply bind_inv in H as [(now & w7 & [= <- <-] & H)|(e & [=] & _)].
  apply bind_inv in H as [(bill & w8 & [= <- <-] & H)|(e & [=] & _)].
  apply bind_inv in H as [(skip & w9 & H4 & H)|(e & H4 & _)];
    apply monitorPaybacks_escalate_keeps in H4
      as (skip' & Hs & P4 & C4 & C4'); [|done].
  injection Hs as ->.
  destruct skip'; revert H; run_monad; intros [= <- <-]; cbn [projects clock].
  - specialize (C4' eq_refl). split; [done|]. split; [congruence|]. lia.
  - split; [done|]. split; [congruence|]. lia.
Qed.

(** X12.  The payback monitor keeps no books: however many rounds it
    runs, it returns no error, the stored projects are as they were when
    it started (the amount owed that a round accrues lives in the round's
    copy of the project only), and every round has taken a week at
    least. *)
Theorem monitorPaybacks_never_stores n recpIndex projIndex w r w' :
  monitorPaybacks C E n recpIndex projIndex w = (r, w') →
  r = Ok tt
  ∧ projects w' = projects w
  ∧ clock w + Z.of_nat n * Z.max 0 (OneWeekInSecond C) ≤ clock w'.
Proof.
  revert w. induction n as [|n IH]; intros w; cbn [monitorPaybacks].
  - intros [= <- <-]. split; [done|]. split; [done|]. lia.
  - intros H.
    apply bind_inv in H as [([] & w1 & H1 & H)|(e & H1 & _)];
      apply monitorPaybacks_cycle_keeps in H1 as (? & P1 & C1); [|done].
    apply IH in H as (-> & P & Cn).
    split; [done|]. split; [congruence|]. lia.
Qed.

(** ** Authorisation, votes and waterfall accounts *)

Variable R : Registry.

Lemma RetrieveFullProject_Some l key p :
  full_projects l !! key = Some p → RetrieveFullProject l key = (p, None).
Proof. intros H. unfold RetrieveFullProject. by rewrite H. Qed.

Lemma RetrieveFullProject_None l key :
  full_projects l !! key = None →
  RetrieveFullProject l key
  = (zeroFullProject, Some (errors_New "error while retrieving key from bucket")).
Proof. intros H. unfold RetrieveFullProject. by rewrite H. Qed.

(** X13.  [RecipientAuthorize] moves a project on only for the
    recipient it is assigned to and only when its originator is in good
    standing: either it returns an error, makes no call and leaves the
    bucket as it was; or the project is stored at stage 0, its originator
    is found, has passed KYC and is not banned, the recipient is found
    and is the one of the project, and then [SetStage(1)] is called on
    the project, followed, when it succeeds, by [RepOriginatedProject]
    for the originator, whose error is the result. *)
Theorem RecipientAuthorize_guarded projIndex recpIndex l r l' :
  RecipientAuthorize R projIndex recpIndex l = (r, l') →
  (l' = l ∧ r ≠ None)
  ∨ ∃ project originator recipient,
      full_projects l !! projIndex = Some project
      ∧ Stage (base project) = 0
      ∧ reg_RetrieveEntity R l (OriginatorIndex project) = (originator, None)
      ∧ Kyc originator = true
      ∧ Banned originator = false
      ∧ reg_RetrieveRecipient R l recpIndex = (recipient, None)
      ∧ RecipientIndex (base project) = U_Index (recp_U recipient)
      ∧ let staged := reg_SetStage R l project 1 in
        full_projects l' = snd (fst staged)
        ∧ match snd staged with
          | Some e =>
              core_calls l' = core_calls l ++ [project_SetStage project 1]
              ∧ r = Some ("Error while setting origin project" +:+ ": " +:+ e)
          | None =>
              ∃ rep,
                rep = Call_RepOriginatedProject
                        (OriginatorIndex (fst (fst staged)))
                        (Index (base (fst (fst staged))))
                ∧ core_calls l'
                  = core_calls l ++ [project_SetStage project 1; rep]
                ∧ r = errors_Wrap
                        (reg_call_error R
                           (mkLedger (snd (fst staged))
                              (core_calls l ++ [project_SetStage project 1]))
                           rep)
                        "error while increasing reputation of originator"
          end.
Proof.
  unfold RecipientAuthorize, VerifyBeforeAuthorizing.
  destruct (full_projects l !! projIndex) as [project|] eqn:Hp;
    [rewrite (RetrieveFullProject_Some _ _ _ Hp)
    |rewrite (RetrieveFullProject_None _ _ Hp)];
    [|intros [= <- <-]; by left].
  destruct (Z.eqb_spec (Stage (base project)) 0) as [Hstage|Hstage];
    cbn [negb]; [|intros [= <- <-]; by left].
  destruct (reg_RetrieveEntity R l _) as [originator [e|]] eqn:Horig;
    cbn [negb]; [intros [= <- <-]; by left|].
  destruct (Kyc originator) eqn:Hkyc; cbn [andb negb];
    [|intros [= <- <-]; by left].
  destruct (Banned originator) eqn:Hban; cbn [negb];
    [intros [= <- <-]; by left|].
  destruct (reg_RetrieveRecipient R l recpIndex) as [recipient [e|]] eqn:Hrecp;
    [intros [= <- <-]; by left|].
  destruct (Z.eqb_spec (RecipientIndex (base project))
              (U_Index (recp_U recipient))) as [Hidx|Hidx];
    cbn [negb]; [|intros [= <- <-]; by left].
  destruct (reg_SetStage R l project 1) as [[project' bucket] [e|]] eqn:Hset;
    cbn [errors_Wrap]; intros [= <- <-]; right;
    exists project, originator, recipient; do 7 (split; [done|]);
    rewrite Hset; cbn [fst snd full_projects core_calls].
  - by repeat split.
  - split; [done|]. eexists. split; [done|].
    rewrite <- app_assoc. by split.
Qed.

(** X14.  A vote is counted only for an investor who holds the votes
    and for a project at stage 2, and it is counted before it is paid
    for: either [VoteTowardsProposedProject] returns an error, makes no
    call and leaves the bucket as it was; or the investor is found, the
    votes are not above its [VotingBalance], the project is stored at
    stage 2, the project is stored with the votes added to [Votes] and
    nothing else changed, and [ChangeVotingBalance] is called last, whose
    error is the result; so the votes stay counted when the deduction
    fails. *)
Theorem VoteTowardsProposedProject_counts invIndex votes projectIndex l r l' :
  VoteTowardsProposedProject R invIndex votes projectIndex l = (r, l') →
  (l' = l ∧ r ≠ None)
  ∨ ∃ inv project,
      reg_RetrieveInvestor R l invIndex = (inv, None)
      ∧ (VotingBalance inv <? votes)%float = false
      ∧ full_projects l !! projectIndex = Some project
      ∧ Stage (base project) = 2
      ∧ let voted :=
          mkFullProject (base project) (Votes project + votes)%float
            (WaterfallMap project) (OriginatorIndex project) in
        let change := investor_ChangeVotingBalance inv votes in
        let stored := <[Index (base project) := voted]> (full_projects l) in
        l' = mkLedger stored (core_calls l ++ [change])
        ∧ r = errors_Wrap
                (reg_call_error R (mkLedger stored (core_calls l)) change)
                "error while deducitng voting balance of investor".
Proof.
  unfold VoteTowardsProposedProject, SaveFull.
  destruct (reg_RetrieveInvestor R l invIndex) as [inv [e|]] eqn:Hinv;
    [intros [= <- <-]; by left|].
  destruct (VotingBalance inv <? votes)%float eqn:Hbal;
    [intros [= <- <-]; by left|].
  destruct (full_projects l !! projectIndex) as [project|] eqn:Hp;
    [rewrite (RetrieveFullProject_Some _ _ _ Hp)
    |rewrite (RetrieveFullProject_None _ _ Hp)];
    [|intros [= <- <-]; by left].
  destruct (Z.eqb_spec (Stage (base project)) 2) as [Hstage|Hstage];
    cbn [negb]; [|intros [= <- <-]; by left].
  destruct (reg_Save_error R l _) as [e|]; [intros [= <- <-]; by left|].
  cbn [base full_projects core_calls]. intros [= <- <-]. right.
  exists inv, project. by repeat split.
Qed.

(** X15.  [addWaterfallAccount] writes one entry of one map: when the
    project is missing or the store refuses, it returns the error and
    changes nothing; otherwise the project is stored with a waterfall
    map (a fresh one if it had none) in which [pubkey] maps to [amount]
    and every other key is as before, with its other fields and every
    other project unchanged.  It makes no call. *)
Theorem addWaterfallAccount_inserts projIndex pubkey amount l r l' :
  addWaterfallAccount R projIndex pubkey amount l = (r, l') →
  (r ≠ None ∧ l' = l)
  ∨ (r = None
     ∧ ∃ project accounts,
         full_projects l !! projIndex = Some project
         ∧ l' = mkLedger
                  (<[Index (base project) :=
                       mkFullProject (base project) (Votes project)
                         (Some accounts) (OriginatorIndex project)]>
                     (full_projects l))
                  (core_calls l)
         ∧ accounts !! pubkey = Some amount
         ∧ ∀ k, k ≠ pubkey →
             accounts !! k
             = match WaterfallMap project with
               | Some m => m !! k
               | None => None
               end).
Proof.
  unfold addWaterfallAccount, SaveFull.
  destruct (full_projects l !! projIndex) as [project|] eqn:Hp;
    [rewrite (RetrieveFullProject_Some _ _ _ Hp)
    |rewrite (RetrieveFullProject_None _ _ Hp)];
    [|intros [= <- <-]; by left].
  destruct (reg_Save_error R l _) as [e|]; [intros [= <- <-]; by left|].
  cbn [base]. intros [= <- <-]. right. split; [done|].
  exists project. eexists. split; [done|]. split; [done|].
  split; [apply lookup_insert_eq|].
  intros k Hk. rewrite lookup_insert_ne by done.
  by destruct (WaterfallMap project).
Qed.

(** ** The RPC layer *)

Variable S : Server.

Lemma find_missing_None q options :
  find (missing q) options = None →
  Forall (fun o => missing q o = false) options.
Proof.
  induction options as [|o rest IH]; cbn [find]; [constructor|].
  destruct (missing q o) eqn:Ho; [discriminate|]. intros H.
  constructor; [done|by apply IH].
Qed.

(** X16.  [RecpValidateHelper] and [InvValidateHelper] let a request
    through only when it has every parameter the handler asks for, a
    user name and a password hash of 128 bytes, and the credentials
    store accepts the first user name with the first hash; what they
    return is what the store returned. *)
Theorem ValidateHelper_accepts_only {A} (zero : A) validate q options w a :
  ValidateHelper zero validate q options w = Returned (a, None) →
  ∃ username pwhash,
    Forall (fun o => missing q o = false) (options ++ ["username"; "pwhash"])
    ∧ first_value q "username" = Returned username
    ∧ first_value q "pwhash" = Returned pwhash
    ∧ String.length pwhash = 128%nat
    ∧ validate w username pwhash = (a, None).
Proof.
  unfold ValidateHelper. destruct q as [m|]; [|discriminate].
  destruct (find _ _) as [o|] eqn:Hfind; [discriminate|].
  apply find_missing_None in Hfind.
  destruct (first_value (Some m) "pwhash") as [pwhash|] eqn:Hpw;
    cbn [obind]; [|discriminate].
  destruct (Z.eqb_spec (Z.of_nat (String.length pwhash)) 128) as [Hlen|Hlen];
    cbn [negb]; [|discriminate].
  destruct (first_value (Some m) "username") as [username|] eqn:Hun;
    cbn [obind]; [|discriminate].
  intros [= Hv]. exists username, pwhash. repeat split; try done. lia.
Qed.

(** X17.  A request that lacks one of the parameters asked for, the
    user name or the password hash is refused with the error that names
    the first one missing, in the order of the options followed by
    [username] and [pwhash]; and a request whose first password hash is
    not 128 bytes long is refused as well.  In both cases the zero
    record is returned and the credentials store has no say: the result
    is the same whatever it would answer. *)
Theorem ValidateHelper_refuses {A} (zero : A) validate q options w :
  (∀ o before after,
     options ++ ["username"; "pwhash"] = before ++ o :: after →
     Forall (fun o' => missing q o' = false) before →
     missing q o = true →
     q ≠ None →
     ValidateHelper zero validate q options w
     = Returned (zero, Some ("required param: " +:+ o
                             +:+ "not specified, quitting")))
  ∧ (∀ pwhash,
       Forall (fun o => missing q o = false)
         (options ++ ["username"; "pwhash"]) →
       first_value q "pwhash" = Returned pwhash →
       String.length pwhash ≠ 128%nat →
       ValidateHelper zero validate q options w
       = Returned (zero, Some "pwhash length not 128, quitting")).
Proof.
  split.
  - intros o before after Hsplit Hbefore Ho Hq.
    unfold ValidateHelper. destruct q as [m|]; [|done].
    rewrite Hsplit.
    assert (Hfind : find (missing (Some m)) (before ++ o :: after) = Some o).
    { clear Hsplit. induction Hbefore as [|o' rest Ho' _ IH]; cbn [app find].
      - by rewrite Ho.
      - by rewrite Ho'. }
    by rewrite Hfind.
  - intros pwhash Hall Hpw Hlen.
    unfold ValidateHelper. destruct q as [m|]; [|done].
    assert (Hfind : find (missing (Some m)) (options ++ ["username"; "pwhash"])
                    = None).
    { induction Hall as [|o rest Ho _ IH]; cbn [find]; [done|].
      by rewrite Ho. }
    rewrite Hfind, Hpw. cbn [obind].
    destruct (Z.eqb_spec (Z.of_nat (String.length pwhash)) 128) as [H|H];
      [lia|done].
Qed.



(** ** Payback assets *)

(** X20.  For a project of finite value other than 0, the payback assets
    that [CalculatePayback] issues for the whole value are the months of
    its acquisition period, [EstimatedAcquisition * 12] as the integer
    arithmetic of the source computes it and converted to [float64]:
    the two roundings of the formula lose nothing there. *)
Theorem CalculatePayback_whole_value p :
  finite64 (TotalValue p) = true →
  (TotalValue p =? 0)%float = false →
  CalculatePayback p (TotalValue p)
  = float64_of_Z (wrap64 (EstimatedAcquisition p * 12)).
Proof.
  intros Hfin Hnz. unfold CalculatePayback.
  rewrite (float_div_self _ Hfin Hnz). apply float_mul_one_l.
Qed.

(** ** What stays behind after a failure *)

(** X21.  [updateAfterInvestment] commits the investment with its first
    store: when that store fails it returns the error and leaves the
    world as it was; once it has succeeded the project stays stored with
    the amount added to [MoneyRaised] and the investor appended to
    [InvestorIndices], whatever happens afterwards, also when the update
    ends with an error (of the second store, of the notification of the
    recipient, of the lookup of an investor or of the last store). *)
Theorem updateAfterInvestment_commits_first
    project invAmount invIndex seed w r w' :
  updateAfterInvestment C E project invAmount invIndex seed w = (r, w') →
  match Save_error E w (record_investment project invAmount invIndex seed) with
  | Some _ => w' = w ∧ ∃ e, r = Err e
  | None =>
      ∃ p', projects w' !! Index project = Some p'
            ∧ MoneyRaised p' = (MoneyRaised project + invAmount)%float
            ∧ InvestorIndices p' = InvestorIndices project ++ [invIndex]
  end.
Proof.
  pose proof (record_investment_Index project invAmount invIndex seed) as Hidx.
  pose proof (record_investment_MoneyRaised project invAmount invIndex seed) as Hmr.
  assert (Hii : InvestorIndices (record_investment project invAmount invIndex seed)
                = InvestorIndices project ++ [invIndex]).
  { unfold record_investment. by destruct seed. }
  unfold updateAfterInvestment. cbv zeta.
  remember (record_investment project invAmount invIndex seed) as p1 eqn:Hp1.
  clear Hp1. run_monad.
  destruct (Save_error E w p1) as [e|]; run_monad;
    [intros [= <- <-]; eauto|].
  assert (Hstored : ∀ (db : gmap Z Project) p',
    (p' = p1 ∨ p' = set_Lock true p1
     ∨ (∃ m, p' = set_InvestorMap m p1)
     ∨ ∃ m, p' = set_InvestorMap m (set_Lock true p1)) →
    ∃ p'', <[Index project := p']> db !! Index project = Some p''
           ∧ MoneyRaised p'' = (MoneyRaised project + invAmount)%float
           ∧ InvestorIndices p'' = InvestorIndices project ++ [invIndex]).
  { intros db p' Hp'. exists p'. split; [apply lookup_insert_eq|].
    rewrite <- Hmr, <- Hii.
    destruct Hp' as [->|[->|[[m ->]|[m ->]]]]; done. }
  destruct (_ =? _)%float; run_monad.
  2: { rewrite updateAfterInvestment_loop_fold. cbn [projects].
       destruct (retrieval_error E _ _); run_monad.
       - intros [= <- <-]. cbn [projects]. rewrite Hidx. apply Hstored. auto.
       - destruct (Save_error E _ _); run_monad; intros [= <- <-];
           cbn [projects].
         + rewrite Hidx. apply Hstored. auto.
         + change (Index (set_InvestorMap ?m p1)) with (Index p1).
           rewrite Hidx, insert_insert_eq. apply Hstored. eauto. }
  destruct (Save_error E _ (set_Lock true p1)) as [e|]; run_monad.
  { intros [= <- <-]. cbn [projects]. rewrite Hidx. apply Hstored. auto. }
  change (Index (set_Lock true p1)) with (Index p1). rewrite Hidx.
  rewrite insert_insert_eq.
  destruct (sendRecipientNotification C E _ _) as [rn wn] eqn:Hn.
  apply sendRecipientNotification_run in Hn as [Hproj _].
  cbn [projects] in Hproj.
  destruct rn as [[]|e]; run_monad.
  2: { intros [= <- <-]. rewrite Hproj. apply Hstored. auto. }
  rewrite updateAfterInvestment_loop_fold. cbn [projects trace].
  destruct (retrieval_error E _ _); run_monad.
  { intros [= <- <-]. cbn [projects log_event]. rewrite Hproj.
    apply Hstored. auto. }
  destruct (Save_error E _ _); run_monad; intros [= <- <-];
    cbn [projects log_event]; rewrite Hproj.
  - apply Hstored. auto.
  - change (Index (set_InvestorMap ?m (set_Lock true p1))) with (Index p1).
    rewrite Hidx, insert_insert_eq. apply Hstored. eauto 6.
Qed.

(** X22.  A set-up of the issuer that was started is never started
    again.  When a pre-investment check has stored the new investor
    asset code (it then went on to initialise and fund the issuer,
    whether or not these calls succeeded) and that code is not empty,
    every later check of the same project stores nothing and makes no
    call: an issuer whose initialisation or funding failed is not
    retried. *)
Theorem issuer_setup_not_retried
    projIndex invIndex invAmount seed w r w1 p
    invIndex2 invAmount2 seed2 r2 w2 :
  preInvestmentCheck C E projIndex invIndex invAmount seed w = (r, w1) →
  projects w !! projIndex = Some p →
  Index p = projIndex →
  w1 ≠ w →
  assets_AssetID E (InvestorAssetPrefix C +:+ Metadata p) ≠ "" →
  preInvestmentCheck C E projIndex invIndex2 invAmount2 seed2 w1 = (r2, w2) →
  w2 = w1
  ∧ ∃ q, projects w1 !! projIndex = Some q
         ∧ InvestorAssetCode q
           = assets_AssetID E (InvestorAssetPrefix C +:+ Metadata p).
Proof.
  intros Hrun Hp Hidx Hchanged Hcode Hrun2.
  destruct (preInvestmentCheck_run _ _ _ _ _ _ _ Hrun)
    as [[-> _]|(p0 & Hp0 & _ & _ & _ & _ & _ & _ & _ & _ & Hproj & _)];
    [done|].
  assert (p0 = p) as -> by congruence.
  set (q := set_InvestorAssetCode
              (assets_AssetID E (InvestorAssetPrefix C +:+ Metadata p)) p) in *.
  assert (Hq : projects w1 !! projIndex = Some q).
  { rewrite Hproj, Hidx. apply lookup_insert_eq. }
  split; [|by exists q].
  destruct (preInvestmentCheck_run _ _ _ _ _ _ _ Hrun2)
    as [[-> _]|(q0 & Hq0 & _ & _ & _ & _ & _ & _ & _ & Hempty & _)];
    [done|].
  assert (q0 = q) as -> by congruence.
  apply String.eqb_eq in Hempty. done.
Qed.

End Properties.

(** * The claims on a concrete platform *)

Lemma well_formed_world_of p :
  finite64 (TotalValue p) = true → well_formed (world_of p).
Proof.
  intros Hfin k q. unfold world_of. cbn [projects].
  intros [<- <-]%lookup_singleton_Some. done.
Qed.

(** C1, on the example project: 1500 is above the gap of 1000. *)
Lemma invest_above_gap_rejected_witness :
  let E := example_env no_balance 0 in
  let w := world_of example_project in
  (∃ e, Invest example_consts E 1 1 1500 "SEED" w = (Err e, w))
  ∧ (∃ e, SeedInvest example_consts E 1 1 1500 "SEED" w = (Err e, w)).
Proof.
  apply (invest_above_gap_rejected example_consts (example_env no_balance 0)
           1 1 1500 "SEED" (world_of example_project) example_project);
    vm_compute; reflexivity.
Defined.



(** Two floats a comparison tells apart are different. *)
Lemma float_neq x y : (x =? y)%float ≠ (x =? x)%float → x ≠ y.
Proof. intros Hne ->. done. Qed.



(** C4 as stated fails: with half of the asset owned, a payback for which
    the chain reports the fraction 0.75 takes [OwnershipShift] to 1.25. *)
Lemma ownership_saturates_counterexample : ¬ ownership_saturates_claim.
Proof.
  intros H.
  set (E := example_env no_balance 0.75).
  set (w := world_of repaid_project).
  set (w' := snd (Payback E 7 1 "PAYBACKASSET" 100 "RECPSEED" w)).
  assert (Hp : projects w !! 1 = Some repaid_project)
    by (vm_compute; reflexivity).
  assert (Hle : (OwnershipShift repaid_project <=? 1)%float = true)
    by (vm_compute; reflexivity).
  assert (Hrun : Payback E 7 1 "PAYBACKASSET" 100 "RECPSEED" w = (Ok tt, w'))
    by (vm_compute; reflexivity).
  assert (Hp' : projects w' !! 1
                = Some (Payback_update repaid_project 0.75 100 0))
    by (vm_compute; reflexivity).
  specialize (H E 7 1 "PAYBACKASSET" 100%float "RECPSEED" w w' repaid_project
                _ Hp Hle Hrun Hp').
  vm_compute in H. discriminate H.
Qed.

(** C4 (amended), on a payback of 100 for which the chain reports the
    fraction 0.25, with half of the asset owned: the call succeeds,
    [OwnershipShift] goes from 0.5 to 0.75, and [BalLeft] and [AmountOwed]
    do not increase. *)
Lemma Payback_ownership_never_decreases_witness :
  let E := example_env no_balance 0.25 in
  let w := world_of repaid_project in
  let w' := snd (Payback E 7 1 "PAYBACKASSET" 100 "RECPSEED" w) in
  let pct := payback_pct E w repaid_project 7 1 "PAYBACKASSET" 100 "RECPSEED" in
  Payback E 7 1 "PAYBACKASSET" 100 "RECPSEED" w = (Ok tt, w')
  ∧ (0 <=? pct)%float = true ∧ (pct <=? 1)%float = true
  ∧ ∃ p',
      projects w' !! 1 = Some p'
      ∧ ((p' = repaid_project ∧ ∃ e, Ok tt = Err e)
         ∨ (OwnershipShift p' = (OwnershipShift repaid_project + pct)%float
            ∧ (OwnershipShift repaid_project <=? OwnershipShift p')%float = true
            ∧ if (OwnershipShift p' =? 1)%float
              then BalLeft p' = 0%float ∧ AmountOwed p' = 0%float
              else (BalLeft p' <=? BalLeft repaid_project)%float = true
                   ∧ (AmountOwed p' <=? AmountOwed repaid_project)%float
                     = true)).
Proof.
  cbv zeta.
  split; [vm_compute; reflexivity|].
  split; [vm_compute; reflexivity|].
  split; [vm_compute; reflexivity|].
  apply (proj1 (Payback_ownership_never_decreases
                  (example_env no_balance 0.25))
           7 1 "PAYBACKASSET" 100%float "RECPSEED" (world_of repaid_project)
           (Ok tt) _ repaid_project);
    vm_compute; reflexivity.
Defined.

(** The reset at full ownership can raise both balances: with the
    fraction 0.5 reported for every payback, a payback of 1000 towards a
    project with 100 left takes [BalLeft] to -400 and [AmountOwed] to
    -700, and the next payback, of 0, completes the ownership and sets
    both to 0. *)
Example Payback_full_ownership_resets_balances :
  let E := example_env no_balance 0.5 in
  let w := world_of (set_OwnershipShift 0 (set_BalLeft 100 repaid_project)) in
  let first := mkRepayment 7 1 "PAYBACKASSET" 1000 "RECPSEED" in
  let second := mkRepayment 7 1 "PAYBACKASSET" 0 "RECPSEED" in
  ∃ p1 p2,
    projects (payback_all E [first] w) !! 1 = Some p1
    ∧ projects (payback_all E [first; second] w) !! 1 = Some p2
    ∧ (BalLeft p1 <? BalLeft p2)%float = true
    ∧ (AmountOwed p1 <? AmountOwed p2)%float = true.
Proof.
  cbv zeta. eexists _, _.
  split; [vm_compute; reflexivity|].
  split; [vm_compute; reflexivity|].
  split; vm_compute; reflexivity.
Qed.

(** C5 as stated fails: for a project worth 1000 with a seed surplus of
    100 the pipeline moves 1000 into escrow, not 1100. *)
Lemma escrow_gets_seed_surplus_counterexample : ¬ escrow_gets_seed_surplus_claim.
Proof.
  intros H.
  set (E := example_env no_balance 0).
  set (w := world_of seeded_project).
  set (w' := snd (sendRecipientAssets example_consts E 1 1 w)).
  set (new := [escrow_InitEscrow 1 "GRECP" "S";
               escrow_TransferFundsToEscrow 1000 1 "GESCROW";
               Call_MunibondReceive 7 1 "DebtAssets_metadata"
                 "PaybackAssets_metadata" 0 "S" 1100 0;
               Go (Task_monitorPaybacks 7 1)]).
  assert (Hp : projects w !! 1 = Some seeded_project)
    by (vm_compute; reflexivity).
  assert (Hlock : Lock seeded_project = false) by (vm_compute; reflexivity).
  assert (Hrun : sendRecipientAssets example_consts E 1 1 w
                 = (Ok (Some tt), w')) by (vm_compute; reflexivity).
  assert (Htr : trace w' = trace w ++ new) by (vm_compute; reflexivity).
  specialize (H example_consts E 1%nat 1 w w' seeded_project _ new
                Hp Hlock Hrun Htr).
  subst new. cbn [escrow_transfers] in H. apply Forall_cons_1 in H as [H _].
  revert H. apply float_neq. vm_compute. discriminate.
Qed.

(** C5 (amended), on that project. *)
Lemma sendRecipientAssets_unlocked_witness :
  let E := example_env no_balance 0 in
  let w := world_of seeded_project in
  let r := fst (sendRecipientAssets example_consts E 1 1 w) in
  let w' := snd (sendRecipientAssets example_consts E 1 1 w) in
  r ≠ Ok None
  ∧ ∃ new : list Event,
      trace w' = trace w ++ new
      ∧ (escrow_transfers new = []
         ∨ escrow_transfers new = [TotalValue seeded_project])
      ∧ (r = Ok (Some tt) →
         escrow_transfers new = [TotalValue seeded_project]
         ∧ last new = Some (Go (Task_monitorPaybacks
                                  (RecipientIndex seeded_project)
                                  (Index seeded_project)))
         ∧ ∃ p', projects w' !! Index seeded_project = Some p'
                 ∧ BalLeft p' = (TotalValue seeded_project
                                 + SeedMoneyRaised seeded_project)%float
                 ∧ Stage p' = 5).
Proof.
  cbv zeta.
  apply (sendRecipientAssets_unlocked example_consts
           (example_env no_balance 0) 0 1 (world_of seeded_project)
           seeded_project); vm_compute; reflexivity.
Defined.

(** C6, on the project with two investors: 5% of 100, shared 3 to 1. *)
Lemma DistributePayments_pays_every_investor_witness :
  let E := example_env no_balance 0 in
  let w := world_of repaid_project in
  ∃ sends,
    DistributePayments E "RECPSEED" "GESCROW" 1 100 w
    = (Ok tt, mkWorld (projects w) (clock w) (trace w ++ sends))
    ∧ sends ≡ₚ map (investor_return repaid_project "RECPSEED" 100)
                 (map_to_list (InvestorMap repaid_project)).
Proof.
  cbv zeta.
  apply (DistributePayments_pays_every_investor (example_env no_balance 0)
           "RECPSEED" "GESCROW" 1 100 (world_of repaid_project)
           repaid_project); [|vm_compute; reflexivity..].
  intros w' m. reflexivity.
Defined.

(** C7, on a guarantor whose ceiling is 500 and who is asked for 800. *)
Lemma CoverFirstLoss_transfer_clamped_witness :
  let E := example_env no_balance 0 in
  let w := world_of example_project in
  let w' := snd (CoverFirstLoss example_consts E 1 9 800 w) in
  projects w' = projects w
  ∧ (trace w' = trace w
     ∨ ∃ (assetCode issuerPubkey : string) (p : Project) (seed : string)
         (sent : float),
         projects w !! 1 = Some p
         ∧ trace w' = trace w ++ [assets_SendAsset assetCode issuerPubkey
                                    (EscrowPubkey p) sent seed
                                    "first loss guarantee"]
         ∧ let ceiling := FirstLossGuaranteeAmt (fst (RetrieveEntity E w 9)) in
           sent = (if (ceiling <? 800)%float then ceiling else 800%float)
           ∧ (800 <? sent)%float = false
           ∧ (ceiling <? sent)%float = false).
Proof.
  cbv zeta.
  apply (CoverFirstLoss_transfer_clamped example_consts
           (example_env no_balance 0) 1 9 800 (world_of example_project)
           (fst (CoverFirstLoss example_consts (example_env no_balance 0)
                   1 9 800 (world_of example_project)))).
  vm_compute; reflexivity.
Defined.

(** C8 as stated fails: the investor-asset query of investor 1 fails, its
    seed-asset balance is 100, and its recorded share of a project worth
    1000 is 0.1, not zero. *)
Lemma failed_query_zero_share_counterexample : ¬ failed_query_zero_share_claim.
Proof.
  intros H.
  set (E := example_env flaky_balance 0).
  set (w := world_of seeded_project).
  set (p' := set_InvestorMap (recomputed_map E w seeded_project [1; 2] ∅)
               seeded_project).
  assert (Hrun : updateAfterInvestment_loop E [1; 2] seeded_project w
                 = (Ok p', w)) by (vm_compute; reflexivity).
  destruct (H E [1; 2] seeded_project p' w 1 Hrun)
    as (share & Hshare & Hzero).
  - apply list_elem_of_here.
  - left. vm_compute. discriminate.
  - vm_compute in Hshare. injection Hshare as <-.
    vm_compute in Hzero. discriminate Hzero.
Qed.

(** C8 (amended), with the answers for investor 1 replaced by failures:
    the share of investor 2 is the same. *)
Lemma recomputation_isolates_balance_failures_witness :
  let E := example_env flaky_balance 0 in
  let g := fun (_ : World) (k a : string) =>
             if (k =? "GINV1")%string
             then (0%float, Some "horizon: request timed out")
             else flaky_balance k a in
  let w := world_of seeded_project in
  ∃ r r',
    updateAfterInvestment_loop E [1; 2] seeded_project w = (r, w)
    ∧ updateAfterInvestment_loop (with_balance E g) [1; 2] seeded_project w
      = (r', w)
    ∧ match r, r' with
      | Ok p1, Ok p2 =>
          retrieval_error E w [1; 2] = None
          ∧ (∀ k, k ≠ "GINV1" → InvestorMap p2 !! k = InvestorMap p1 !! k)
          ∧ (∀ i, i ∈ [1; 2] →
               InvestorMap p1 !! investor_pubkey E w i
               = Some (recorded_share E w seeded_project
                         (investor_pubkey E w i)))
      | Err e1, Err e2 => e1 = e2 ∧ retrieval_error E w [1; 2] ≠ None
      | _, _ => False
      end.
Proof.
  cbv zeta.
  apply (recomputation_isolates_balance_failures
           (example_env flaky_balance 0)
           (fun (_ : World) (k a : string) =>
              if (k =? "GINV1")%string
              then (0%float, Some "horizon: request timed out")
              else flaky_balance k a)
           "GINV1" [1; 2] seeded_project (world_of seeded_project)).
  intros w' k a Hk. cbn [example_env xlm_GetAssetBalance].
  destruct (String.eqb_spec k "GINV1"); [done|reflexivity].
Defined.

(** C9 as stated fails: with the thresholds 1, 2, 4 and 6 a factor of 3
    is above 1 and in no band. *)
Lemma bands_cover_counterexample : ¬ bands_cover_claim.
Proof.
  intros H.
  apply (H example_consts 3%float); vm_compute; reflexivity.
Qed.

(** C9 (amended), with the thresholds 1, 2, 4 and 6: a factor of 3 is
    above 1, at least [AlertThreshold] and below the two thresholds after
    it, and is in no band. *)
Lemma escalation_one_band_with_gaps_witness :
  (1 <? 3)%float = true
  ∧ (AlertThreshold example_consts <=? 3)%float = true
  ∧ (3 <? SternAlertThreshold example_consts)%float = true
  ∧ (3 <? DisconnectionThreshold example_consts)%float = true
  ∧ escalation_band example_consts 3 = NoBand.
Proof.
  repeat (split; [vm_compute; reflexivity|]).
  apply (proj2 (proj2 (proj2 (escalation_one_band_with_gaps example_consts
                                (example_env no_balance 0)))) 3%float);
    vm_compute; reflexivity.
Defined.

(** C10, on a world without the project. *)
Lemma DistributePayments_lookup_error_dropped_witness :
  let E := example_env no_balance 0 in
  let w := world_of example_project in
  snd (RetrieveProject w 2) ≠ None
  ∧ DistributePayments E "RECPSEED" "GESCROW" 2 100 w = (Ok tt, w).
Proof.
  cbv zeta.
  apply (DistributePayments_lookup_error_dropped (example_env no_balance 0)
           "RECPSEED" "GESCROW" 2 100 (world_of example_project));
    [|vm_compute; reflexivity].
  intros w' m. reflexivity.
Defined.

(** * The further properties on the concrete platform *)

(** X1, on the example project before its first investment. *)
Lemma preInvestmentCheck_sets_up_issuer_witness :
  let E := example_env no_balance 0 in
  let w := world_of fresh_project in
  let q := set_InvestorAssetCode "InvestorAssets_metadata" fresh_project in
  let w' := mkWorld (<[1 := q]> (projects w)) 0
              [issuer_InitIssuer 1; issuer_FundIssuer 1] in
  preInvestmentCheck example_consts E 1 1 500 "SEED" w = (Ok q, w')
  ∧ ∃ p,
      projects w !! 1 = Some p
      ∧ if ((Chain p =? "stellar")%string || (Chain p =? "")%string)
           && ((SeedAssetCode p =? "")%string
               && (InvestorAssetCode p =? "")%string)
        then
          q = set_InvestorAssetCode
                (assets_AssetID E
                   (InvestorAssetPrefix example_consts +:+ Metadata p)) p
          ∧ w' = mkWorld (<[Index p := q]> (projects w)) (clock w)
                   (trace w ++ [issuer_InitIssuer 1; issuer_FundIssuer 1])
        else q = p ∧ w' = w.
Proof.
  cbv zeta. split; [vm_compute; reflexivity|].
  apply (preInvestmentCheck_sets_up_issuer example_consts
           (example_env no_balance 0) 1 1 500 "SEED").
  vm_compute; reflexivity.
Defined.

(** X2, on the example project on algorand. *)
Lemma invest_other_chain_rejected_witness :
  let E := example_env no_balance 0 in
  let w := world_of algorand_project in
  (∃ q, preInvestmentCheck example_consts E 1 1 500 "SEED" w = (Ok q, w))
  ∧ (∃ e, Invest example_consts E 1 1 500 "SEED" w = (Err e, w))
  ∧ (∃ e, SeedInvest example_consts E 1 1 500 "SEED" w = (Err e, w)).
Proof.
  cbv zeta. split; [eexists; vm_compute; reflexivity|].
  apply (invest_other_chain_rejected example_consts (example_env no_balance 0)
           1 1 500 "SEED" (world_of algorand_project) algorand_project);
    [vm_compute; reflexivity|vm_compute; discriminate|vm_compute; discriminate].
Defined.

(** X3, on an investment of 500 into the example project. *)
Lemma investment_accepted_only_if_witness :
  let E := example_env no_balance 0 in
  let w := world_of example_project in
  let w' := snd (Invest example_consts E 1 1 500 "SEED" w) in
  Invest example_consts E 1 1 500 "SEED" w = (Ok tt, w')
  ∧ ∃ p, projects w !! 1 = Some p
         ∧ checked_investment E w p 1 500 "SEED"
         ∧ InvestmentType p = "munibond"
         ∧ (Chain p = "stellar" ∨ Chain p = "")
         ∧ (Stage p = 4
            ∨ ((Stage p = 1 ∨ Stage p = 2)
               ∧ (SeedInvestmentCap p <? 500)%float = false)).
Proof.
  cbv zeta.
  assert (Hrun : Invest example_consts (example_env no_balance 0) 1 1 500
                   "SEED" (world_of example_project)
                 = (Ok tt,
                    snd (Invest example_consts (example_env no_balance 0) 1 1
                           500 "SEED" (world_of example_project))))
    by (vm_compute; reflexivity).
  split; [exact Hrun|].
  exact (proj2 (investment_accepted_only_if example_consts
                  (example_env no_balance 0)) 1 1 500%float "SEED" _ _ Hrun).
Defined.

(** X4, on the same investment. *)
Lemma investment_recorded_in_store_witness :
  let E := example_env no_balance 0 in
  let w := world_of example_project in
  let w' := snd (Invest example_consts E 1 1 500 "SEED" w) in
  Invest example_consts E 1 1 500 "SEED" w = (Ok tt, w')
  ∧ (∃ p', projects w' !! 1 = Some p'
           ∧ investment_recorded example_project p' 1 500
               (negb (Stage example_project =? 4)))
  ∧ ∀ k, k ≠ 1 → projects w' !! k = projects w !! k.
Proof.
  cbv zeta.
  assert (Hrun : Invest example_consts (example_env no_balance 0) 1 1 500
                   "SEED" (world_of example_project)
                 = (Ok tt,
                    snd (Invest example_consts (example_env no_balance 0) 1 1
                           500 "SEED" (world_of example_project))))
    by (vm_compute; reflexivity).
  split; [exact Hrun|].
  apply (proj2 (investment_recorded_in_store example_consts
                  (example_env no_balance 0)) 1 1 500%float "SEED" _ _
           example_project Hrun); vm_compute; reflexivity.
Defined.

(** X5, on the example project, unlocked. *)
Lemma sendRecipientAssets_stores_last_witness :
  let E := example_env no_balance 0 in
  let w := world_of example_project in
  let w' := snd (sendRecipientAssets example_consts E 1 1 w) in
  sendRecipientAssets example_consts E 1 1 w = (Ok (Some tt), w')
  ∧ ∃ p p',
      projects w !! 1 = Some p
      ∧ projects w' = <[Index p := p']> (projects w)
      ∧ LockPwd p' = ""
      ∧ Lock p' = Lock p
      ∧ Stage p' = 5
      ∧ BalLeft p' = (TotalValue p + SeedMoneyRaised p)%float
      ∧ DebtAssetCode p'
        = assets_AssetID E (DebtAssetPrefix example_consts +:+ Metadata p)
      ∧ PaybackAssetCode p'
        = assets_AssetID E (PaybackAssetPrefix example_consts +:+ Metadata p)
      ∧ MoneyRaised p' = MoneyRaised p
      ∧ InvestorMap p' = InvestorMap p
      ∧ last (trace w')
        = Some (Go (Task_monitorPaybacks (RecipientIndex p) (Index p))).
Proof.
  cbv zeta.
  assert (Hrun : sendRecipientAssets example_consts (example_env no_balance 0)
                   1 1 (world_of example_project)
                 = (Ok (Some tt),
                    snd (sendRecipientAssets example_consts
                           (example_env no_balance 0) 1 1
                           (world_of example_project))))
    by (vm_compute; reflexivity).
  split; [exact Hrun|].
  exact (proj2 (sendRecipientAssets_stores_last example_consts
                  (example_env no_balance 0) 1 1 _ _ _ Hrun) eq_refl).
Defined.

(** X6, with a lock interval of 25 seconds: three polls, then the
    pipeline runs although the project was never unlocked. *)
Lemma sendRecipientAssets_lock_times_out_witness :
  let E := example_env no_balance 0 in
  let w := world_of locked_project in
  let run := sendRecipientAssets short_lock_consts E 4 1 w in
  lock_polls short_lock_consts = 3%nat
  ∧ fst run = Ok (Some tt)
  ∧ fst run ≠ Ok None
  ∧ ∃ new,
      trace (snd run)
      = trace w ++ replicate (lock_polls short_lock_consts)
                     (time_Sleep (10 * time_Second)) ++ new
      ∧ Forall (fun ev => is_Sleep ev = false) new
      ∧ (fst run = Ok (Some tt) →
         escrow_transfers new = [TotalValue locked_project]
         ∧ ∃ p', projects (snd run) !! Index locked_project = Some p'
                 ∧ Stage p' = 5 ∧ Lock p' = true ∧ LockPwd p' = "").
Proof.
  cbv zeta. split; [vm_compute; reflexivity|].
  split; [vm_compute; reflexivity|].
  apply (sendRecipientAssets_lock_times_out short_lock_consts
           (example_env no_balance 0) 4 1 (world_of locked_project)
           locked_project);
    [vm_compute; reflexivity|vm_compute; reflexivity|vm_compute; lia|].
  vm_compute; reflexivity.
Defined.

(** X7, on the locked example project and its recipient 7. *)
Lemma UnlockProject_unlocks_witness :
  let E := example_env no_balance 0 in
  let w := world_of locked_project in
  let run := UnlockProject E example_validate "recipient" example_pwhash 1
               "RECPSEED" w in
  fst run = Ok tt
  ∧ (fst run = Ok tt →
     ∃ p recipient seed,
       projects w !! 1 = Some p
       ∧ Lock p = true
       ∧ example_validate w "recipient" example_pwhash = (recipient, None)
       ∧ U_Index (recp_U recipient) = RecipientIndex p
       ∧ wallet_DecryptSeed E (EncryptedSeed (Wallet (recp_U recipient)))
           "RECPSEED" = (seed, None)
       ∧ wallet_ReturnPubkey E seed
         = (PublicKey (Wallet (recp_U recipient)), None)
       ∧ snd run
         = mkWorld
             (<[Index p := set_Lock false (set_LockPwd "RECPSEED" p)]>
                (projects w))
             (clock w) (trace w))
  ∧ (fst run ≠ Ok tt → snd run = w).
Proof.
  cbv zeta. split; [vm_compute; reflexivity|].
  apply (UnlockProject_unlocks (example_env no_balance 0) example_validate
           "recipient" example_pwhash 1 "RECPSEED" (world_of locked_project)).
  vm_compute; reflexivity.
Defined.

(** X8, on the same unlock followed by the pipeline. *)
Lemma unlock_then_pipeline_witness :
  let E := example_env no_balance 0 in
  let w := world_of locked_project in
  let w1 := snd (UnlockProject E example_validate "recipient" example_pwhash
                   1 "RECPSEED" w) in
  let run := sendRecipientAssets example_consts E 1 1 w1 in
  let recipient := fst (RetrieveRecipient E w1 (RecipientIndex locked_project))
  in
  let seed :=
    fst (wallet_DecryptSeed E (EncryptedSeed (Wallet (recp_U recipient)))
           "RECPSEED") in
  fst run = Ok (Some tt)
  ∧ fst run ≠ Ok None
  ∧ (∃ new,
       trace (snd run) = trace w1 ++ new
       ∧ Forall (fun ev => is_Sleep ev = false
                           ∧ (recipient_seed_of ev = None
                              ∨ recipient_seed_of ev = Some seed)) new)
  ∧ ∃ p', projects (snd run) !! 1 = Some p'
          ∧ Lock p' = false
          ∧ LockPwd p' = (if fst run is Ok (Some tt) then "" else "RECPSEED").
Proof.
  cbv zeta. split; [vm_compute; reflexivity|].
  apply (unlock_then_pipeline example_consts (example_env no_balance 0)
           example_validate "recipient" example_pwhash 1 "RECPSEED" 0
           (world_of locked_project) _ locked_project);
    vm_compute; reflexivity.
Defined.

(** X9, on a payback of 100 towards the project with its escrow
    locked. *)
Lemma Payback_escrow_locked_witness :
  let E := example_env no_balance 0.5 in
  let w := world_of escrow_locked_project in
  let p := escrow_locked_project in
  let payback :=
    Call_MunibondPayback 7 100 "SRECPSEED" 1 "PAYBACKASSET"
      (InvestorIndices p) (TotalValue p) (EscrowPubkey p) in
  let p' :=
    Payback_update p (MunibondPayback_pct E w payback) 100 (utils_Unix w) in
  Payback E 7 1 "PAYBACKASSET" 100 "SRECPSEED" w
  = (Err ("error while distributing payments" +:+ ": "
          +:+ "project escrow locked, can't send funds"),
     mkWorld (<[1 := p']> (projects w)) (clock w) (trace w ++ [payback])).
Proof.
  cbv zeta.
  apply (Payback_escrow_locked (example_env no_balance 0.5) 7 1
           "PAYBACKASSET" 100 "SRECPSEED" (world_of escrow_locked_project)
           escrow_locked_project); vm_compute; reflexivity.
Defined.

(** X10, on a payback of 100 towards the project with two investors:
    the chain service and the store accept it, the project is stored
    updated and the two investors are paid. *)
Lemma Payback_records_before_paying_witness :
  let E := example_env no_balance 0.5 in
  let w := world_of repaid_project in
  let run := Payback E 7 1 "PAYBACKASSET" 100 "SRECPSEED" w in
  fst run = Ok tt
  ∧ length (trace (snd run)) = 3%nat
  ∧ match projects w !! 1 with
    | None => snd run = w ∧ ∃ e, fst run = Err e
    | Some p =>
        if (InvestmentType p =? "munibond")%string then
          let payback :=
            Call_MunibondPayback 7 100 "SRECPSEED" 1 "PAYBACKASSET"
              (InvestorIndices p) (TotalValue p) (EscrowPubkey p) in
          let p' :=
            Payback_update p (MunibondPayback_pct E w payback) 100
              (utils_Unix w) in
          ∃ payouts,
            trace (snd run) = trace w ++ payback :: payouts
            ∧ Forall (fun ev => is_payout ev = true) payouts
            ∧ match call_error E w payback,
                    Save_error E (log_event payback w) p' with
              | Some e, _ =>
                  projects (snd run) = projects w ∧ payouts = []
                  ∧ fst run
                    = Err ("Error while paying back the issuer" +:+ ": "
                           +:+ e)
              | None, Some e =>
                  projects (snd run) = projects w ∧ payouts = []
                  ∧ fst run = Err ("coudln't save project" +:+ ": " +:+ e)
              | None, None =>
                  projects (snd run) = <[Index p := p']> (projects w)
                  ∧ (fst run = Ok tt
                     ∨ (payouts = [] ∧ ∃ e, fst run = Err e))
              end
        else snd run = w ∧ ∃ e, fst run = Err e
    end.
Proof.
  cbv zeta. split; [vm_compute; reflexivity|].
  split; [vm_compute; reflexivity|].
  apply (Payback_records_before_paying (example_env no_balance 0.5) 7 1
           "PAYBACKASSET" 100 "SRECPSEED" (world_of repaid_project)).
  vm_compute; reflexivity.
Defined.

(** X11, on a loss of 700 covered by the guarantor 9, who guarantees
    500. *)
Lemma CoverFirstLoss_guarded_witness :
  let C := example_consts in
  let E := example_env no_balance 0 in
  let w := world_of example_project in
  let run := CoverFirstLoss C E 1 9 700 w in
  fst run = Ok tt
  ∧ ((snd run = w ∧ ∃ e, fst run = Err e)
     ∨ ∃ p entity seed,
         projects w !! 1 = Some p
         ∧ RetrieveEntity E w 9 = (entity, None)
         ∧ GuarantorIndex p = U_Index (ent_U entity)
         ∧ wallet_DecryptSeed E (EncryptedSeed (Wallet (ent_U entity)))
             (FirstLossGuarantee entity) = (seed, None)
         ∧ let sent :=
             if (FirstLossGuaranteeAmt entity <? 700)%float
             then FirstLossGuaranteeAmt entity else 700%float in
           let transfer :=
             assets_SendAsset
               (if Mainnet C then AnchorUSDCode C else StablecoinCode C)
               (if Mainnet C then AnchorUSDAddress C
                else StablecoinPublicKey C)
               (EscrowPubkey p) sent seed "first loss guarantee" in
           snd run = log_event transfer w
           ∧ fst run = match call_error E w transfer with
                       | None => Ok tt
                       | Some e =>
                           Err ("could not transfer asset to escrow, quitting"
                                +:+ ": " +:+ e)
                       end).
Proof.
  cbv zeta. split; [vm_compute; reflexivity|].
  apply (CoverFirstLoss_guarded example_consts (example_env no_balance 0)
           1 9 700 (world_of example_project)).
  vm_compute; reflexivity.
Defined.

(** X12, on two rounds of the monitor of the project with two
    investors. *)
Lemma monitorPaybacks_never_stores_witness :
  let C := example_consts in
  let E := example_env no_balance 0 in
  let w := world_of repaid_project in
  let run := monitorPaybacks C E 2 7 1 w in
  fst run = Ok tt
  ∧ projects (snd run) = projects w
  ∧ clock w + Z.of_nat 2 * Z.max 0 (OneWeekInSecond C) ≤ clock (snd run).
Proof.
  cbv zeta.
  apply (monitorPaybacks_never_stores example_consts
           (example_env no_balance 0) 2 7 1 (world_of repaid_project)).
  vm_compute; reflexivity.
Defined.

(** X13, on the proposed project, authorised by its recipient 7. *)
Lemma RecipientAuthorize_guarded_witness :
  let R := example_registry in
  let l := ledger_of proposed_project in
  let run := RecipientAuthorize R 1 7 l in
  fst run = None
  ∧ ((snd run = l ∧ fst run ≠ None)
     ∨ ∃ project originator recipient,
         full_projects l !! 1 = Some project
         ∧ Stage (base project) = 0
         ∧ reg_RetrieveEntity R l (OriginatorIndex project)
           = (originator, None)
         ∧ Kyc originator = true
         ∧ Banned originator = false
         ∧ reg_RetrieveRecipient R l 7 = (recipient, None)
         ∧ RecipientIndex (base project) = U_Index (recp_U recipient)
         ∧ let staged := reg_SetStage R l project 1 in
           full_projects (snd run) = snd (fst staged)
           ∧ match snd staged with
             | Some e =>
                 core_calls (snd run)
                 = core_calls l ++ [project_SetStage project 1]
                 ∧ fst run
                   = Some ("Error while setting origin project" +:+ ": "
                           +:+ e)
             | None =>
                 ∃ rep,
                   rep = Call_RepOriginatedProject
                           (OriginatorIndex (fst (fst staged)))
                           (Index (base (fst (fst staged))))
                   ∧ core_calls (snd run)
                     = core_calls l ++ [project_SetStage project 1; rep]
                   ∧ fst run
                     = errors_Wrap
                         (reg_call_error R
                            (mkLedger (snd (fst staged))
                               (core_calls l
                                ++ [project_SetStage project 1]))
                            rep)
                         "error while increasing reputation of originator"
             end).
Proof.
  cbv zeta. split; [vm_compute; reflexivity|].
  apply (RecipientAuthorize_guarded example_registry 1 7
           (ledger_of proposed_project)).
  vm_compute; reflexivity.
Defined.

(** X14, on 50 votes of investor 1, who holds 100. *)
Lemma VoteTowardsProposedProject_counts_witness :
  let R := example_registry in
  let l := ledger_of voting_project in
  let run := VoteTowardsProposedProject R 1 50 1 l in
  fst run = None
  ∧ ((snd run = l ∧ fst run ≠ None)
     ∨ ∃ inv project,
         reg_RetrieveInvestor R l 1 = (inv, None)
         ∧ (VotingBalance inv <? 50)%float = false
         ∧ full_projects l !! 1 = Some project
         ∧ Stage (base project) = 2
         ∧ let voted :=
             mkFullProject (base project) (Votes project + 50)%float
               (WaterfallMap project) (OriginatorIndex project) in
           let change := investor_ChangeVotingBalance inv 50 in
           let stored :=
             <[Index (base project) := voted]> (full_projects l) in
           snd run = mkLedger stored (core_calls l ++ [change])
           ∧ fst run
             = errors_Wrap
                 (reg_call_error R (mkLedger stored (core_calls l)) change)
                 "error while deducitng voting balance of investor").
Proof.
  cbv zeta. split; [vm_compute; reflexivity|].
  apply (VoteTowardsProposedProject_counts example_registry 1 50 1
           (ledger_of voting_project)).
  vm_compute; reflexivity.
Defined.

(** X15, on a first waterfall account of the proposed project. *)
Lemma addWaterfallAccount_inserts_witness :
  let R := example_registry in
  let l := ledger_of proposed_project in
  let run := addWaterfallAccount R 1 "GWATER" 25 l in
  fst run = None
  ∧ ((fst run ≠ None ∧ snd run = l)
     ∨ (fst run = None
        ∧ ∃ project accounts,
            full_projects l !! 1 = Some project
            ∧ snd run
              = mkLedger
                  (<[Index (base project) :=
                       mkFullProject (base project) (Votes project)
                         (Some accounts) (OriginatorIndex project)]>
                     (full_projects l))
                  (core_calls l)
            ∧ accounts !! "GWATER" = Some 25%float
            ∧ ∀ k, k ≠ "GWATER" →
                accounts !! k
                = match WaterfallMap project with
                  | Some m => m !! k
                  | None => None
                  end)).
Proof.
  cbv zeta. split; [vm_compute; reflexivity|].
  apply (addWaterfallAccount_inserts example_registry 1 "GWATER" 25
           (ledger_of proposed_project)).
  vm_compute; reflexivity.
Defined.

(** X16, on the payback request of the recipient. *)
Lemma ValidateHelper_accepts_only_witness :
  let q := payback_request in
  let options := ["assetName"; "amount"; "seedpwd"; "projIndex"] in
  let w := world_of example_project in
  let a := mkRecipient (example_user 7 "GSRECPSEED") in
  ValidateHelper (mkRecipient zeroUser) example_validate q options w
  = Returned (a, None)
  ∧ ∃ username pwhash,
      Forall (fun o => missing q o = false)
        (options ++ ["username"; "pwhash"])
      ∧ first_value q "username" = Returned username
      ∧ first_value q "pwhash" = Returned pwhash
      ∧ String.length pwhash = 128%nat
      ∧ example_validate w username pwhash = (a, None).
Proof.
  cbv zeta. split; [vm_compute; reflexivity|].
  apply (ValidateHelper_accepts_only (mkRecipient zeroUser) example_validate
           payback_request ["assetName"; "amount"; "seedpwd"; "projIndex"]
           (world_of example_project)).
  vm_compute; reflexivity.
Defined.

(** X17, on a payback request without its amount. *)
Lemma ValidateHelper_refuses_witness :
  ValidateHelper (mkRecipient zeroUser) example_validate
    payback_request_without_amount
    ["assetName"; "amount"; "seedpwd"; "projIndex"]
    (world_of example_project)
  = Returned (mkRecipient zeroUser,
              Some ("required param: " +:+ "amount"
                    +:+ "not specified, quitting")).
Proof.
  apply (proj1 (ValidateHelper_refuses (mkRecipient zeroUser)
                  example_validate payback_request_without_amount
                  ["assetName"; "amount"; "seedpwd"; "projIndex"]
                  (world_of example_project))
           "amount" ["assetName"] ["seedpwd"; "projIndex"; "username";
                                   "pwhash"]);
    [reflexivity
    |apply Forall_cons_2; [vm_compute; reflexivity|apply Forall_nil_2]
    |vm_compute; reflexivity
    |discriminate].
Defined.



(** X20, on a project worth 1000 with an acquisition period of five
    years: 60 payback assets. *)
Lemma CalculatePayback_whole_value_witness :
  CalculatePayback five_year_project (TotalValue five_year_project)
  = float64_of_Z (wrap64 (EstimatedAcquisition five_year_project * 12))
  ∧ float64_of_Z (wrap64 (EstimatedAcquisition five_year_project * 12))
    = 60%float.
Proof.
  split; [|vm_compute; reflexivity].
  apply (CalculatePayback_whole_value five_year_project);
    vm_compute; reflexivity.
Defined.

(** X21, on an investment of 500 into the example project. *)
Lemma updateAfterInvestment_commits_first_witness :
  let C := example_consts in
  let E := example_env no_balance 0 in
  let w := world_of example_project in
  let run := updateAfterInvestment C E example_project 500 1 false w in
  fst run = Ok tt
  ∧ match Save_error E w (record_investment example_project 500 1 false) with
    | Some _ => snd run = w ∧ ∃ e, fst run = Err e
    | None =>
        ∃ p', projects (snd run) !! Index example_project = Some p'
              ∧ MoneyRaised p'
                = (MoneyRaised example_project + 500)%float
              ∧ InvestorIndices p'
                = InvestorIndices example_project ++ [1]
    end.
Proof.
  cbv zeta. split; [vm_compute; reflexivity|].
  apply (updateAfterInvestment_commits_first example_consts
           (example_env no_balance 0) example_project 500 1 false
           (world_of example_project)).
  vm_compute; reflexivity.
Defined.

(** X22, on two checks of the example project before its first
    investment. *)
Lemma issuer_setup_not_retried_witness :
  let C := example_consts in
  let E := example_env no_balance 0 in
  let w := world_of fresh_project in
  let w1 := snd (preInvestmentCheck C E 1 1 500 "SEED" w) in
  let w2 := snd (preInvestmentCheck C E 1 2 300 "SEED2" w1) in
  w1 ≠ w
  ∧ w2 = w1
  ∧ ∃ q, projects w1 !! 1 = Some q
         ∧ InvestorAssetCode q
           = assets_AssetID E
               (InvestorAssetPrefix C +:+ Metadata fresh_project).
Proof.
  cbv zeta.
  assert (Hne : snd (preInvestmentCheck example_consts
                       (example_env no_balance 0) 1 1 500 "SEED"
                       (world_of fresh_project))
                ≠ world_of fresh_project)
    by (vm_compute; discriminate).
  split; [exact Hne|].
  apply (issuer_setup_not_retried example_consts (example_env no_balance 0)
           1 1 500 "SEED" (world_of fresh_project)
           (fst (preInvestmentCheck example_consts (example_env no_balance 0)
                   1 1 500 "SEED" (world_of fresh_project)))
           _ fresh_project 2 300 "SEED2"
           (fst (preInvestmentCheck example_consts (example_env no_balance 0)
                   1 2 300 "SEED2"
                   (snd (preInvestmentCheck example_consts
                           (example_env no_balance 0) 1 1 500 "SEED"
                           (world_of fresh_project))))));
    [vm_compute; reflexivity|vm_compute; reflexivity|vm_compute; reflexivity
    |exact Hne|vm_compute; discriminate|vm_compute; reflexivity].
Defined.
